(** * Repetition data validation over [cin]: a shallow embedding of main.cpp

    The program reads values from [cin] with the formatted extraction
    operator, and repeats the request for as long as [cin.good()] reports a
    failure (type-checking validation) or the value lies outside a pair of
    bounds (range-checking validation).

    The embedding keeps the shape of the source:
    - [istream] is the part of the [cin] object the code depends on: the
      characters waiting in the input buffer, the [eofbit] and [failbit] state
      flags and the [boolalpha] format flag;
    - every member call on [cin] and every insertion into [cout] is an action
      of a small state monad over a [world]; the world also keeps the history
      of those calls, so that the order of the operations can be stated;
    - the three [while] loops of the readers are one loop over the extraction
      operator of the target type; a loop can run for ever (on an exhausted
      input it does), so it is bounded by a number of iterations [fuel].

    The library behind [cin] is modelled as ISO C++11 specifies it for the
    classic locale: a formatted extraction skips whitespace, sets [failbit]
    when no value can be read and [eofbit] when it meets the end of the
    input, and stores 0 or the nearest limit on failure; [int] has 32 bits,
    [float] is IEEE 754 binary32 and [double] binary64, and a decimal numeral
    is converted to the nearest value, ties to even.  The input is the finite
    text typed during the session; after it the stream is at its end. *)

From Stdlib Require Import List Ascii String ZArith Bool Lia Arith.
From Stdlib Require Import Floats.SpecFloat.
Import ListNotations.

Set Implicit Arguments.

(** ** The input stream *)

Module Stream.

Record istream : Type := mkStream {
  buf : list ascii;     (* characters typed and not yet extracted *)
  eofbit : bool;
  failbit : bool;
  boolalpha : bool      (* format flag set by the boolalpha manipulator *)
}.

(** [cin.good()]: no state flag is set. *)
Definition good (s : istream) : bool := negb (eofbit s) && negb (failbit s).

(** [cin.clear()]: all state flags are reset; buffer and format flags stay. *)
Definition clear (s : istream) : istream :=
  mkStream (buf s) false false (boolalpha s).

(** [cin.setstate(failbit)]. *)
Definition setfail (s : istream) : istream :=
  mkStream (buf s) (eofbit s) true (boolalpha s).

(** [cin >> boolalpha]: sets the format flag, whatever the state flags are. *)
Definition set_boolalpha (s : istream) : istream :=
  mkStream (buf s) (eofbit s) (failbit s) true.

(** The stream an interactive session starts with: [text] has been typed. *)
Definition typed (text : list ascii) : istream := mkStream text false false false.

Definition newline : ascii := "010"%char.

(** The characters [cin.ignore(n, delim)] leaves in the buffer, and whether
    the end of the input was met: characters are extracted and discarded
    until [n] of them have been, or the input ends, or the delimiter has been
    extracted. *)
Fixpoint ignore_buf (n : nat) (delim : ascii) (b : list ascii)
  : list ascii * bool :=
  match n with
  | O => (b, false)
  | S n' =>
      match b with
      | [] => ([], true)
      | c :: b' =>
          if Ascii.eqb c delim then (b', false) else ignore_buf n' delim b'
      end
  end.

(** [cin.ignore(n, delim)] is an unformatted input function: on a stream that
    is not good it only sets [failbit]. *)
Definition ignore (n : nat) (delim : ascii) (s : istream) : istream :=
  if good s then
    let '(b, eof) := ignore_buf n delim (buf s) in
    mkStream b eof false (boolalpha s)
  else setfail s.

(** Whitespace of the classic locale, skipped by formatted extraction. *)
Definition is_space (c : ascii) : bool :=
  let n := nat_of_ascii c in
  Nat.eqb n 32 || (Nat.leb 9 n && Nat.leb n 13).

Fixpoint skipws (b : list ascii) : list ascii :=
  match b with
  | c :: b' => if is_space c then skipws b' else b
  | [] => []
  end.

(** The prefix of a formatted extraction ([istream::sentry]): a stream that is
    not good gets [failbit] and nothing is read; otherwise whitespace is
    skipped, and meeting the end of the input there sets [eofbit] and
    [failbit].  [scan] is the type's own parser: it receives a buffer that
    starts with a character that is not whitespace and returns the buffer
    left, whether it met the end of the input, whether it failed, and the
    value it stores.  The result [None] says that the target variable was not
    assigned. *)
Definition formatted {T : Type}
    (scan : bool -> list ascii -> list ascii * bool * bool * T)
    (s : istream) : istream * option T :=
  if good s then
    match skipws (buf s) with
    | [] => (mkStream [] true true (boolalpha s), None)
    | b =>
        let '(rest, eof, fail, v) := scan (boolalpha s) b in
        (mkStream rest eof fail (boolalpha s), Some v)
    end
  else (setfail s, None).

End Stream.
Import Stream.

(** ** Extraction of the target types *)

Module Lex.

Definition is_digit (c : ascii) : bool :=
  let n := nat_of_ascii c in Nat.leb 48 n && Nat.leb n 57.

Definition digit_val (c : ascii) : Z := (Z.of_nat (nat_of_ascii c) - 48)%Z.

(** The longest run of decimal digits at the head of the buffer. *)
Fixpoint scan_digits (b : list ascii) : list ascii * list ascii :=
  match b with
  | c :: b' =>
      if is_digit c then let '(ds, r) := scan_digits b' in (c :: ds, r)
      else ([], b)
  | [] => ([], [])
  end.

Definition digits_val (ds : list ascii) : Z :=
  fold_left (fun acc c => 10 * acc + digit_val c)%Z ds 0%Z.

(** An optional sign; [true] is minus. *)
Definition scan_sign (b : list ascii) : bool * list ascii :=
  match b with
  | c :: b' =>
      if Ascii.eqb c "-" then (true, b')
      else if Ascii.eqb c "+" then (false, b')
      else (false, b)
  | [] => (false, b)
  end.

Definition is_nil {A : Type} (l : list A) : bool :=
  match l with [] => true | _ => false end.

Definition INT_MIN : Z := (- 2 ^ 31)%Z.
Definition INT_MAX : Z := (2 ^ 31 - 1)%Z.
Definition LONG_MIN : Z := (- 2 ^ 63)%Z.
Definition LONG_MAX : Z := (2 ^ 63 - 1)%Z.

(** [num_get] for a decimal integer of the range [lo .. hi]: sign and digits
    are accumulated; no digit is a failure that stores 0, a value that does
    not fit is a failure that stores the nearest limit.  The end of the input
    is met when the digits run up to it. *)
Definition scan_integer (lo hi : Z) (b : list ascii)
  : list ascii * bool * bool * Z :=
  let '(neg, b1) := scan_sign b in
  let '(ds, rest) := scan_digits b1 in
  let eof := is_nil rest in
  match ds with
  | [] => (rest, eof, true, 0)
  | _ =>
      let z := if neg then - digits_val ds else digits_val ds in
      if z <? lo then (rest, eof, true, lo)
      else if hi <? z then (rest, eof, true, hi)
      else (rest, eof, false, z)
  end%Z.

Definition scan_int (_ : bool) (b : list ascii) : list ascii * bool * bool * Z :=
  scan_integer INT_MIN INT_MAX b.

(** [cin >> userval] for an [int]. *)
Definition extract_int : istream -> istream * option Z := formatted scan_int.

(** *** bool *)

(** Matching the buffer against a name: the buffer after the characters that
    matched, whether the whole name matched, and whether the input ended
    while a character was sought. *)
Fixpoint match_name (name b : list ascii) : list ascii * bool * bool :=
  match name with
  | [] => (b, true, false)
  | n :: name' =>
      match b with
      | [] => ([], false, true)
      | c :: b' =>
          if Ascii.eqb c n then match_name name' b' else (b, false, false)
      end
  end.

Definition truename : list ascii := list_ascii_of_string "true".
Definition falsename : list ascii := list_ascii_of_string "false".

(** [num_get] for a [bool].  With the [boolalpha] flag the input is matched
    against the names [true] and [false], and anything else is a failure that
    stores [false]; the characters that matched a name are consumed.  Without
    the flag a [long] is read: 0 and 1 are the two values, another number
    stores [true] and fails. *)
Definition scan_bool (alpha : bool) (b : list ascii)
  : list ascii * bool * bool * bool :=
  if alpha then
    let '(rt, okt, eoft) := match_name truename b in
    let '(rf, okf, eoff) := match_name falsename b in
    if okt then (rt, false, false, true)
    else if okf then (rf, false, false, false)
    else ((if Nat.leb (List.length rt) (List.length rf) then rt else rf),
          eoft || eoff, true, false)
  else
    let '(rest, eof, fail, z) := scan_integer LONG_MIN LONG_MAX b in
    if (z =? 0)%Z then (rest, eof, fail, false)
    else if (z =? 1)%Z then (rest, eof, fail, true)
    else (rest, eof, true, true).

(** *** float *)

(** A decimal numeral [n * 10 ^ e10] rounded to the nearest value of the
    binary format of precision [prec] and exponent bound [emax], ties to
    even: the division of the standard library's specification of IEEE 754
    arithmetic, applied to the two integers of the fraction. *)
Definition decimal_to_binary (prec emax : Z) (neg : bool) (n e10 : Z)
  : spec_float :=
  if (n =? 0)%Z then S754_zero neg
  else
    let '(num, den) :=
      if (0 <=? e10)%Z then (n * 10 ^ e10, 1)%Z else (n, 10 ^ (- e10))%Z in
    SFdiv prec emax (S754_finite neg (Z.to_pos num) 0)
                    (S754_finite false (Z.to_pos den) 0).

(** binary32, the format of [float], and binary64, the format of [double]. *)
Definition to_float : bool -> Z -> Z -> spec_float := decimal_to_binary 24 128.
Definition to_double : bool -> Z -> Z -> spec_float := decimal_to_binary 53 1024.

Definition FLT_MAX (neg : bool) : spec_float :=
  S754_finite neg (2 ^ 24 - 1) 104.

(** The fraction of a literal: a point and the digits after it. *)
Definition scan_fraction (b : list ascii) : list ascii * list ascii :=
  match b with
  | c :: b' => if Ascii.eqb c "." then scan_digits b' else ([], b)
  | [] => ([], b)
  end.

(** The exponent of a literal, read only after a mantissa with a digit: the
    letter, an optional sign and digits.  [None] when no exponent starts
    here; otherwise the buffer left and the exponent, which is [None] when
    no digit follows the letter and the sign. *)
Definition scan_exponent (b : list ascii)
  : option (list ascii * option Z) :=
  match b with
  | c :: b' =>
      if Ascii.eqb c "e" || Ascii.eqb c "E" then
        let '(eneg, b1) := scan_sign b' in
        let '(ds, rest) := scan_digits b1 in
        match ds with
        | [] => Some (rest, None)
        | _ => Some (rest, Some (if eneg then - digits_val ds
                                 else digits_val ds)%Z)
        end
      else None
  | [] => None
  end.

(** What is stored for a numeral of value [v]: a value beyond the largest
    float is a failure that stores that limit. *)
Definition float_stored (neg : bool) (v : spec_float) : bool * spec_float :=
  match v with
  | S754_infinity _ => (true, FLT_MAX neg)
  | _ => (false, v)
  end.

(** [num_get] for a [float]: sign, digits, point, digits and exponent are
    accumulated, then converted as [strtof] does.  A numeral without a digit
    in the mantissa, or with an exponent letter and no exponent digit, is a
    failure that stores 0. *)
Definition scan_float (_ : bool) (b : list ascii)
  : list ascii * bool * bool * spec_float :=
  let '(neg, b1) := scan_sign b in
  let '(ip, b2) := scan_digits b1 in
  let '(fp, b3) := scan_fraction b2 in
  let mant := digits_val (ip ++ fp) in
  let shift := Z.of_nat (List.length fp) in
  if is_nil ip && is_nil fp then (b3, is_nil b3, true, S754_zero false)
  else
    match scan_exponent b3 with
    | None =>
        let '(fail, v) := float_stored neg (to_float neg mant (0 - shift)) in
        (b3, is_nil b3, fail, v)
    | Some (rest, None) => (rest, is_nil rest, true, S754_zero false)
    | Some (rest, Some e) =>
        let '(fail, v) := float_stored neg (to_float neg mant (e - shift)) in
        (rest, is_nil rest, fail, v)
    end.

Definition extract_float : istream -> istream * option spec_float :=
  formatted scan_float.

(** The conversion of a [float] to [double], which is exact: the same number
    in the wider format. *)
Definition promote (f : spec_float) : spec_float :=
  match f with
  | S754_finite s m e =>
      binary_normalize 53 1024 (if s then Z.neg m else Z.pos m) e s
  | _ => f
  end.

End Lex.
Import Lex.

(** ** The world: [cin], and the history of the calls on [cin] and [cout] *)

Section World.

Variable T : Type.   (* the target type of the reader *)

(** One insertion into [cout]. *)
Inductive item : Type :=
| Text (s : string)
| Val (v : T)
| Endl.

(** The calls the program makes, in the order it makes them.  [CExtract]
    records what the extraction stored in the target variable and what
    [cin.good()] answers after it; [COut] is one output statement with its
    insertions; [CCompare] marks an evaluation of the range test of a demo on
    the value given. *)
Inductive call : Type :=
| CExtract (stored : option T) (ok : bool)
| CClear
| CIgnore (n : nat) (delim : ascii)
| COut (items : list item)
| CCompare (v : T).

Record world : Type := mkWorld {
  cin : istream;
  history : list call
}.

(** What running a piece of the program gives: a value and the world after
    it; or the iterations allowed were used up inside a loop ([Timeout], at
    the world reached); or a variable was read that was never assigned
    ([Undefined]). *)
Inductive result (A : Type) : Type :=
| Done (a : A) (w : world)
| Timeout (w : world)
| Undefined (w : world).

Definition M (A : Type) : Type := world -> result A.

Definition ret {A : Type} (a : A) : M A := fun w => Done a w.

Definition bind {A B : Type} (m : M A) (k : A -> M B) : M B :=
  fun w =>
    match m w with
    | Done a w' => k a w'
    | Timeout _ w' => Timeout B w'
    | Undefined _ w' => Undefined B w'
    end.

Definition timeout {A : Type} : M A := fun w => Timeout A w.
Definition undefined {A : Type} : M A := fun w => Undefined A w.

Definition record_call (c : call) (w : world) : list call := history w ++ [c].

(** [cin.good()] *)
Definition cin_good : M bool := fun w => Done (good (cin w)) w.

(** [cin.clear()] *)
Definition cin_clear : M unit :=
  fun w => Done tt (mkWorld (clear (cin w)) (record_call CClear w)).

(** [cin.ignore(n, delim)] *)
Definition cin_ignore (n : nat) (delim : ascii) : M unit :=
  fun w => Done tt (mkWorld (ignore n delim (cin w))
                            (record_call (CIgnore n delim) w)).

(** [cout << ... << ...;] *)
Definition cout_put (items : list item) : M unit :=
  fun w => Done tt (mkWorld (cin w) (record_call (COut items) w)).

(** [cin >> userval] with the extraction [get] of the target type. *)
Definition cin_extract (get : istream -> istream * option T) : M (option T) :=
  fun w =>
    let '(s, stored) := get (cin w) in
    Done stored (mkWorld s (record_call (CExtract stored (good s)) w)).

(** The evaluation of a range test [test] on [v]. *)
Definition compare (test : T -> bool) (v : T) : M bool :=
  fun w => Done (test v) (mkWorld (cin w) (record_call (CCompare v) w)).

(** The content of a variable after an extraction into it. *)
Definition assign (old stored : option T) : option T :=
  match stored with
  | Some v => Some v
  | None => old
  end.

End World.

Arguments Text {T} s.
Arguments Endl {T}.
Arguments CClear {T}.
Arguments CIgnore {T} n delim.
Arguments timeout {T A}.
Arguments undefined {T A}.
Arguments cin_good {T}.
Arguments cin_clear {T}.
Arguments cin_ignore {T} n delim.

Notation "x <- c1 ;; c2" := (bind c1 (fun x => c2))
  (at level 61, c1 at next level, right associativity).
Notation "c1 ;; c2" := (bind c1 (fun _ => c2))
  (at level 61, right associativity).

(** ** The readers *)

Section Readers.

Variable T : Type.
Variable get : istream -> istream * option T.   (* cin >> userval *)
Variable type_message : list (item T).          (* the retry prompt *)

(** The loop of [read_int], [read_float] and [read_element]:
    [while (! cin.good()) { cin.clear(); cin.ignore(80, '\n'); cout << ...;
    cin >> userval; }  return userval;] *)
Fixpoint read_loop (fuel : nat) (userval : option T) : M T T :=
  ok <- cin_good ;;
  if ok then
    match userval with
    | Some v => ret v
    | None => undefined
    end
  else
    match fuel with
    | O => timeout
    | S fuel' =>
        cin_clear ;;
        cin_ignore 80 newline ;;
        cout_put type_message ;;
        stored <- cin_extract get ;;
        read_loop fuel' (assign userval stored)
    end.

(** A reader: [T userval; cin >> userval;] followed by the loop. *)
Definition read (fuel : nat) : M T T :=
  stored <- cin_extract get ;;
  read_loop fuel (assign None stored).

(** A type-checking demo: prompt, read, display.  (The demos on [element]
    also insert the boolalpha manipulator into [cout]: it changes how a
    [bool] is displayed, and nothing in the stream [cin].) *)
Definition demo_type_checking (prompt : list (item T)) (fuel : nat) : M T unit :=
  cout_put prompt ;;
  userval <- read fuel ;;
  cout_put [Text "You entered "; Val userval; Endl; Endl].

Variable out_of_range : T -> bool.   (* (userval < low) || (userval > high) *)
Variable range_message : list (item T).

(** The loop of the range-checking demos:
    [while ((userval < low) || (userval > high)) { cout << ...;
    userval = read(); }] *)
Fixpoint range_loop (rfuel fuel : nat) (userval : T) : M T T :=
  out <- compare out_of_range userval ;;
  if out then
    match fuel with
    | O => timeout
    | S fuel' =>
        cout_put range_message ;;
        v <- read rfuel ;;
        range_loop rfuel fuel' v
    end
  else ret userval.

(** The range-checked reader inside a demo: a first read, then the loop; the
    value is the one the demo goes on to display. *)
Definition read_in_range (fuel : nat) : M T T :=
  userval <- read fuel ;;
  range_loop fuel fuel userval.

(** A type-and-range-checking demo: prompt, read in range, display. *)
Definition demo_type_and_range_checking (prompt : list (item T)) (fuel : nat)
  : M T unit :=
  cout_put prompt ;;
  userval <- read_in_range fuel ;;
  cout_put [Text "You entered "; Val userval; Endl; Endl].

End Readers.

(** ** The program: readers and demos of main.cpp *)

(** One block of [typedef] and global constants for the [element] type: the
    type, its display name, the bounds, and what the parser of
    [cin >> userval] and [<] are at that type. *)
Record element_block : Type := mkBlock {
  element : Type;
  ELEMENT_NAME : string;
  ELEMENT_LOW : element;
  ELEMENT_HIGH : element;
  scan_element : bool -> list ascii -> list ascii * bool * bool * element;
  element_lt : element -> element -> bool
}.

(** [typedef int element;], the block that is not commented out.  Of the
    blocks that are commented out, the one for [bool] follows; those for
    [long int], [float], [double], [char] and [string] are not used below. *)
Definition int_block : element_block :=
  mkBlock "whole number" 17%Z 52%Z scan_int Z.ltb.

(** [typedef bool element;] *)
Definition bool_block : element_block :=
  mkBlock "boolean" false true scan_bool (fun a b => negb a && b).

Definition int_type_message : list (item Z) :=
  [Text "Invalid data type, should be a whole "; Text "number, try again: "].

Definition float_type_message : list (item spec_float) :=
  [Text "Invalid data type, should be a fractional ";
   Text "number, try again: "].

Definition element_type_message (blk : element_block) : list (item (element blk)) :=
  [Text "Invalid data type, should be an element (";
   Text (ELEMENT_NAME blk); Text "), try again: "].

Definition read_int : nat -> M Z Z := read extract_int int_type_message.

Definition read_float : nat -> M spec_float spec_float :=
  read extract_float float_type_message.

(** [cin >> boolalpha >> userval] *)
Definition extract_alpha (blk : element_block) (s : istream)
  : istream * option (element blk) :=
  formatted (scan_element blk) (set_boolalpha s).

Definition read_element (blk : element_block)
  : nat -> M (element blk) (element blk) :=
  read (extract_alpha blk) (element_type_message blk).

Definition demo_int_type_checking : nat -> M Z unit :=
  demo_type_checking extract_int int_type_message
    [Text "Enter a whole number: "].

Definition demo_float_type_checking : nat -> M spec_float unit :=
  demo_type_checking extract_float float_type_message
    [Text "Enter a fractional number: "].

Definition demo_element_type_checking (blk : element_block)
  : nat -> M (element blk) unit :=
  demo_type_checking (extract_alpha blk) (element_type_message blk)
    [Text "Enter an element ("; Text (ELEMENT_NAME blk); Text "): "].

(** [(userval < low) || (userval > high)] on [int]. *)
Definition int_out_of_range (low high userval : Z) : bool :=
  (userval <? low)%Z || (userval >? high)%Z.

(** [(userval < low) || (userval > high)] with a [float] variable and
    [double] bounds: the variable is converted to [double]. *)
Definition float_out_of_range (low high userval : spec_float) : bool :=
  SFltb (promote userval) low || SFltb high (promote userval).

Definition element_out_of_range (blk : element_block) (userval : element blk)
  : bool :=
  element_lt blk userval (ELEMENT_LOW blk)
  || element_lt blk (ELEMENT_HIGH blk) userval.

(** The range-checked reader on [int] for bounds [low] and [high]; the text
    of the message is the caller's. *)
Definition read_int_in_range (low high : Z) (range_message : list (item Z))
  : nat -> M Z Z :=
  read_in_range extract_int int_type_message (int_out_of_range low high)
    range_message.

Definition int_range_message : list (item Z) :=
  [Text "Invalid range, should be between 6 and 37, "; Text "try again: "].

Definition demo_int_type_and_range_checking : nat -> M Z unit :=
  demo_type_and_range_checking extract_int int_type_message
    (int_out_of_range 6 37) int_range_message
    [Text "Enter a whole number between 6 and 37: "].

(** The [double] constants [5.5] and [42.8]. *)
Definition FLOAT_LOW : spec_float := to_double false 55 (-1).
Definition FLOAT_HIGH : spec_float := to_double false 428 (-1).

Definition float_range_message : list (item spec_float) :=
  [Text "Invalid range, should be between 5.5 and "; Text "42.8, try again: "].

Definition read_float_in_range : nat -> M spec_float spec_float :=
  read_in_range extract_float float_type_message
    (float_out_of_range FLOAT_LOW FLOAT_HIGH) float_range_message.

Definition demo_float_type_and_range_checking : nat -> M spec_float unit :=
  demo_type_and_range_checking extract_float float_type_message
    (float_out_of_range FLOAT_LOW FLOAT_HIGH) float_range_message
    [Text "Enter a factional number between 5.5 and 42.8: "].

Definition element_range_message (blk : element_block)
  : list (item (element blk)) :=
  [Text "Invalid range, should be between "; Val (ELEMENT_LOW blk);
   Text " and "; Val (ELEMENT_HIGH blk); Text ", try again: "].

Definition read_element_in_range (blk : element_block)
  : nat -> M (element blk) (element blk) :=
  read_in_range (extract_alpha blk) (element_type_message blk)
    (element_out_of_range blk) (element_range_message blk).

Definition demo_element_type_and_range_checking (blk : element_block)
  : nat -> M (element blk) unit :=
  demo_type_and_range_checking (extract_alpha blk) (element_type_message blk)
    (element_out_of_range blk) (element_range_message blk)
    [Text "Enter an element ("; Text (ELEMENT_NAME blk); Text ") between ";
     Val (ELEMENT_LOW blk); Text " and "; Val (ELEMENT_HIGH blk); Text ": "].

(** The four readers that the program has with the blocks above, by target:
    [read_int], [read_float], and [read_element] with [element] an [int] or a
    [bool]; and for each the extraction, the messages and the range test of
    its demos. *)
Inductive target : Type :=
| OnInt
| OnFloat
| OnIntElement
| OnBoolElement.

Definition target_type (k : target) : Type :=
  match k with
  | OnInt => Z
  | OnFloat => spec_float
  | OnIntElement => element int_block
  | OnBoolElement => element bool_block
  end.

Definition extraction (k : target) : istream -> istream * option (target_type k) :=
  match k with
  | OnInt => extract_int
  | OnFloat => extract_float
  | OnIntElement => extract_alpha int_block
  | OnBoolElement => extract_alpha bool_block
  end.

Definition type_message_of (k : target) : list (item (target_type k)) :=
  match k with
  | OnInt => int_type_message
  | OnFloat => float_type_message
  | OnIntElement => element_type_message int_block
  | OnBoolElement => element_type_message bool_block
  end.

Definition range_test (k : target) : target_type k -> bool :=
  match k with
  | OnInt => int_out_of_range 6 37
  | OnFloat => float_out_of_range FLOAT_LOW FLOAT_HIGH
  | OnIntElement => element_out_of_range int_block
  | OnBoolElement => element_out_of_range bool_block
  end.

Definition range_message_of (k : target) : list (item (target_type k)) :=
  match k with
  | OnInt => int_range_message
  | OnFloat => float_range_message
  | OnIntElement => element_range_message int_block
  | OnBoolElement => element_range_message bool_block
  end.

Definition reader (k : target) : nat -> M (target_type k) (target_type k) :=
  read (extraction k) (type_message_of k).

Definition range_reader (k : target)
  : nat -> M (target_type k) (target_type k) :=
  read_in_range (extraction k) (type_message_of k) (range_test k)
    (range_message_of k).

(** ** Sessions: what the user types *)

(** A session is a list of lines, each ended by the enter key. *)
Fixpoint lines (ts : list (list ascii)) : list ascii :=
  match ts with
  | [] => []
  | t :: ts' => t ++ newline :: lines ts'
  end.

Definition line (s : string) : list ascii := list_ascii_of_string s.

(** The world at the start of a session. *)
Definition session (T : Type) (text : list ascii) : world T :=
  mkWorld (typed text) [].

Definition is_out {T : Type} (c : call T) : bool :=
  match c with COut _ => true | _ => false end.

Definition is_compare {T : Type} (c : call T) : bool :=
  match c with CCompare _ => true | _ => false end.

(** The number of output statements in a history.  A reader has one output
    statement, the retry prompt of its loop. *)
Definition prompts {T : Type} (h : list (call T)) : nat :=
  List.length (filter is_out h).

(** A line holds a character that is not whitespace. *)
Definition nonblank (t : list ascii) : bool := negb (is_nil (skipws t)).

Definition all_space (t : list ascii) : bool := forallb is_space t.

Definition no_newline (t : list ascii) : bool :=
  forallb (fun c => negb (Ascii.eqb c newline)) t.

(** A line typed on its own is well formed for an extraction when the
    extraction of it succeeds, and malformed when it fails. *)
Definition well_formed {T : Type} (get : istream -> istream * option T)
    (t : list ascii) : bool :=
  nonblank t && no_newline t && good (fst (get (typed (t ++ [newline])))).

Definition malformed {T : Type} (get : istream -> istream * option T)
    (t : list ascii) : bool :=
  nonblank t && no_newline t
  && negb (good (fst (get (typed (t ++ [newline]))))).

(** The value of a well-formed line. *)
Definition value_of {T : Type} (get : istream -> istream * option T)
    (t : list ascii) : option T :=
  snd (get (typed (t ++ [newline]))).

(** What a well-formed line leaves unread. *)
Definition left_of {T : Type} (get : istream -> istream * option T)
    (t : list ascii) : list ascii :=
  buf (fst (get (typed (t ++ [newline])))).

(** ** Shapes of histories *)

Section Shapes.

Variable T : Type.
Variable get : istream -> istream * option T.
Variable type_message : list (item T).

(** An extraction into [userval] followed by the loop of the reader: what
    [read] is at the start, and what every iteration of the loop ends with. *)
Definition attempt (fuel : nat) (userval : option T) : M T T :=
  stored <- cin_extract get ;;
  read_loop get type_message fuel (assign userval stored).

(** The calls of a run of failed extractions: each is followed by the reset
    of the state flags, the discarding of buffered input and the retry
    prompt.  [sts] lists what the failed extractions stored. *)
Fixpoint failed_run (sts : list (option T)) : list (call T) :=
  match sts with
  | [] => []
  | st :: sts' =>
      CExtract st false :: CClear :: CIgnore 80 newline
        :: COut type_message :: failed_run sts'
  end.

(** The world a run stopped in, whatever the outcome. *)
Definition world_of {A : Type} (r : result T A) : world T :=
  match r with
  | Done _ w => w
  | Timeout _ w => w
  | Undefined _ w => w
  end.

Definition is_undefined {A : Type} (r : result T A) : bool :=
  match r with Undefined _ _ => true | _ => false end.

(** Every evaluation of the range test in a history is on the value that the
    call just before it, a successful extraction, stored. *)
Definition guarded (h : list (call T)) : Prop :=
  forall pre v post,
    h = pre ++ CCompare v :: post ->
    exists pre', pre = pre' ++ [CExtract (Some v) true].

(** The state in which the range test is evaluated on [v]: the stream is
    good, the last call was the successful extraction of [v], and [v] is
    what that extraction stored. *)
Definition validated (v : T) (w : world T) : Prop :=
  good (cin w) = true /\
  (exists h, history w = h ++ [CExtract (Some v) true]) /\
  (exists s, fst (get s) = cin w /\ snd (get s) = Some v).

(** What [cin.ignore(80, '\n')] may discard from a buffer [b] leaving [b']:
    at most 80 characters, with no newline except as the last of them, and
    fewer than 80 only when a newline was discarded or the input ended. *)
Definition discards (b b' : list ascii) : Prop :=
  exists d,
    b = d ++ b' /\
    (List.length d <= 80)%nat /\
    no_newline (removelast d) = true /\
    ((List.length d < 80)%nat ->
       b' = [] \/ exists d', d = d' ++ [newline]).

End Shapes.

(** ** The rest of the program: the demos by target, [instruct] and [main] *)

(** The type-checking demo and the type-and-range-checking demo of each
    target. *)
Definition type_demo (k : target) : nat -> M (target_type k) unit :=
  match k with
  | OnInt => demo_int_type_checking
  | OnFloat => demo_float_type_checking
  | OnIntElement => demo_element_type_checking int_block
  | OnBoolElement => demo_element_type_checking bool_block
  end.

Definition range_demo (k : target) : nat -> M (target_type k) unit :=
  match k with
  | OnInt => demo_int_type_and_range_checking
  | OnFloat => demo_float_type_and_range_checking
  | OnIntElement => demo_element_type_and_range_checking int_block
  | OnBoolElement => demo_element_type_and_range_checking bool_block
  end.

(** [instruct]: one output statement. *)
Definition instructions {T : Type} : list (item T) :=
  [Endl; Text "Demonstration of repetition type-checking"; Endl;
   Text "data validation and repetition range checking"; Endl;
   Text "data validation."; Endl; Endl;
   Text "For the prompts that follow, try typing inputs"; Endl;
   Text "outside of the given range, or even using a"; Endl;
   Text "wrong data type."; Endl; Endl].

Definition instruct {T : Type} : M T unit := cout_put instructions.

(** [main] runs demos of three target types on the one [cin] and the one
    [cout]: in its history a value carries its type. *)
Inductive value (blk : element_block) : Type :=
| VInt (z : Z)
| VFloat (f : spec_float)
| VElement (e : element blk).

Definition map_item {T U : Type} (f : T -> U) (i : item T) : item U :=
  match i with
  | Text s => Text s
  | Val v => Val (f v)
  | Endl => Endl
  end.

Definition map_call {T U : Type} (f : T -> U) (c : call T) : call U :=
  match c with
  | CExtract stored ok => CExtract (option_map f stored) ok
  | CClear => CClear
  | CIgnore n delim => CIgnore n delim
  | COut items => COut (map (map_item f) items)
  | CCompare v => CCompare (f v)
  end.

(** A call of a function on values of type [T] from a function whose history
    holds values of type [U]: the callee works on the caller's stream, and
    the calls it makes are added to the caller's history. *)
Definition call_on {T U A : Type} (f : T -> U) (m : M T A) : M U A :=
  fun w =>
    let after (w' : world T) : world U :=
      mkWorld (cin w') (history w ++ map (map_call f) (history w')) in
    match m (mkWorld (cin w) []) with
    | Done a w' => Done a (after w')
    | Timeout _ w' => Timeout A (after w')
    | Undefined _ w' => Undefined A (after w')
    end.

(** [main], for the block of [element] that is in force. *)
Definition main (blk : element_block) (fuel : nat) : M (value blk) unit :=
  instruct ;;
  call_on (@VInt blk) (demo_int_type_checking fuel) ;;
  call_on (@VFloat blk) (demo_float_type_checking fuel) ;;
  call_on (@VElement blk) (demo_element_type_checking blk fuel) ;;
  call_on (@VInt blk) (demo_int_type_and_range_checking fuel) ;;
  call_on (@VFloat blk) (demo_float_type_and_range_checking fuel) ;;
  call_on (@VElement blk) (demo_element_type_and_range_checking blk fuel).

(** ** What a history shows *)

(** The number of evaluations of the range test. *)
Definition compares {T : Type} (h : list (call T)) : nat :=
  List.length (filter is_compare h).

(** The values displayed: the output statement of a text, a value and two
    ends of line is the display statement of a demo, and no other statement
    of the program has that form. *)
Definition entered_by {T : Type} (c : call T) : list T :=
  match c with
  | COut [Text _; Val v; Endl; Endl] => [v]
  | _ => []
  end.

Definition entered {T : Type} (h : list (call T)) : list T :=
  flat_map entered_by h.

(** ** Lines of a session with range checking *)

(** A line whose value is within the bounds; a line that its value takes
    whole and whose value is out of the bounds; a line that a range-checked
    reader rejects with one message: malformed and of at most 80 characters,
    or out of range. *)
Definition in_range_line {T : Type} (get : istream -> istream * option T)
    (out_of_range : T -> bool) (t : list ascii) : bool :=
  well_formed get t
  && match value_of get t with
     | Some v => negb (out_of_range v)
     | None => false
     end.

Definition out_of_range_line {T : Type} (get : istream -> istream * option T)
    (out_of_range : T -> bool) (t : list ascii) : bool :=
  well_formed get t && all_space (left_of get t)
  && match value_of get t with
     | Some v => out_of_range v
     | None => false
     end.

Definition rejected_line {T : Type} (get : istream -> istream * option T)
    (out_of_range : T -> bool) (t : list ascii) : bool :=
  (malformed get t && Nat.leb (List.length t) 80)
  || out_of_range_line get out_of_range t.




(** ** Recovery from errors *)

(** The calls of the rounds of a range-checked reader that ended on a value
    out of range.  A round is the failed extractions of the reader, each with
    its reset, discard and message, then the extraction that stored the
    value, the range test on it, and the message of the demo; [rs] lists for
    each round what the failed extractions stored, and the value. *)
Fixpoint rejected_rounds {T : Type} (type_message range_message : list (item T))
    (rs : list (list (option T) * T)) : list (call T) :=
  match rs with
  | [] => []
  | (sts, v) :: rs' =>
      failed_run type_message sts
        ++ [CExtract (Some v) true; CCompare v; COut range_message]
        ++ rejected_rounds type_message range_message rs'
  end.

(** A run [r] of a reader, started with the history [h], recovers from its
    errors: every failed extraction but the last call is followed by reset,
    discard, message and a new extraction.  If the run returned, the last
    extraction stored the value returned; if it did not, the iterations
    allowed were used up on a failed extraction.  No run ends otherwise. *)
Definition reader_recovers {T : Type} (type_message : list (item T))
    (h : list (call T)) (r : result T T) : Prop :=
  exists sts,
    match r with
    | Done v w' =>
        history w' = h ++ failed_run type_message sts ++ [CExtract (Some v) true]
    | Timeout _ w' =>
        exists st,
          history w' = h ++ failed_run type_message sts ++ [CExtract st false]
    | Undefined _ _ => False
    end.

(** The same for a range-checked reader: the rounds that ended on a value
    out of range are each followed by the message of the demo and a new
    round.  If the run returned, the last round ends with the range test
    that the value returned passes; if it did not, the iterations allowed
    were used up on a failed extraction or on a value out of range. *)
Definition range_reader_recovers {T : Type} (type_message : list (item T))
    (out_of_range : T -> bool) (range_message : list (item T))
    (h : list (call T)) (r : result T T) : Prop :=
  exists rs sts,
    Forall (fun round => out_of_range (snd round) = true) rs /\
    match r with
    | Done v w' =>
        out_of_range v = false /\
        history w'
        = h ++ rejected_rounds type_message range_message rs
            ++ failed_run type_message sts ++ [CExtract (Some v) true; CCompare v]
    | Timeout _ w' =>
        (exists st,
            history w'
            = h ++ rejected_rounds type_message range_message rs
                ++ failed_run type_message sts ++ [CExtract st false]) \/
        (exists v,
            out_of_range v = true /\
            history w'
            = h ++ rejected_rounds type_message range_message rs
                ++ failed_run type_message sts
                ++ [CExtract (Some v) true; CCompare v])
    | Undefined _ _ => False
    end.

(** ** The transcript of a history *)

Definition output_of {T : Type} (c : call T) : list (list (item T)) :=
  match c with
  | COut items => [items]
  | _ => []
  end.

(** The output statements of a history, in the order they were executed. *)
Definition outputs {T : Type} (h : list (call T)) : list (list (item T)) :=
  flat_map output_of h.

(** The display statement of the demos. *)
Definition display {T : Type} (userval : T) : list (item T) :=
  [Text "You entered "; Val userval; Endl; Endl].

(** The prompts of the demos, by target. *)
Definition type_prompt_of (k : target) : list (item (target_type k)) :=
  match k with
  | OnInt => [Text "Enter a whole number: "]
  | OnFloat => [Text "Enter a fractional number: "]
  | OnIntElement =>
      [Text "Enter an element ("; Text (ELEMENT_NAME int_block); Text "): "]
  | OnBoolElement =>
      [Text "Enter an element ("; Text (ELEMENT_NAME bool_block); Text "): "]
  end.

Definition range_prompt_of (k : target) : list (item (target_type k)) :=
  match k with
  | OnInt => [Text "Enter a whole number between 6 and 37: "]
  | OnFloat => [Text "Enter a factional number between 5.5 and 42.8: "]
  | OnIntElement =>
      [Text "Enter an element ("; Text (ELEMENT_NAME int_block);
       Text ") between "; Val (ELEMENT_LOW int_block); Text " and ";
       Val (ELEMENT_HIGH int_block); Text ": "]
  | OnBoolElement =>
      [Text "Enter an element ("; Text (ELEMENT_NAME bool_block);
       Text ") between "; Val (ELEMENT_LOW bool_block); Text " and ";
       Val (ELEMENT_HIGH bool_block); Text ": "]
  end.

(** The message with which a rejected line is answered: the message of the
    reader for a malformed line, the message of the demo for a line out of
    range. *)
Definition message_for {T : Type} (get : istream -> istream * option T)
    (type_message range_message : list (item T)) (l : list ascii)
  : list (item T) :=
  if malformed get l then type_message else range_message.

(** What a type-checking demo prints on an answer of malformed lines [ts] and
    a line of value [v], and what a type-and-range-checking demo prints on an
    answer of rejected lines [ls] and a line of value [v]. *)
Definition type_demo_transcript (k : target) (ts : list (list ascii))
    (v : target_type k) : list (list (item (target_type k))) :=
  type_prompt_of k :: repeat (type_message_of k) (List.length ts)
    ++ [display v].

Definition range_demo_transcript (k : target) (ls : list (list ascii))
    (v : target_type k) : list (list (item (target_type k))) :=
  range_prompt_of k
    :: map (message_for (extraction k) (type_message_of k) (range_message_of k))
         ls
    ++ [display v].


(** ** Decimal numerals *)

Inductive sign : Type :=
| NoSign
| Plus
| Minus.

(** The characters of a numeral with digits [ds], and the number it
    denotes. *)
Definition numeral (sg : sign) (ds : list ascii) : list ascii :=
  match sg with
  | NoSign => ds
  | Plus => "+"%char :: ds
  | Minus => "-"%char :: ds
  end.

Definition numeral_value (sg : sign) (ds : list ascii) : Z :=
  match sg with
  | Minus => (- digits_val ds)%Z
  | _ => digits_val ds
  end.

Definition fits_int (z : Z) : bool := (INT_MIN <=? z)%Z && (z <=? INT_MAX)%Z.

(** A [float] that is a number: a zero or a finite value. *)
Definition is_finite (f : spec_float) : bool :=
  match f with
  | S754_zero _ | S754_finite _ _ _ => true
  | _ => false
  end.

(** ** Streams that differ in the format flag only *)

Definition same_input (s s' : istream) : Prop :=
  buf s = buf s' /\ eofbit s = eofbit s' /\ failbit s = failbit s'.

(** Two runs that end in the same way, on streams that hold the same input,
    after as many output statements. *)
Definition same_run {T A : Type} (r r' : result T A) : Prop :=
  match r, r' with
  | Done v w, Done v' w' =>
      v = v' /\ same_input (cin w) (cin w')
      /\ prompts (history w) = prompts (history w')
  | Timeout _ w, Timeout _ w' =>
      same_input (cin w) (cin w')
      /\ prompts (history w) = prompts (history w')
  | _, _ => False
  end.

(** * Properties *)

(** ** The stream operations *)

Lemma good_clear (s : istream) : good (clear s) = true.
Proof. reflexivity. Qed.

Lemma good_setfail (s : istream) : good (setfail s) = false.
Proof. unfold good, setfail; simpl. apply andb_false_r. Qed.

Lemma ignore_buf_discards (n : nat) (b : list ascii) :
  exists d,
    b = d ++ fst (ignore_buf n newline b) /\
    (List.length d <= n)%nat /\
    no_newline (removelast d) = true /\
    ((List.length d < n)%nat ->
       (fst (ignore_buf n newline b) = [] /\ snd (ignore_buf n newline b) = true)
       \/ exists d', d = d' ++ [newline]).
Proof.
  revert b; induction n as [|n IH]; intros b.
  - exists []. simpl. repeat split; auto; lia.
  - destruct b as [|c b].
    + exists []. simpl. repeat split; auto; lia.
    + simpl. destruct (Ascii.eqb c newline) eqn:E.
      * apply Ascii.eqb_eq in E. subst c. exists [newline]. simpl.
        repeat split; auto; try lia. intros _. right. now exists [].
      * destruct (IH b) as (d & Hb & Hl & Hn & Hs).
        exists (c :: d). simpl. repeat split.
        -- now rewrite Hb at 1.
        -- lia.
        -- destruct d as [|c' d]; [reflexivity|].
           change (no_newline (c :: removelast (c' :: d)) = true).
           unfold no_newline in *. simpl. rewrite E. simpl. exact Hn.
        -- intros Hlt. destruct Hs as [Hs | (d' & Hd)]; [lia | now left |].
           right. exists (c :: d'). now rewrite Hd.
Qed.

Lemma ignore_discards (s : istream) :
  good s = true ->
  discards (buf s) (buf (ignore 80 newline s)) /\
  failbit (ignore 80 newline s) = false /\
  boolalpha (ignore 80 newline s) = boolalpha s.
Proof.
  intros G. unfold ignore. rewrite G.
  destruct (ignore_buf_discards 80 (buf s)) as (d & Hb & Hl & Hn & Hs).
  destruct (ignore_buf 80 newline (buf s)) as [b' eof] eqn:E. simpl in *.
  repeat split; auto.
  exists d. repeat split; auto.
  intros Hlt. destruct (Hs Hlt) as [[H _] | H]; auto.
Qed.

(** ** The monad *)

Section ReaderFacts.

Variable T : Type.
Variable get : istream -> istream * option T.
Variable type_message : list (item T).

(** An extraction that leaves the stream good has stored a value. *)
Hypothesis get_stores :
  forall s, good (fst (get s)) = true -> exists v, snd (get s) = Some v.

#[local] Abbreviation attempt' := (attempt get type_message).
#[local] Abbreviation read_loop' := (read_loop get type_message).
#[local] Abbreviation read' := (read get type_message).
#[local] Abbreviation failed_run' := (failed_run type_message).

Lemma read_is_attempt (fuel : nat) (w : world T) :
  read' fuel w = attempt' fuel None w.
Proof. reflexivity. Qed.

Lemma read_loop_good (fuel : nat) (v : T) (w : world T) :
  good (cin w) = true -> read_loop' fuel (Some v) w = Done v w.
Proof.
  intros G. destruct fuel; simpl; unfold bind, cin_good; rewrite G; reflexivity.
Qed.

Lemma read_loop_stop (u : option T) (w : world T) :
  good (cin w) = false -> read_loop' 0 u w = Timeout T w.
Proof.
  intros G. simpl. unfold bind, cin_good. rewrite G. reflexivity.
Qed.

(** One iteration of the loop: reset, discard, prompt, then a new attempt. *)
Lemma read_loop_retry (fuel : nat) (u : option T) (w : world T) :
  good (cin w) = false ->
  read_loop' (S fuel) u w =
  attempt' fuel u
    (mkWorld (ignore 80 newline (clear (cin w)))
             (history w ++ [CClear; CIgnore 80 newline; COut type_message])).
Proof.
  intros G. simpl. unfold bind at 1. unfold cin_good. rewrite G.
  unfold bind, cin_clear, cin_ignore, cout_put, attempt, cin_extract,
    record_call; simpl.
  rewrite <- !app_assoc. reflexivity.
Qed.

Lemma attempt_unfold (fuel : nat) (u : option T) (w : world T) :
  attempt' fuel u w =
  read_loop' fuel (assign u (snd (get (cin w))))
    (mkWorld (fst (get (cin w)))
       (history w
        ++ [CExtract (snd (get (cin w))) (good (fst (get (cin w))))])).
Proof.
  unfold attempt, bind, cin_extract, record_call.
  destruct (get (cin w)) as [s st]. reflexivity.
Qed.

(** The outcome of an attempt: it returns the value stored by a successful
    extraction that follows a run of failed ones, or it uses up the
    iterations with failed extractions only. *)
Lemma attempt_outcome (fuel : nat) :
  forall (u : option T) (w : world T),
    (exists v w' sts,
        attempt' fuel u w = Done v w' /\
        history w' = history w ++ failed_run' sts ++ [CExtract (Some v) true] /\
        good (cin w') = true /\ (List.length sts <= fuel)%nat /\
        exists s, fst (get s) = cin w' /\ snd (get s) = Some v)
    \/
    (exists w' sts st,
        attempt' fuel u w = Timeout T w' /\
        history w' = history w ++ failed_run' sts ++ [CExtract st false] /\
        good (cin w') = false /\ List.length sts = fuel).
Proof.
  induction fuel as [|fuel IH]; intros u w; rewrite attempt_unfold;
    destruct (good (fst (get (cin w)))) eqn:G.
  - destruct (get_stores _ G) as [v Hv]. rewrite Hv. simpl assign.
    left. exists v, (mkWorld (fst (get (cin w)))
                       (history w ++ [CExtract (Some v) true])), [].
    rewrite read_loop_good by exact G. simpl. repeat split; eauto.
  - right. eexists _, [], _. rewrite read_loop_stop by exact G.
    simpl. repeat split; eauto.
  - destruct (get_stores _ G) as [v Hv]. rewrite Hv. simpl assign.
    left. exists v, (mkWorld (fst (get (cin w)))
                       (history w ++ [CExtract (Some v) true])), [].
    rewrite read_loop_good by exact G. simpl. repeat split; eauto. lia.
  - rewrite read_loop_retry by exact G. simpl cin. simpl history.
    set (st := snd (get (cin w))).
    destruct (IH (assign u st)
                (mkWorld (ignore 80 newline (clear (fst (get (cin w)))))
                   ((history w ++ [CExtract st false])
                    ++ [CClear; CIgnore 80 newline; COut type_message])))
      as [(v & w' & sts & E & H & G' & L & V) | (w' & sts & st' & E & H & G' & L)].
    + left. exists v, w', (st :: sts). rewrite E. repeat split; auto.
      * rewrite H. simpl. rewrite <- !app_assoc. reflexivity.
      * simpl. lia.
    + right. exists w', (st :: sts), st'. rewrite E. repeat split; auto.
      * rewrite H. simpl. rewrite <- !app_assoc. reflexivity.
      * simpl. lia.
Qed.

(** A read never ends on a variable that was not assigned. *)
Lemma attempt_defined (fuel : nat) (u : option T) (w : world T) :
  is_undefined (attempt' fuel u w) = false.
Proof.
  destruct (attempt_outcome fuel u w)
    as [(v & w' & sts & E & _) | (w' & sts & st' & E & _)];
    rewrite E; reflexivity.
Qed.

(** *** Histories in which the range test is guarded *)

Lemma guarded_nil : guarded (@nil (call T)).
Proof. intros pre v post H. destruct pre; discriminate. Qed.

Lemma guarded_snoc (h : list (call T)) (c : call T) :
  guarded h ->
  (forall v, c = CCompare v -> exists h', h = h' ++ [CExtract (Some v) true]) ->
  guarded (h ++ [c]).
Proof.
  intros Gh Hc pre v post E.
  destruct (@exists_last _ (CCompare v :: post)) as (l & x & El);
    [discriminate|].
  rewrite El, app_assoc in E. apply app_inj_tail in E. destruct E as [E1 E2].
  subst x. destruct post as [|p post].
  - destruct l; [|destruct l; discriminate]. injection El as El.
    rewrite app_nil_r in E1. subst pre. apply Hc. congruence.
  - destruct l as [|y l]; [discriminate|].
    injection El as Ey El. subst y.
    apply (Gh pre v l). exact E1.
Qed.

Lemma guarded_app (h l : list (call T)) :
  guarded h -> forallb (fun c => negb (is_compare c)) l = true ->
  guarded (h ++ l).
Proof.
  revert h; induction l as [|c l IH]; intros h Gh Hl.
  - now rewrite app_nil_r.
  - simpl in Hl. apply andb_true_iff in Hl. destruct Hl as [Hc Hl].
    change (c :: l) with ([c] ++ l). rewrite app_assoc. apply IH; auto.
    apply guarded_snoc; auto. intros v E. subst c. discriminate.
Qed.

Lemma failed_run_no_compare (sts : list (option T)) (c : call T) :
  forallb (fun c => negb (is_compare c)) (failed_run' sts ++ [c])
  = negb (is_compare c).
Proof.
  induction sts as [|st sts IH]; simpl.
  - apply andb_true_r.
  - exact IH.
Qed.

(** *** The range loop *)

Variable out_of_range : T -> bool.
Variable range_message : list (item T).

#[local] Abbreviation range_loop' := (range_loop get type_message out_of_range range_message).
#[local] Abbreviation read_in_range' := (read_in_range get type_message out_of_range range_message).

Lemma range_loop_accept (rfuel fuel : nat) (v : T) (w : world T) :
  out_of_range v = false ->
  range_loop' rfuel fuel v w = Done v (mkWorld (cin w) (history w ++ [CCompare v])).
Proof.
  intros H. destruct fuel; simpl; unfold bind, compare; rewrite H; reflexivity.
Qed.

Lemma range_loop_stop (rfuel : nat) (v : T) (w : world T) :
  out_of_range v = true ->
  range_loop' rfuel 0 v w
  = Timeout T (mkWorld (cin w) (history w ++ [CCompare v])).
Proof. intros H. simpl; unfold bind, compare; rewrite H; reflexivity. Qed.

Lemma range_loop_reject (rfuel fuel : nat) (v : T) (w : world T) :
  out_of_range v = true ->
  range_loop' rfuel (S fuel) v w =
  (v' <- read' rfuel ;; range_loop' rfuel fuel v')
    (mkWorld (cin w) (history w ++ [CCompare v; COut range_message])).
Proof.
  intros H. simpl. unfold bind at 1. unfold compare. rewrite H.
  unfold bind at 1. unfold cout_put, record_call. simpl.
  rewrite <- app_assoc. reflexivity.
Qed.

Lemma read_outcome (fuel : nat) (w : world T) :
  (guarded (history w) -> guarded (history (world_of (read' fuel w)))) /\
  is_undefined (read' fuel w) = false /\
  forall v w', read' fuel w = Done v w' -> validated get v w'.
Proof.
  rewrite read_is_attempt.
  destruct (attempt_outcome fuel None w)
    as [(v & w' & sts & E & H & G' & L & V) | (w' & sts & st' & E & H & G' & L)];
    rewrite E; simpl; (split; [|split; [reflexivity|]]).
  - intros Gw. rewrite H. apply guarded_app; auto. apply failed_run_no_compare.
  - intros v0 w0 E0. injection E0 as <- <-. split; [|split]; auto.
    exists (history w ++ failed_run' sts). rewrite H.
    now rewrite app_assoc.
  - intros Gw. rewrite H. apply guarded_app; auto. apply failed_run_no_compare.
  - discriminate.
Qed.

Lemma range_loop_outcome (rfuel fuel : nat) :
  forall (v : T) (w : world T),
    validated get v w ->
    (guarded (history w) ->
     guarded (history (world_of (range_loop' rfuel fuel v w)))) /\
    is_undefined (range_loop' rfuel fuel v w) = false /\
    forall v' w', range_loop' rfuel fuel v w = Done v' w' ->
                  out_of_range v' = false /\ good (cin w') = true /\
                  exists s, fst (get s) = cin w' /\ snd (get s) = Some v'.
Proof.
  induction fuel as [|fuel IH]; intros v w (G & Hh & Hv);
    destruct (out_of_range v) eqn:O.
  - rewrite range_loop_stop by exact O. simpl.
    split; [|split; [reflexivity | discriminate]].
    intros Gh. apply guarded_snoc; auto.
    intros v0 E0. injection E0 as <-. exact Hh.
  - rewrite range_loop_accept by exact O. simpl.
    split; [|split; [reflexivity|]].
    + intros Gh. apply guarded_snoc; auto.
      intros v0 E0. injection E0 as <-. exact Hh.
    + intros v' w' H. injection H as <- <-. auto.
  - rewrite range_loop_reject by exact O.
    set (w1 := mkWorld (cin w) (history w ++ [CCompare v; COut range_message])).
    assert (G1 : guarded (history w) -> guarded (history w1)).
    { intros Gh. unfold w1; simpl. change [CCompare v; COut range_message]
        with ([CCompare v] ++ [COut range_message]).
      rewrite app_assoc. apply guarded_app; [|reflexivity].
      apply guarded_snoc; auto. intros v0 E0. injection E0 as <-. exact Hh. }
    destruct (read_outcome rfuel w1) as (R1 & R2 & R3).
    unfold bind. destruct (read' rfuel w1) as [v1 w2 | w2 | w2] eqn:E.
    + destruct (IH v1 w2 (R3 _ _ eq_refl)) as (I1 & I2 & I3).
      split; [|split]; auto.
    + simpl. simpl in R1. split; [|split]; auto; discriminate.
    + discriminate.
  - rewrite range_loop_accept by exact O. simpl.
    split; [|split; [reflexivity|]].
    + intros Gh. apply guarded_snoc; auto.
      intros v0 E0. injection E0 as <-. exact Hh.
    + intros v' w' H. injection H as <- <-. auto.
Qed.

Lemma read_in_range_outcome (fuel : nat) (w : world T) :
  (guarded (history w) ->
   guarded (history (world_of (read_in_range' fuel w)))) /\
  is_undefined (read_in_range' fuel w) = false /\
  forall v' w', read_in_range' fuel w = Done v' w' ->
                out_of_range v' = false /\ good (cin w') = true /\
                exists s, fst (get s) = cin w' /\ snd (get s) = Some v'.
Proof.
  unfold read_in_range, bind.
  destruct (read_outcome fuel w) as (R1 & R2 & R3).
  destruct (read' fuel w) as [v1 w2 | w2 | w2] eqn:E.
  - destruct (range_loop_outcome fuel fuel (R3 _ _ eq_refl)) as (I1 & I2 & I3).
    split; [|split]; auto.
  - simpl in *. split; [|split]; auto; discriminate.
  - discriminate.
Qed.

(** More iterations allowed do not change a run that returned. *)
Lemma attempt_mono (fuel : nat) :
  forall (fuel' : nat) (u : option T) (w : world T) (v : T) (w' : world T),
    (fuel <= fuel')%nat ->
    attempt' fuel u w = Done v w' -> attempt' fuel' u w = Done v w'.
Proof.
  induction fuel as [|fuel IH]; intros fuel' u w v w' Hf;
    rewrite !attempt_unfold; destruct (good (fst (get (cin w)))) eqn:G.
  - destruct (get_stores _ G) as [v0 Hv]. rewrite Hv. simpl assign.
    now rewrite !read_loop_good by exact G.
  - rewrite read_loop_stop by exact G. discriminate.
  - destruct (get_stores _ G) as [v0 Hv]. rewrite Hv. simpl assign.
    now rewrite !read_loop_good by exact G.
  - destruct fuel' as [|fuel']; [lia|].
    rewrite !read_loop_retry by exact G. apply IH. lia.
Qed.

Lemma range_loop_defined (rfuel fuel : nat) :
  forall (v : T) (w : world T),
    is_undefined (range_loop' rfuel fuel v w) = false.
Proof.
  induction fuel as [|fuel IH]; intros v w; destruct (out_of_range v) eqn:O.
  - now rewrite range_loop_stop.
  - now rewrite range_loop_accept.
  - rewrite range_loop_reject by exact O. unfold bind.
    match goal with
    | |- context [read' rfuel ?w1] =>
        pose proof (attempt_defined rfuel None w1) as Hd;
        rewrite <- read_is_attempt in Hd;
        destruct (read' rfuel w1) as [v1 w2 | w2 | w2]
    end; auto.
  - now rewrite range_loop_accept.
Qed.

Lemma read_in_range_defined (fuel : nat) (w : world T) :
  is_undefined (read_in_range' fuel w) = false.
Proof.
  unfold read_in_range, bind.
  pose proof (attempt_defined fuel None w) as Hd.
  rewrite <- read_is_attempt in Hd.
  destruct (read' fuel w) as [v1 w2 | w2 | w2]; auto.
  apply range_loop_defined.
Qed.

(** A read that returns: the stream is good, and the calls made are a run of
    failed extractions, each followed by reset, discard and prompt, and then
    the extraction that stored the value returned. *)
Lemma read_done_shape (fuel : nat) (w : world T) (v : T) (w' : world T) :
  read' fuel w = Done v w' ->
  good (cin w') = true /\
  (exists sts,
      history w' = history w ++ failed_run' sts ++ [CExtract (Some v) true]) /\
  (exists s, fst (get s) = cin w' /\ snd (get s) = Some v).
Proof.
  rewrite read_is_attempt. intros E.
  destruct (attempt_outcome fuel None w)
    as [(v1 & w1 & sts & E1 & H & G' & L & V) | (w1 & sts & st' & E1 & _)];
    rewrite E1 in E; [|discriminate].
  injection E as <- <-. eauto.
Qed.

(** Any run of a reader, returned or not: the calls made are failed
    extractions followed by their retries, and a last extraction. *)
Lemma read_shape (fuel : nat) (w : world T) :
  exists sts st ok,
    history (world_of (read' fuel w))
    = history w ++ failed_run' sts ++ [CExtract st ok].
Proof.
  rewrite read_is_attempt.
  destruct (attempt_outcome fuel None w)
    as [(v1 & w1 & sts & E1 & H & _) | (w1 & sts & st' & E1 & H & _)];
    rewrite E1; simpl; eauto.
Qed.

(** What one iteration of the loop does after a failed extraction. *)
Lemma retry_step (fuel : nat) (u : option T) (w : world T) :
  good (cin w) = false ->
  read_loop' (S fuel) u w =
  attempt' fuel u
    (mkWorld (ignore 80 newline (clear (cin w)))
             (history w ++ [CClear; CIgnore 80 newline; COut type_message]))
  /\ good (clear (cin w)) = true
  /\ discards (buf (cin w)) (buf (ignore 80 newline (clear (cin w)))).
Proof.
  intros G. split; [now apply read_loop_retry|]. split; [reflexivity|].
  apply (ignore_discards (clear (cin w))). reflexivity.
Qed.

(** A demo keeps the range test guarded. *)
Lemma demo_guarded (prompt : list (item T)) (fuel : nat) (w : world T) :
  guarded (history w) ->
  guarded (history (world_of
    (demo_type_and_range_checking get type_message out_of_range range_message
       prompt fuel w))).
Proof.
  intros Gw. unfold demo_type_and_range_checking, bind. unfold cout_put at 1.
  set (w1 := mkWorld (cin w) (record_call (COut prompt) w)).
  assert (G1 : guarded (history w1)) by (apply guarded_app; auto).
  destruct (read_in_range_outcome fuel w1) as (R1 & _ & _).
  specialize (R1 G1).
  destruct (read_in_range' fuel w1) as [v w2 | w2 | w2]; simpl in *; auto.
  apply guarded_app; auto.
Qed.

Lemma read_validated (fuel : nat) (w : world T) :
  is_undefined (read' fuel w) = false /\
  forall v w', read' fuel w = Done v w' ->
    good (cin w') = true /\
    exists s, fst (get s) = cin w' /\ snd (get s) = Some v.
Proof.
  split; [apply attempt_defined|]. intros v w' E.
  destruct (read_done_shape _ _ E) as (G & _ & V). auto.
Qed.

Lemma read_in_range_validated (fuel : nat) (w : world T) :
  is_undefined (read_in_range' fuel w) = false /\
  forall v w', read_in_range' fuel w = Done v w' ->
    good (cin w') = true /\ out_of_range v = false /\
    exists s, fst (get s) = cin w' /\ snd (get s) = Some v.
Proof.
  destruct (read_in_range_outcome fuel w) as (_ & U & R).
  split; [exact U|]. intros v w' E. destruct (R v w' E) as (O & G & V). auto.
Qed.

Lemma read_mono (fuel fuel' : nat) (w : world T) (v : T) (w' : world T) :
  (fuel <= fuel')%nat ->
  read' fuel w = Done v w' -> read' fuel' w = Done v w'.
Proof. rewrite !read_is_attempt. apply attempt_mono. Qed.

End ReaderFacts.

(** ** Formatted extraction *)

Lemma formatted_stores (T : Type)
    (scan : bool -> list ascii -> list ascii * bool * bool * T) (s : istream) :
  good (fst (formatted scan s)) = true ->
  exists v, snd (formatted scan s) = Some v.
Proof.
  unfold formatted. destruct (good s) eqn:G.
  - destruct (skipws (buf s)) as [|c b]; [discriminate|].
    destruct (scan (boolalpha s) (c :: b)) as [[[rest eof] fail] v].
    simpl. eauto.
  - simpl. rewrite good_setfail. discriminate.
Qed.

Lemma skipws_all_space (ws b : list ascii) :
  all_space ws = true -> skipws (ws ++ b) = skipws b.
Proof.
  induction ws as [|c ws IH]; simpl; auto.
  intros H. apply andb_true_iff in H. destruct H as [Hc H].
  rewrite Hc. auto.
Qed.

Lemma skipws_nonblank (t b : list ascii) :
  nonblank t = true -> skipws (t ++ b) = skipws t ++ b.
Proof.
  unfold nonblank. induction t as [|c t IH]; simpl; [discriminate|].
  destruct (is_space c); auto.
Qed.

Lemma skipws_suffix (t : list ascii) :
  (List.length (skipws t) <= List.length t)%nat /\
  (no_newline t = true -> no_newline (skipws t) = true).
Proof.
  induction t as [|c t [IH1 IH2]]; simpl; auto.
  destruct (is_space c); simpl; split; auto; try lia.
  intros H. apply andb_true_iff in H. destruct H as [_ H]. auto.
Qed.

Lemma skipws_nil_iff (b : list ascii) :
  skipws b = [] <-> all_space b = true.
Proof.
  induction b as [|c b IH]; simpl; [tauto|].
  destruct (is_space c); simpl; [exact IH|]. split; discriminate.
Qed.

Lemma no_newline_cons (c : ascii) (u : list ascii) :
  no_newline (c :: u) = true ->
  Ascii.eqb c newline = false /\ no_newline u = true.
Proof.
  unfold no_newline; simpl. intros H. apply andb_true_iff in H.
  destruct H as [H1 H2]. apply negb_true_iff in H1. auto.
Qed.

(** [cin.ignore(80, '\n')] on the rest of a line. *)
Lemma ignore_buf_line (n : nat) :
  forall (r rest : list ascii),
    no_newline r = true -> (List.length r <= n)%nat ->
    ignore_buf n newline (r ++ newline :: rest)
    = ((if Nat.ltb (List.length r) n then rest else newline :: rest), false).
Proof.
  induction n as [|n IH]; intros r rest Hn Hl.
  - destruct r; [reflexivity | simpl in Hl; lia].
  - destruct r as [|c r]; simpl.
    + reflexivity.
    + simpl in Hn. apply andb_true_iff in Hn. destruct Hn as [Hc Hn].
      apply negb_true_iff in Hc. rewrite Hc.
      rewrite IH by (auto; simpl in Hl; lia).
      change (Nat.ltb (S (List.length r)) (S n))
        with (Nat.ltb (List.length r) n). reflexivity.
Qed.

Lemma ignore_line (s : istream) (r rest : list ascii) :
  buf s = r ++ newline :: rest ->
  no_newline r = true -> (List.length r <= 80)%nat ->
  good (ignore 80 newline (clear s)) = true /\
  exists ws, all_space ws = true /\
             buf (ignore 80 newline (clear s)) = ws ++ rest.
Proof.
  intros Hb Hn Hl. unfold ignore. rewrite good_clear.
  change (buf (clear s)) with (buf s). rewrite Hb.
  rewrite ignore_buf_line by assumption. split; [reflexivity|].
  cbn [buf]. destruct (Nat.ltb (List.length r) 80).
  - exists []. split; reflexivity.
  - exists [newline]. split; reflexivity.
Qed.

(** ** Sessions of lines *)

Section Lines.

Variable T : Type.
Variable scan : bool -> list ascii -> list ascii * bool * bool * T.
(* what the statement does to the stream before the extraction: nothing, or
   the insertion of the boolalpha manipulator *)
Variable pre : istream -> istream.
Variable type_message : list (item T).

#[local] Abbreviation get := (fun s : istream => formatted scan (pre s)).

Hypothesis pre_buf : forall s, buf (pre s) = buf s.
Hypothesis pre_eof : forall s, eofbit (pre s) = eofbit s.
Hypothesis pre_fail : forall s, failbit (pre s) = failbit s.
Hypothesis pre_flag :
  forall s s' b, scan (boolalpha (pre s)) b = scan (boolalpha (pre s')) b.

(** The parser never reads past the end of the line it starts in. *)
Hypothesis scan_line :
  forall a u, no_newline u = true ->
    exists r fail v,
      (forall rest,
          scan a (u ++ newline :: rest) = (r ++ newline :: rest, false, fail, v))
      /\ (List.length r <= List.length u)%nat /\ no_newline r = true.

Lemma pre_good (s : istream) : good (pre s) = good s.
Proof. unfold good. now rewrite pre_eof, pre_fail. Qed.

Lemma get_stores_line (s : istream) :
  good (fst (get s)) = true -> exists v, snd (get s) = Some v.
Proof. apply formatted_stores. Qed.

(** An extraction at the start of a line [t], after whitespace [ws], does what
    it does on the line alone. *)
Lemma get_line (s : istream) (ws t rest : list ascii) :
  good s = true ->
  buf s = ws ++ t ++ newline :: rest ->
  all_space ws = true -> nonblank t = true -> no_newline t = true ->
  exists r,
    left_of get t = r ++ [newline] /\
    buf (fst (get s)) = r ++ newline :: rest /\
    (List.length r <= List.length t)%nat /\ no_newline r = true /\
    good (fst (get s)) = good (fst (get (typed (t ++ [newline])))) /\
    snd (get s) = value_of get t.
Proof.
  intros G Hb Hws Hnb Hnn.
  unfold left_of, value_of, formatted.
  rewrite !pre_good, !pre_buf, G, Hb. cbn [typed good buf eofbit failbit negb andb].
  rewrite (skipws_all_space ws _ Hws).
  rewrite !(skipws_nonblank t _ Hnb).
  destruct (skipws_suffix t) as [Hl Hn]. specialize (Hn Hnn).
  unfold nonblank in Hnb.
  destruct (skipws t) as [|c u] eqn:Eu; [discriminate|].
  destruct (scan_line (boolalpha (pre s)) (c :: u) Hn) as (r & fail & v & Hs & Hlr & Hnr).
  pose proof (Hs rest) as H1. pose proof (Hs []) as H2.
  cbn [app] in H1, H2 |- *.
  rewrite (pre_flag (typed (t ++ [newline])) s). rewrite H1, H2. simpl.
  exists r. repeat split; auto. simpl in Hlr. simpl in Hl. lia.
Qed.

Lemma prompts_app (h l : list (call T)) :
  prompts (h ++ l) = (prompts h + prompts l)%nat.
Proof. unfold prompts. now rewrite filter_app, length_app. Qed.

Lemma lines_cons (t : list ascii) (ts : list (list ascii)) (rest : list ascii) :
  lines (t :: ts) ++ rest = t ++ newline :: (lines ts ++ rest).
Proof. simpl. now rewrite <- app_assoc. Qed.

#[local] Abbreviation attempt' := (attempt get type_message).
#[local] Abbreviation read' := (read get type_message).

(** A well-formed line ends the attempt: its value is returned, nothing is
    printed, and what the extraction did not read stays in the buffer. *)
Lemma attempt_well_formed (fuel : nat) (u : option T) (w : world T)
    (ws t rest : list ascii) :
  good (cin w) = true ->
  buf (cin w) = ws ++ t ++ newline :: rest ->
  all_space ws = true -> well_formed get t = true ->
  exists v w',
    attempt' fuel u w = Done v w' /\
    value_of get t = Some v /\
    history w' = history w ++ [CExtract (Some v) true] /\
    buf (cin w') = left_of get t ++ rest /\
    good (cin w') = true.
Proof.
  intros G Hb Hws Hwf. unfold well_formed in Hwf.
  apply andb_true_iff in Hwf. destruct Hwf as [Hwf Hg].
  apply andb_true_iff in Hwf. destruct Hwf as [Hnb Hnn].
  destruct (get_line (cin w) ws t rest G Hb Hws Hnb Hnn)
    as (r & Hl & Hbuf & Hlen & Hnr & Hgood & Hval).
  rewrite Hg in Hgood.
  destruct (get_stores_line _ Hgood) as [v Hv].
  exists v. eexists. rewrite attempt_unfold. rewrite Hv. simpl assign.
  rewrite Hgood. rewrite read_loop_good by exact Hgood.
  split; [reflexivity|]. simpl. repeat split; auto.
  - now rewrite <- Hval.
  - rewrite Hbuf, Hl. now rewrite <- app_assoc.
Qed.

(** A malformed line of at most 80 characters costs one iteration: the line
    is discarded whole and one prompt is printed. *)
Lemma attempt_malformed (u : option T) (w : world T) (ws t rest : list ascii) :
  good (cin w) = true ->
  buf (cin w) = ws ++ t ++ newline :: rest ->
  all_space ws = true -> malformed get t = true ->
  (List.length t <= 80)%nat ->
  (exists w0, attempt' 0 u w = Timeout T w0 /\
              prompts (history w0) = prompts (history w)) /\
  exists u' w' ws',
    (forall fuel, attempt' (S fuel) u w = attempt' fuel u' w') /\
    good (cin w') = true /\
    buf (cin w') = ws' ++ rest /\ all_space ws' = true /\
    prompts (history w') = S (prompts (history w)).
Proof.
  intros G Hb Hws Hmf Hlen. unfold malformed in Hmf.
  apply andb_true_iff in Hmf. destruct Hmf as [Hmf Hg].
  apply andb_true_iff in Hmf. destruct Hmf as [Hnb Hnn].
  apply negb_true_iff in Hg.
  destruct (get_line (cin w) ws t rest G Hb Hws Hnb Hnn)
    as (r & Hl & Hbuf & Hlr & Hnr & Hgood & Hval).
  rewrite Hg in Hgood. split.
  - eexists. rewrite attempt_unfold. rewrite Hgood.
    rewrite read_loop_stop by exact Hgood. split; [reflexivity|].
    simpl. rewrite prompts_app. simpl. unfold prompts at 2. simpl. lia.
  - destruct (ignore_line (fst (get (cin w))) r rest Hbuf Hnr)
      as (Gi & ws' & Hws' & Hbi); [lia|].
    eexists _, _, ws'. split; [|split; [|split; [|split]]].
    + intros fuel. rewrite attempt_unfold. rewrite Hgood.
      rewrite read_loop_retry by exact Hgood. reflexivity.
    + exact Gi.
    + exact Hbi.
    + exact Hws'.
    + simpl. rewrite !prompts_app. unfold prompts at 2 3. simpl. lia.
Qed.

(** A run of malformed lines: one iteration and one prompt each. *)
Lemma attempt_skip (ts : list (list ascii)) :
  Forall (fun t => malformed get t = true /\ (List.length t <= 80)%nat) ts ->
  forall (fuel : nat) (u : option T) (w : world T) (ws rest : list ascii),
    good (cin w) = true ->
    buf (cin w) = ws ++ lines ts ++ rest ->
    all_space ws = true ->
    ((List.length ts <= fuel)%nat ->
     exists u' w' ws',
       attempt' fuel u w = attempt' (fuel - List.length ts) u' w' /\
       good (cin w') = true /\
       buf (cin w') = ws' ++ rest /\ all_space ws' = true /\
       prompts (history w') = (prompts (history w) + List.length ts)%nat) /\
    ((fuel < List.length ts)%nat ->
     exists w', attempt' fuel u w = Timeout T w' /\
                prompts (history w') = (prompts (history w) + fuel)%nat).
Proof.
  induction 1 as [|t ts [Hmf Hlen] Hts IH]; intros fuel u w ws rest G Hb Hws.
  - split; [|simpl; lia]. intros _. exists u, w, ws. simpl.
    rewrite Nat.sub_0_r, Nat.add_0_r. auto.
  - rewrite lines_cons in Hb.
    destruct (attempt_malformed u w ws t _ G Hb Hws Hmf Hlen)
      as [(w0 & E0 & P0) (u' & w' & ws' & E & G' & Hb' & Hws' & P)].
    destruct fuel as [|fuel].
    + split; [simpl; lia|]. intros _. exists w0. split; auto. lia.
    + destruct (IH fuel u' w' ws' rest G' Hb' Hws') as [IH1 IH2].
      rewrite E. split; intros Hf; simpl in Hf.
      * destruct IH1 as (u2 & w2 & ws2 & E2 & G2 & Hb2 & Hws2 & P2); [lia|].
        exists u2, w2, ws2. simpl. repeat split; auto. lia.
      * destruct IH2 as (w2 & E2 & P2); [lia|].
        exists w2. split; auto. lia.
Qed.

Lemma ignore_buf_all_space (n : nat) :
  forall b, all_space b = true ->
            all_space (fst (ignore_buf n newline b)) = true.
Proof.
  induction n as [|n IH]; intros b Hb; simpl; auto.
  destruct b as [|c b]; auto. simpl in Hb.
  apply andb_true_iff in Hb. destruct Hb as [_ Hb].
  destruct (Ascii.eqb c newline); auto.
Qed.

Lemma get_exhausted (s : istream) :
  all_space (buf s) = true ->
  good (fst (get s)) = false /\ all_space (buf (fst (get s))) = true.
Proof.
  intros Hs. unfold formatted. rewrite pre_good, pre_buf.
  apply skipws_nil_iff in Hs. rewrite Hs.
  destruct (good s); simpl.
  - auto.
  - rewrite good_setfail, pre_buf. split; auto. now apply skipws_nil_iff.
Qed.

(** When only whitespace is left to read, every iteration fails: the loop
    goes on for as long as it is allowed to, printing a prompt each time. *)
Lemma attempt_exhausted (fuel : nat) :
  forall (u : option T) (w : world T),
    all_space (buf (cin w)) = true ->
    exists w', attempt' fuel u w = Timeout T w' /\
               prompts (history w') = (prompts (history w) + fuel)%nat.
Proof.
  induction fuel as [|fuel IH]; intros u w Hw;
    destruct (get_exhausted _ Hw) as [Hg Hs]; rewrite attempt_unfold, Hg.
  - rewrite read_loop_stop by exact Hg. eexists. split; [reflexivity|].
    simpl. rewrite prompts_app. unfold prompts at 2. simpl. lia.
  - rewrite read_loop_retry by exact Hg.
    match goal with
    | |- exists w', attempt' _ ?u3 ?w3 = _ /\ _ =>
        destruct (IH u3 w3) as (w' & E & P); [|exists w'; split; [exact E|]]
    end.
    + cbn [cin]. unfold ignore. rewrite good_clear. cbn [buf clear].
      pose proof (ignore_buf_all_space 80 _ Hs) as Hi.
      destruct (ignore_buf 80 newline _). exact Hi.
    + rewrite P. simpl. rewrite !prompts_app. unfold prompts at 2 3. simpl. lia.
Qed.

Lemma ignore_buf_long (n : nat) :
  forall (r rest : list ascii),
    no_newline r = true -> (n < List.length r)%nat ->
    ignore_buf n newline (r ++ newline :: rest)
    = (skipn n r ++ newline :: rest, false).
Proof.
  induction n as [|n IH]; intros r rest Hn Hl.
  - reflexivity.
  - destruct r as [|c r]; [simpl in Hl; lia|].
    destruct (no_newline_cons _ _ Hn) as [Hc Hr].
    simpl. rewrite Hc. apply IH; auto. simpl in Hl. lia.
Qed.

Lemma no_newline_skipn (n : nat) :
  forall r, no_newline r = true -> no_newline (skipn n r) = true.
Proof.
  induction n as [|n IH]; intros r Hr; [exact Hr|].
  destruct r as [|c r]; [reflexivity|].
  destruct (no_newline_cons _ _ Hr) as [_ Hr']. simpl. auto.
Qed.

Lemma lines_length (l : list ascii) (ls : list (list ascii)) :
  List.length (lines (l :: ls)) = S (List.length l + List.length (lines ls)).
Proof. simpl. rewrite length_app. simpl. lia. Qed.

(** Whatever was typed before it, a well-formed line ends the attempt at the
    latest: every failed iteration discards at least one character of what
    comes before that line, and none of the line itself. *)
Lemma attempt_terminates (t rest : list ascii) :
  well_formed get t = true ->
  forall (n : nat) (ls : list (list ascii)),
    (List.length (lines ls) <= n)%nat ->
    Forall (fun l => no_newline l = true) ls ->
    forall (fuel : nat) (u : option T) (w : world T) (ws : list ascii),
      (n <= fuel)%nat ->
      good (cin w) = true ->
      buf (cin w) = ws ++ lines ls ++ t ++ newline :: rest ->
      all_space ws = true ->
      exists v w', attempt' fuel u w = Done v w'.
Proof.
  intros Hwf.
  induction n as [|n IH]; intros ls Hlen Hls fuel u w ws Hf G Hb Hws.
  - destruct ls as [|l ls]; [|rewrite lines_length in Hlen; lia].
    destruct (attempt_well_formed fuel u w ws t rest G Hb Hws Hwf)
      as (v & w' & E & _). eauto.
  - destruct ls as [|l ls].
    { destruct (attempt_well_formed fuel u w ws t rest G Hb Hws Hwf)
        as (v & w' & E & _). eauto. }
    rewrite lines_length in Hlen. inversion Hls as [|l0 ls0 Hl Hls']; subst.
    rewrite lines_cons in Hb.
    destruct (nonblank l) eqn:Hnb.
    + destruct (get_line (cin w) ws l _ G Hb Hws Hnb Hl)
        as (r & _ & Hbuf & Hlr & Hnr & _ & _).
      rewrite attempt_unfold.
      destruct (good (fst (get (cin w)))) eqn:Gg.
      * destruct (get_stores_line _ Gg) as [v Hv]. rewrite Hv. simpl assign.
        rewrite read_loop_good by exact Gg. eauto.
      * destruct fuel as [|fuel]; [lia|].
        rewrite read_loop_retry by exact Gg. cbn [cin history].
        destruct (Nat.le_gt_cases (List.length r) 80) as [Hr|Hr].
        -- destruct (ignore_line (fst (get (cin w))) r _ Hbuf Hnr Hr)
             as (Gi & ws' & Hws' & Hbi).
           eapply (IH ls); eauto; lia.
        -- eapply (IH (skipn 80 r :: ls)) with (ws := []).
           ++ rewrite lines_length, length_skipn. lia.
           ++ constructor; auto. now apply no_newline_skipn.
           ++ lia.
           ++ cbn [cin]. unfold ignore. rewrite good_clear. cbn [buf clear].
              rewrite Hbuf, ignore_buf_long by assumption. reflexivity.
           ++ cbn [cin]. unfold ignore. rewrite good_clear. cbn [buf clear].
              rewrite Hbuf, ignore_buf_long by assumption.
              cbn [buf app]. now rewrite lines_cons.
           ++ reflexivity.
    + eapply (IH ls) with (ws := ws ++ l ++ [newline]); eauto; try lia.
      * rewrite Hb, <- !app_assoc. reflexivity.
      * unfold nonblank in Hnb. apply negb_false_iff in Hnb.
        unfold all_space in *. rewrite !forallb_app, Hws. simpl.
        destruct (skipws l) eqn:El; [|discriminate].
        apply skipws_nil_iff in El. unfold all_space in El. now rewrite El.
Qed.

(** A session of lines that holds a well-formed line: the reader returns. *)
Lemma read_terminates (ls : list (list ascii)) (t rest : list ascii)
    (w : world T) :
  Forall (fun l => no_newline l = true) ls ->
  well_formed get t = true ->
  good (cin w) = true ->
  buf (cin w) = lines ls ++ t ++ newline :: rest ->
  forall fuel, (List.length (lines ls) <= fuel)%nat ->
    exists v w', read' fuel w = Done v w'.
Proof.
  intros Hls Hwf G Hb fuel Hf. rewrite read_is_attempt.
  eapply (@attempt_terminates t rest Hwf (List.length (lines ls)) ls)
    with (ws := []); eauto.
Qed.

(** Malformed lines of at most 80 characters followed by a well-formed line:
    the reader returns the value of that line after one prompt for each
    malformed line, when it is allowed that many iterations, and is still
    running when it is allowed fewer. *)
Lemma read_lines (ts : list (list ascii)) (t rest : list ascii) (w : world T) :
  Forall (fun t => malformed get t = true /\ (List.length t <= 80)%nat) ts ->
  well_formed get t = true ->
  good (cin w) = true ->
  buf (cin w) = lines ts ++ t ++ newline :: rest ->
  forall fuel,
    ((List.length ts <= fuel)%nat ->
     exists v w',
       read' fuel w = Done v w' /\
       value_of get t = Some v /\
       prompts (history w') = (prompts (history w) + List.length ts)%nat /\
       buf (cin w') = left_of get t ++ rest /\
       good (cin w') = true) /\
    ((fuel < List.length ts)%nat ->
     exists w', read' fuel w = Timeout T w' /\
                prompts (history w') = (prompts (history w) + fuel)%nat).
Proof.
  intros Hts Hwf G Hb fuel. rewrite read_is_attempt.
  destruct (attempt_skip Hts fuel None w [] (t ++ newline :: rest) G Hb eq_refl)
    as [H1 H2].
  split; [|exact H2]. intros Hf.
  destruct (H1 Hf) as (u' & w' & ws' & E & G' & Hb' & Hws' & P).
  destruct (attempt_well_formed (fuel - List.length ts) u' w' ws' t rest
              G' Hb' Hws' Hwf) as (v & w2 & E2 & Hv & Hh & Hb2 & G2).
  exists v, w2. rewrite E. repeat split; auto.
  rewrite Hh, prompts_app, P. unfold prompts at 2. simpl. lia.
Qed.

(** Malformed lines and then the end of the input: the reader never
    returns. *)
Lemma read_starved (ts : list (list ascii)) (w : world T) :
  Forall (fun t => malformed get t = true /\ (List.length t <= 80)%nat) ts ->
  good (cin w) = true ->
  buf (cin w) = lines ts ->
  forall fuel,
    exists w', read' fuel w = Timeout T w' /\
               prompts (history w') = (prompts (history w) + fuel)%nat.
Proof.
  intros Hts G Hb fuel. rewrite read_is_attempt.
  rewrite <- (app_nil_r (lines ts)) in Hb.
  destruct (attempt_skip Hts fuel None w [] [] G Hb eq_refl) as [H1 H2].
  destruct (Nat.lt_ge_cases fuel (List.length ts)) as [Hf | Hf]; [auto|].
  destruct (H1 Hf) as (u' & w' & ws' & E & G' & Hb' & Hws' & P).
  rewrite app_nil_r in Hb'.
  destruct (attempt_exhausted (fuel - List.length ts) u' w') as (w2 & E2 & P2).
  { now rewrite Hb'. }
  exists w2. rewrite E. split; auto. lia.
Qed.

End Lines.

(** ** Parsers stay inside a line *)

Lemma is_nil_line (r rest : list ascii) : is_nil (r ++ newline :: rest) = false.
Proof. destruct r; reflexivity. Qed.

Lemma scan_sign_line (u : list ascii) :
  no_newline u = true ->
  exists neg u1,
    (forall rest, scan_sign (u ++ newline :: rest) = (neg, u1 ++ newline :: rest))
    /\ (List.length u1 <= List.length u)%nat /\ no_newline u1 = true.
Proof.
  intros Hu. destruct u as [|c u].
  - exists false, []. repeat split; auto.
  - destruct (no_newline_cons _ _ Hu) as [_ Hu'].
    simpl. destruct (Ascii.eqb c "-").
    + exists true, u. repeat split; auto.
    + destruct (Ascii.eqb c "+").
      * exists false, u. repeat split; auto.
      * exists false, (c :: u). repeat split; auto.
Qed.

Lemma scan_digits_line (u : list ascii) :
  no_newline u = true ->
  exists ds r,
    (forall rest, scan_digits (u ++ newline :: rest) = (ds, r ++ newline :: rest))
    /\ (List.length r <= List.length u)%nat /\ no_newline r = true.
Proof.
  induction u as [|c u IH]; intros Hu.
  - exists [], []. repeat split; auto.
  - destruct (no_newline_cons _ _ Hu) as [_ Hu'].
    destruct (IH Hu') as (ds & r & Hs & Hl & Hn).
    simpl. destruct (is_digit c).
    + exists (c :: ds), r. repeat split; auto.
      intros rest. now rewrite Hs.
    + exists [], (c :: u). repeat split; auto.
Qed.

Lemma scan_integer_line (lo hi : Z) (u : list ascii) :
  no_newline u = true ->
  exists r fail v,
    (forall rest,
        scan_integer lo hi (u ++ newline :: rest)
        = (r ++ newline :: rest, false, fail, v))
    /\ (List.length r <= List.length u)%nat /\ no_newline r = true.
Proof.
  intros Hu. unfold scan_integer.
  destruct (scan_sign_line u Hu) as (neg & u1 & Hs1 & Hl1 & Hn1).
  destruct (scan_digits_line u1 Hn1) as (ds & r & Hs2 & Hl2 & Hn2).
  assert (Hl : (List.length r <= List.length u)%nat) by lia.
  destruct ds as [|d ds].
  - exists r, true, 0%Z. repeat split; auto.
    intros rest. now rewrite Hs1, Hs2, is_nil_line.
  - set (z := (if neg then - digits_val (d :: ds) else digits_val (d :: ds))%Z).
    destruct (z <? lo)%Z eqn:E1; [|destruct (hi <? z)%Z eqn:E2].
    + exists r, true, lo. repeat split; auto.
      intros rest. rewrite Hs1, Hs2, is_nil_line. fold z. now rewrite E1.
    + exists r, true, hi. repeat split; auto.
      intros rest. rewrite Hs1, Hs2, is_nil_line. fold z. now rewrite E1, E2.
    + exists r, false, z. repeat split; auto.
      intros rest. rewrite Hs1, Hs2, is_nil_line. fold z. now rewrite E1, E2.
Qed.

Lemma scan_int_line (a : bool) (u : list ascii) :
  no_newline u = true ->
  exists r fail v,
    (forall rest,
        scan_int a (u ++ newline :: rest) = (r ++ newline :: rest, false, fail, v))
    /\ (List.length r <= List.length u)%nat /\ no_newline r = true.
Proof. apply scan_integer_line. Qed.

(** What an [int] extraction stores fits an [int]. *)
Lemma scan_integer_bounds (lo hi : Z) (b : list ascii) :
  (lo <= 0 <= hi)%Z ->
  (lo <= snd (scan_integer lo hi b) <= hi)%Z.
Proof.
  intros H. unfold scan_integer.
  destruct (scan_sign b) as [neg b1]. destruct (scan_digits b1) as [ds rest].
  destruct ds as [|d ds]; [exact H|].
  destruct (Z.ltb_spec (if neg then - digits_val (d :: ds)
                        else digits_val (d :: ds)) lo); simpl; [lia|].
  destruct (Z.ltb_spec hi (if neg then - digits_val (d :: ds)
                           else digits_val (d :: ds))); simpl; lia.
Qed.

Lemma extract_int_bounds (s : istream) (v : Z) :
  snd (extract_int s) = Some v -> (INT_MIN <= v <= INT_MAX)%Z.
Proof.
  unfold extract_int, formatted. destruct (good s); [|discriminate].
  destruct (skipws (buf s)) as [|c b]; [discriminate|].
  pose proof (@scan_integer_bounds INT_MIN INT_MAX (c :: b)) as H.
  unfold scan_int. destruct (scan_integer INT_MIN INT_MAX (c :: b))
    as [[[rest eof] fail] z].
  simpl in *. intros E. injection E as <-. apply H. unfold INT_MIN, INT_MAX. lia.
Qed.

(** *** The parsers of [float] and [bool] *)

Lemma scan_fraction_line (u : list ascii) :
  no_newline u = true ->
  exists fp r,
    (forall rest,
        scan_fraction (u ++ newline :: rest) = (fp, r ++ newline :: rest))
    /\ (List.length r <= List.length u)%nat /\ no_newline r = true.
Proof.
  intros Hu. destruct u as [|c u].
  - exists [], []. repeat split; auto.
  - destruct (no_newline_cons _ _ Hu) as [_ Hu'].
    simpl. destruct (Ascii.eqb c ".").
    + destruct (scan_digits_line u Hu') as (ds & r & Hs & Hl & Hn).
      exists ds, r. repeat split; auto.
    + exists [], (c :: u). repeat split; auto.
Qed.

Lemma scan_exponent_line (u : list ascii) :
  no_newline u = true ->
  (forall rest, scan_exponent (u ++ newline :: rest) = None) \/
  exists r e,
    (forall rest,
        scan_exponent (u ++ newline :: rest) = Some (r ++ newline :: rest, e))
    /\ (List.length r <= List.length u)%nat /\ no_newline r = true.
Proof.
  intros Hu. destruct u as [|c u].
  - left. reflexivity.
  - destruct (no_newline_cons _ _ Hu) as [_ Hu'].
    simpl. destruct (Ascii.eqb c "e" || Ascii.eqb c "E"); [|now left].
    right.
    destruct (scan_sign_line u Hu') as (neg & u1 & Hs1 & Hl1 & Hn1).
    destruct (scan_digits_line u1 Hn1) as (ds & r & Hs2 & Hl2 & Hn2).
    destruct ds as [|d ds].
    + exists r, None. repeat split; auto; [|lia].
      intros rest. now rewrite Hs1, Hs2.
    + eexists r, _. repeat split; auto; [|lia].
      intros rest. rewrite Hs1, Hs2. reflexivity.
Qed.

Lemma scan_float_line (a : bool) (u : list ascii) :
  no_newline u = true ->
  exists r fail v,
    (forall rest,
        scan_float a (u ++ newline :: rest)
        = (r ++ newline :: rest, false, fail, v))
    /\ (List.length r <= List.length u)%nat /\ no_newline r = true.
Proof.
  intros Hu. unfold scan_float.
  destruct (scan_sign_line u Hu) as (neg & u1 & Hs1 & Hl1 & Hn1).
  destruct (scan_digits_line u1 Hn1) as (ip & u2 & Hs2 & Hl2 & Hn2).
  destruct (scan_fraction_line u2 Hn2) as (fp & u3 & Hs3 & Hl3 & Hn3).
  destruct (is_nil ip && is_nil fp) eqn:E.
  - exists u3, true, (S754_zero false). repeat split; auto; [|lia].
    intros rest. now rewrite Hs1, Hs2, Hs3, E, is_nil_line.
  - destruct (scan_exponent_line u3 Hn3) as [Hs4 | (r & [e|] & Hs4 & Hl4 & Hn4)].
    + destruct (float_stored neg
                  (to_float neg (digits_val (ip ++ fp))
                     (0 - Z.of_nat (List.length fp)))) as [fail v] eqn:F.
      exists u3, fail, v. repeat split; auto; [|lia].
      intros rest. cbv zeta. now rewrite Hs1, Hs2, Hs3, E, Hs4, F, is_nil_line.
    + destruct (float_stored neg
                  (to_float neg (digits_val (ip ++ fp))
                     (e - Z.of_nat (List.length fp)))) as [fail v] eqn:F.
      exists r, fail, v. repeat split; auto; [|lia].
      intros rest. cbv zeta. now rewrite Hs1, Hs2, Hs3, E, Hs4, F, is_nil_line.
    + exists r, true, (S754_zero false). repeat split; auto; [|lia].
      intros rest. cbv zeta. now rewrite Hs1, Hs2, Hs3, E, Hs4, is_nil_line.
Qed.

Lemma match_name_line (name : list ascii) :
  no_newline name = true ->
  forall u, no_newline u = true ->
    exists r ok,
      (forall rest,
          match_name name (u ++ newline :: rest)
          = (r ++ newline :: rest, ok, false))
      /\ (List.length r <= List.length u)%nat /\ no_newline r = true.
Proof.
  induction name as [|n name IH]; intros Hname u Hu.
  - exists u, true. repeat split; auto.
  - destruct (no_newline_cons _ _ Hname) as [Hn Hname'].
    destruct u as [|c u].
    + exists [], false. repeat split; auto. intros rest.
      cbn [app match_name]. rewrite Ascii.eqb_sym. now rewrite Hn.
    + destruct (no_newline_cons _ _ Hu) as [_ Hu'].
      simpl. destruct (Ascii.eqb c n).
      * destruct (IH Hname' u Hu') as (r & ok & Hs & Hl & Hr).
        exists r, ok. repeat split; auto.
      * exists (c :: u), false. repeat split; auto.
Qed.

Lemma leb_length_line (r1 r2 rest : list ascii) :
  Nat.leb (List.length (r1 ++ newline :: rest))
          (List.length (r2 ++ newline :: rest))
  = Nat.leb (List.length r1) (List.length r2).
Proof.
  rewrite !length_app.
  destruct (Nat.leb_spec (List.length r1) (List.length r2)) as [H|H].
  - apply Nat.leb_le. lia.
  - apply Nat.leb_gt. lia.
Qed.

Lemma scan_bool_line (a : bool) (u : list ascii) :
  no_newline u = true ->
  exists r fail v,
    (forall rest,
        scan_bool a (u ++ newline :: rest)
        = (r ++ newline :: rest, false, fail, v))
    /\ (List.length r <= List.length u)%nat /\ no_newline r = true.
Proof.
  intros Hu. unfold scan_bool. destruct a.
  - destruct (@match_name_line truename eq_refl u Hu) as (rt & okt & Ht & Hlt & Hnt).
    destruct (@match_name_line falsename eq_refl u Hu) as (rf & okf & Hf & Hlf & Hnf).
    destruct okt; [|destruct okf].
    + exists rt, false, true. repeat split; auto.
      intros rest. now rewrite Ht, Hf.
    + exists rf, false, false. repeat split; auto.
      intros rest. now rewrite Ht, Hf.
    + exists (if Nat.leb (List.length rt) (List.length rf) then rt else rf),
        true, false.
      repeat split.
      * intros rest. rewrite Ht, Hf, leb_length_line.
        now destruct (Nat.leb (List.length rt) (List.length rf)).
      * now destruct (Nat.leb (List.length rt) (List.length rf)).
      * now destruct (Nat.leb (List.length rt) (List.length rf)).
  - destruct (@scan_integer_line LONG_MIN LONG_MAX u Hu)
      as (r & fail & z & Hs & Hl & Hn).
    destruct (z =? 0)%Z eqn:E0; [|destruct (z =? 1)%Z eqn:E1].
    + exists r, fail, false. repeat split; auto.
      intros rest. now rewrite Hs, E0.
    + exists r, fail, true. repeat split; auto.
      intros rest. now rewrite Hs, E0, E1.
    + exists r, true, true. repeat split; auto.
      intros rest. now rewrite Hs, E0, E1.
Qed.

(** *** Sessions of lines at every target *)

Lemma reader_lines (k : target)
    (ts : list (list ascii)) (t rest : list ascii) (w : world (target_type k)) :
  Forall (fun t => malformed (extraction k) t = true
                   /\ (List.length t <= 80)%nat) ts ->
  well_formed (extraction k) t = true ->
  good (cin w) = true ->
  buf (cin w) = lines ts ++ t ++ newline :: rest ->
  forall fuel,
    ((List.length ts <= fuel)%nat ->
     exists v w',
       reader k fuel w = Done v w' /\
       value_of (extraction k) t = Some v /\
       prompts (history w') = (prompts (history w) + List.length ts)%nat /\
       buf (cin w') = left_of (extraction k) t ++ rest /\
       good (cin w') = true) /\
    ((fuel < List.length ts)%nat ->
     exists w', reader k fuel w = Timeout (target_type k) w' /\
                prompts (history w') = (prompts (history w) + fuel)%nat).
Proof.
  destruct k.
  - exact (@read_lines Z scan_int (fun s => s) int_type_message
             (fun _ => eq_refl) (fun _ => eq_refl) (fun _ => eq_refl)
             (fun _ _ _ => eq_refl) scan_int_line ts t rest w).
  - exact (@read_lines _ scan_float (fun s => s) float_type_message
             (fun _ => eq_refl) (fun _ => eq_refl) (fun _ => eq_refl)
             (fun _ _ _ => eq_refl) scan_float_line ts t rest w).
  - exact (@read_lines Z scan_int set_boolalpha (element_type_message int_block)
             (fun _ => eq_refl) (fun _ => eq_refl) (fun _ => eq_refl)
             (fun _ _ _ => eq_refl) scan_int_line ts t rest w).
  - exact (@read_lines bool scan_bool set_boolalpha
             (element_type_message bool_block)
             (fun _ => eq_refl) (fun _ => eq_refl) (fun _ => eq_refl)
             (fun _ _ _ => eq_refl) scan_bool_line ts t rest w).
Qed.

Lemma reader_starved (k : target)
    (ts : list (list ascii)) (w : world (target_type k)) :
  Forall (fun t => malformed (extraction k) t = true
                   /\ (List.length t <= 80)%nat) ts ->
  good (cin w) = true ->
  buf (cin w) = lines ts ->
  forall fuel,
    exists w', reader k fuel w = Timeout (target_type k) w' /\
               prompts (history w') = (prompts (history w) + fuel)%nat.
Proof.
  destruct k.
  - exact (@read_starved Z scan_int (fun s => s) int_type_message
             (fun _ => eq_refl) (fun _ => eq_refl) (fun _ => eq_refl)
             (fun _ _ _ => eq_refl) scan_int_line ts w).
  - exact (@read_starved _ scan_float (fun s => s) float_type_message
             (fun _ => eq_refl) (fun _ => eq_refl) (fun _ => eq_refl)
             (fun _ _ _ => eq_refl) scan_float_line ts w).
  - exact (@read_starved Z scan_int set_boolalpha (element_type_message int_block)
             (fun _ => eq_refl) (fun _ => eq_refl) (fun _ => eq_refl)
             (fun _ _ _ => eq_refl) scan_int_line ts w).
  - exact (@read_starved bool scan_bool set_boolalpha
             (element_type_message bool_block)
             (fun _ => eq_refl) (fun _ => eq_refl) (fun _ => eq_refl)
             (fun _ _ _ => eq_refl) scan_bool_line ts w).
Qed.

Lemma reader_terminates (k : target)
    (ls : list (list ascii)) (t rest : list ascii) (w : world (target_type k)) :
  Forall (fun l => no_newline l = true) ls ->
  well_formed (extraction k) t = true ->
  good (cin w) = true ->
  buf (cin w) = lines ls ++ t ++ newline :: rest ->
  forall fuel, (List.length (lines ls) <= fuel)%nat ->
    exists v w', reader k fuel w = Done v w'.
Proof.
  destruct k.
  - exact (@read_terminates Z scan_int (fun s => s) int_type_message
             (fun _ => eq_refl) (fun _ => eq_refl) (fun _ => eq_refl)
             (fun _ _ _ => eq_refl) scan_int_line ls t rest w).
  - exact (@read_terminates _ scan_float (fun s => s) float_type_message
             (fun _ => eq_refl) (fun _ => eq_refl) (fun _ => eq_refl)
             (fun _ _ _ => eq_refl) scan_float_line ls t rest w).
  - exact (@read_terminates Z scan_int set_boolalpha
             (element_type_message int_block)
             (fun _ => eq_refl) (fun _ => eq_refl) (fun _ => eq_refl)
             (fun _ _ _ => eq_refl) scan_int_line ls t rest w).
  - exact (@read_terminates bool scan_bool set_boolalpha
             (element_type_message bool_block)
             (fun _ => eq_refl) (fun _ => eq_refl) (fun _ => eq_refl)
             (fun _ _ _ => eq_refl) scan_bool_line ls t rest w).
Qed.

Lemma extraction_stores (k : target) (s : istream) :
  good (fst (extraction k s)) = true -> exists v, snd (extraction k s) = Some v.
Proof. destruct k; apply formatted_stores. Qed.

(** * The claims *)

(** C3 (as amended).  In a session of lines typed to a reader of any target,
    let zero or more malformed lines, each of at most 80 characters, come
    before a well-formed line.  Allowed at least one iteration for each
    malformed line, the reader returns the value of the well-formed line, and
    has printed exactly one retry prompt for each malformed line; allowed
    fewer iterations, it has not returned: it is still in its loop, having
    printed one prompt for each iteration. *)
Theorem one_prompt_per_malformed_line
    (k : target) (ts : list (list ascii)) (t rest : list ascii) (fuel : nat) :
  Forall (fun t => malformed (extraction k) t = true
                   /\ (List.length t <= 80)%nat) ts ->
  well_formed (extraction k) t = true ->
  ((List.length ts <= fuel)%nat ->
   exists v w',
     reader k fuel (session (target_type k) (lines ts ++ t ++ newline :: rest))
     = Done v w' /\
     value_of (extraction k) t = Some v /\
     prompts (history w') = List.length ts) /\
  ((fuel < List.length ts)%nat ->
   exists w',
     reader k fuel (session (target_type k) (lines ts ++ t ++ newline :: rest))
     = Timeout (target_type k) w' /\
     prompts (history w') = fuel).
Proof.
  intros Hts Hwf.
  destruct (@reader_lines k ts t rest
              (session (target_type k) (lines ts ++ t ++ newline :: rest))
              Hts Hwf eq_refl eq_refl fuel) as [H1 H2].
  split; intros Hf.
  - destruct (H1 Hf) as (v & w' & E & Hv & P & _). exists v, w'. auto.
  - destruct (H2 Hf) as (w' & E & P). exists w'. auto.
Qed.

(** [read_int] on the inputs "abc" and "5": the value is 5 and one prompt was
    printed. *)
Lemma one_prompt_per_malformed_line_witness :
  exists v w',
    read_int 1 (session Z (lines [line "abc"] ++ line "5" ++ newline :: []))
    = Done v w' /\
    value_of extract_int (line "5") = Some v /\
    prompts (history w') = 1%nat.
Proof.
  apply (@one_prompt_per_malformed_line OnInt [line "abc"] (line "5") [] 1).
  - repeat constructor.
  - reflexivity.
  - simpl. lia.
Defined.

(** C3 as stated fails: a malformed line of 81 characters gets two retry
    prompts from [read_int], since one call of [cin.ignore] discards 80
    characters only. *)
Lemma one_prompt_per_malformed_line_fails :
  ~ (forall (ts : list (list ascii)) (t : list ascii) (fuel : nat),
        Forall (fun t => malformed extract_int t = true) ts ->
        well_formed extract_int t = true ->
        (List.length ts <= fuel)%nat ->
        exists v w',
          read_int fuel (session Z (lines ts ++ t ++ [newline])) = Done v w' /\
          prompts (history w') = List.length ts).
Proof.
  intros H.
  destruct (H [repeat "a"%char 81] (line "5") 2%nat) as (v & w' & E & P).
  - repeat constructor.
  - reflexivity.
  - simpl. lia.
  - vm_compute in E. injection E as <- <-. vm_compute in P. discriminate.
Qed.

(** X13.  Consider a session of lines typed to a reader of any target.
    - If a well-formed line [t] is among them, the reader terminates: allowed
      one iteration for each character typed before [t], it returns.
    - If the lines before [t] are malformed and have at most 80 characters
      each, then, allowed one iteration for each of them, the reader returns
      the value of [t], the first well-formed line.
    - If the session is made of such malformed lines only and the input ends
      after them, the reader never returns and never fails: whatever the
      number of iterations allowed, it is still in its loop and has printed
      one retry prompt for each of them.
    - No run of the reader or of the range-checked reader ends in a failure.
    - After a failed extraction (TYPE_INVALID) the loop goes back to a new
      extraction, and after a value out of range (RANGE_INVALID) the range
      loop goes back to the reader. *)
Theorem reader_terminates_on_first_valid_line
    (k : target) (ts : list (list ascii)) (t rest : list ascii) :
  Forall (fun t => malformed (extraction k) t = true
                   /\ (List.length t <= 80)%nat) ts ->
  well_formed (extraction k) t = true ->
  (forall ls fuel,
     Forall (fun l => no_newline l = true) ls ->
     (List.length (lines ls) <= fuel)%nat ->
     exists v w',
       reader k fuel
         (session (target_type k) (lines ls ++ t ++ newline :: rest))
       = Done v w') /\
  (forall fuel, (List.length ts <= fuel)%nat ->
     exists v w',
       reader k fuel
         (session (target_type k) (lines ts ++ t ++ newline :: rest))
       = Done v w' /\
       value_of (extraction k) t = Some v) /\
  (forall fuel,
     exists w',
       reader k fuel (session (target_type k) (lines ts))
       = Timeout (target_type k) w' /\
       prompts (history w') = fuel) /\
  (forall fuel w,
     is_undefined (reader k fuel w) = false /\
     is_undefined (range_reader k fuel w) = false) /\
  (forall fuel u w,
     good (cin w) = false ->
     read_loop (extraction k) (type_message_of k) (S fuel) u w =
     attempt (extraction k) (type_message_of k) fuel u
       (mkWorld (ignore 80 newline (clear (cin w)))
          (history w ++ [CClear; CIgnore 80 newline; COut (type_message_of k)])))
  /\
  (forall rfuel fuel v w,
     range_test k v = true ->
     range_loop (extraction k) (type_message_of k) (range_test k)
       (range_message_of k) rfuel (S fuel) v w =
     (v' <- reader k rfuel ;;
      range_loop (extraction k) (type_message_of k) (range_test k)
        (range_message_of k) rfuel fuel v')
       (mkWorld (cin w) (history w ++ [CCompare v; COut (range_message_of k)]))).
Proof.
  intros Hts Hwf. split; [|split; [|split; [|split; [|split]]]].
  - intros ls fuel Hls Hf.
    exact (@reader_terminates k ls t rest
             (session (target_type k) (lines ls ++ t ++ newline :: rest))
             Hls Hwf eq_refl eq_refl fuel Hf).
  - intros fuel Hf.
    destruct (@reader_lines k ts t rest
                (session (target_type k) (lines ts ++ t ++ newline :: rest))
                Hts Hwf eq_refl eq_refl fuel) as [H1 _].
    destruct (H1 Hf) as (v & w' & E & Hv & _). exists v, w'. auto.
  - intros fuel.
    destruct (@reader_starved k ts (session (target_type k) (lines ts))
                Hts eq_refl eq_refl fuel) as (w' & E & P).
    exists w'. auto.
  - intros fuel w. split.
    + apply attempt_defined. apply extraction_stores.
    + apply read_in_range_defined. apply extraction_stores.
  - intros fuel u w G. now apply read_loop_retry.
  - intros rfuel fuel v w O. now apply range_loop_reject.
Qed.

(** [read_int]: the inputs "pizza" and "7" give 7; the input "pizza" alone
    keeps the reader in its loop. *)
Lemma reader_terminates_on_first_valid_line_witness :
  (exists v w',
      read_int 1 (session Z (lines [line "pizza"] ++ line "7" ++ newline :: []))
      = Done v w' /\
      value_of extract_int (line "7") = Some v) /\
  (exists w', read_int 3 (session Z (lines [line "pizza"])) = Timeout Z w' /\
              prompts (history w') = 3%nat).
Proof.
  destruct (@reader_terminates_on_first_valid_line OnInt
              [line "pizza"] (line "7") []) as (_ & A & B & _).
  - repeat constructor.
  - reflexivity.
  - split.
    + apply A. simpl. lia.
    + apply B.
Defined.

(** C7.  [read_int] on a session of two lines: 80 letters followed by the
    digit 7, and then 5.  The first line is malformed, the second is well
    formed, and 5 is the first valid value entered.  Allowed no iteration,
    [read_int] is still in its loop; allowed one or more, it prints its
    message once and returns 7, the character that [cin.ignore(80, '\n')]
    left of the first line, and the line of the 5 is still in the buffer.
    The claim, and the POST comment of [read_int], say that the non-valid
    values are discarded and 5 is returned. *)
Theorem read_int_returns_what_ignore_left :
  malformed extract_int (repeat "a"%char 80 ++ line "7") = true /\
  well_formed extract_int (line "5") = true /\
  value_of extract_int (line "5") = Some 5%Z /\
  (exists w',
      read_int 0 (session Z (lines [repeat "a"%char 80 ++ line "7"; line "5"]))
      = Timeout Z w') /\
  forall fuel,
    exists w',
      read_int (S fuel)
        (session Z (lines [repeat "a"%char 80 ++ line "7"; line "5"]))
      = Done 7%Z w' /\
      prompts (history w') = 1%nat /\
      buf (cin w') = newline :: lines [line "5"].
Proof.
  split; [reflexivity|]. split; [reflexivity|]. split; [reflexivity|].
  split; [eexists; vm_compute; reflexivity|].
  intros fuel.
  assert (E1 : exists w1,
             read_int 1
               (session Z (lines [repeat "a"%char 80 ++ line "7"; line "5"]))
             = Done 7%Z w1 /\
             prompts (history w1) = 1%nat /\
             buf (cin w1) = newline :: lines [line "5"]).
  { eexists. split; [vm_compute; reflexivity|]. split; reflexivity. }
  destruct E1 as (w1 & E1 & P1 & B1). exists w1. split; [|split; assumption].
  apply (@read_mono Z extract_int int_type_message
           (@formatted_stores Z scan_int) 1 (S fuel)); [lia | exact E1].
Qed.

Lemma extract_alpha_stores (blk : element_block) (s : istream) :
  good (fst (extract_alpha blk s)) = true ->
  exists v, snd (extract_alpha blk s) = Some v.
Proof. apply formatted_stores. Qed.

Lemma int_in_range_iff (low high v : Z) :
  int_out_of_range low high v = false <-> (low <= v <= high)%Z.
Proof.
  unfold int_out_of_range. rewrite orb_false_iff, Z.ltb_ge, Z.gtb_ltb, Z.ltb_ge.
  tauto.
Qed.

(** C4.  In every run of a type-and-range-checking demo, returned or not,
    every evaluation of the range test is on a value that the call just
    before it, an extraction that left the stream good, stored: the test is
    never made on what a failed extraction left.  Stated for the three demos,
    from any world whose history has the property. *)
Theorem range_test_follows_type_check (fuel : nat) :
  (forall w : world Z,
      guarded (history w) ->
      guarded (history (world_of (demo_int_type_and_range_checking fuel w)))) /\
  (forall w : world spec_float,
      guarded (history w) ->
      guarded (history (world_of (demo_float_type_and_range_checking fuel w)))) /\
  (forall (blk : element_block) (w : world (element blk)),
      guarded (history w) ->
      guarded (history (world_of
        (demo_element_type_and_range_checking blk fuel w)))).
Proof.
  split; [|split]; intros; apply demo_guarded; auto.
  - apply formatted_stores.
  - apply formatted_stores.
  - apply extract_alpha_stores.
Qed.

(** On the inputs "pizza", "50", "6" the demo on [int] tests 50 and 6, each
    right after its extraction, and never what "pizza" left. *)
Lemma range_test_follows_type_check_witness :
  guarded (history (world_of
    (demo_int_type_and_range_checking 2
       (session Z (lines [line "pizza"; line "50"; line "6"]))))).
Proof.
  apply (proj1 (range_test_follows_type_check 2)).
  intros pre v post H. destruct pre; discriminate.
Defined.

(** C6.  On every parse failure, that is whenever the loop of [read_int] or
    of [read_element] finds the stream not good, one iteration does this, in
    this order: [cin.clear()], after which the stream is good;
    [cin.ignore(80, '\n')], which discards at most 80 characters of the
    buffer and stops after a newline; the output of the invalid-type message,
    which for an element names the element type; and a new extraction, on
    which the loop decides again.  And the calls of any run of these readers
    are failed extractions, each followed by exactly these three calls, and a
    last extraction. *)
Theorem parse_failure_recovery (blk : element_block) :
  (forall fuel u (w : world Z),
      good (cin w) = false ->
      read_loop extract_int int_type_message (S fuel) u w =
      attempt extract_int int_type_message fuel u
        (mkWorld (ignore 80 newline (clear (cin w)))
           (history w ++ [CClear; CIgnore 80 newline; COut int_type_message]))
      /\ good (clear (cin w)) = true
      /\ discards (buf (cin w)) (buf (ignore 80 newline (clear (cin w))))) /\
  (forall fuel u (w : world (element blk)),
      good (cin w) = false ->
      read_loop (extract_alpha blk) (element_type_message blk) (S fuel) u w =
      attempt (extract_alpha blk) (element_type_message blk) fuel u
        (mkWorld (ignore 80 newline (clear (cin w)))
           (history w
            ++ [CClear; CIgnore 80 newline; COut (element_type_message blk)]))
      /\ good (clear (cin w)) = true
      /\ discards (buf (cin w)) (buf (ignore 80 newline (clear (cin w))))) /\
  In (Text (ELEMENT_NAME blk)) (element_type_message blk) /\
  (forall fuel (w : world Z),
      exists sts st ok,
        history (world_of (read_int fuel w))
        = history w ++ failed_run int_type_message sts ++ [CExtract st ok]) /\
  (forall fuel (w : world (element blk)),
      exists sts st ok,
        history (world_of (read_element blk fuel w))
        = history w ++ failed_run (element_type_message blk) sts
            ++ [CExtract st ok]).
Proof.
  split; [|split; [|split; [|split]]].
  - intros fuel u w G. now apply retry_step.
  - intros fuel u w G. now apply retry_step.
  - simpl. auto.
  - intros fuel w. apply read_shape, formatted_stores.
  - intros fuel w. apply read_shape, extract_alpha_stores.
Qed.

(** After the failed extraction of "pizza": the line is discarded whole. *)
Lemma parse_failure_recovery_witness :
  discards (line "pizza" ++ [newline])
    (buf (ignore 80 newline
            (clear (fst (extract_int (typed (line "pizza" ++ [newline]))))))).
Proof.
  apply (proj1 (parse_failure_recovery int_block) 0%nat None
           (mkWorld (fst (extract_int (typed (line "pizza" ++ [newline])))) [])).
  reflexivity.
Defined.

(** C9.  When [read_int], [read_float] or [read_element] returns, the stream
    is good: the last call was an extraction that left it good and stored the
    value returned, and every failed extraction before it was followed by
    [cin.clear()], then [cin.ignore(80, '\n')], then the retry prompt, then
    the next extraction. *)
Theorem readers_return_with_good_stream (fuel : nat) :
  (forall (w : world Z) v w',
      read_int fuel w = Done v w' ->
      good (cin w') = true /\
      exists sts,
        history w' = history w ++ failed_run int_type_message sts
                       ++ [CExtract (Some v) true]) /\
  (forall (w : world spec_float) v w',
      read_float fuel w = Done v w' ->
      good (cin w') = true /\
      exists sts,
        history w' = history w ++ failed_run float_type_message sts
                       ++ [CExtract (Some v) true]) /\
  (forall (blk : element_block) (w : world (element blk)) v w',
      read_element blk fuel w = Done v w' ->
      good (cin w') = true /\
      exists sts,
        history w' = history w ++ failed_run (element_type_message blk) sts
                       ++ [CExtract (Some v) true]).
Proof.
  split; [|split].
  - intros w v w' E.
    destruct (@read_done_shape Z extract_int int_type_message
                (@formatted_stores Z scan_int) fuel w v w' E) as (G & H & _).
    auto.
  - intros w v w' E.
    destruct (@read_done_shape _ extract_float float_type_message
                (@formatted_stores _ scan_float) fuel w v w' E) as (G & H & _).
    auto.
  - intros blk w v w' E.
    destruct (@read_done_shape _ (extract_alpha blk) (element_type_message blk)
                (@extract_alpha_stores blk) fuel w v w' E) as (G & H & _).
    auto.
Qed.

(** [read_int] on the inputs "abc" and "5". *)
Lemma readers_return_with_good_stream_witness :
  exists w',
    read_int 1 (session Z (lines [line "abc"; line "5"])) = Done 5%Z w' /\
    good (cin w') = true /\
    exists sts,
      history w' = [] ++ failed_run int_type_message sts
                     ++ [CExtract (Some 5%Z) true].
Proof.
  eexists. split; [vm_compute; reflexivity|].
  apply (proj1 (readers_return_with_good_stream 1)
           (session Z (lines [line "abc"; line "5"]))).
  vm_compute. reflexivity.
Defined.

(** ** A token followed by other characters *)

Lemma digit_not_space (c : ascii) : is_digit c = true -> is_space c = false.
Proof.
  unfold is_digit, is_space. cbv zeta. intros H.
  apply andb_true_iff in H. destruct H as [H1 H2].
  apply Nat.leb_le in H1.
  apply orb_false_iff. split.
  - apply Nat.eqb_neq. lia.
  - apply andb_false_iff. right. apply Nat.leb_gt. lia.
Qed.

Lemma digit_not_sign (c : ascii) :
  is_digit c = true -> Ascii.eqb c "-" = false /\ Ascii.eqb c "+" = false.
Proof.
  intros H. split.
  - destruct (Ascii.eqb_spec c "-"); [subst; discriminate | reflexivity].
  - destruct (Ascii.eqb_spec c "+"); [subst; discriminate | reflexivity].
Qed.

Lemma scan_digits_token (ds : list ascii) (c : ascii) (tail : list ascii) :
  forallb is_digit ds = true -> is_digit c = false ->
  scan_digits (ds ++ c :: tail) = (ds, c :: tail).
Proof.
  intros Hds Hc. induction ds as [|d ds IH]; simpl.
  - now rewrite Hc.
  - simpl in Hds. apply andb_true_iff in Hds. destruct Hds as [Hd Hds].
    rewrite Hd, IH by exact Hds. reflexivity.
Qed.

Lemma digit_val_nonneg (c : ascii) : is_digit c = true -> (0 <= digit_val c)%Z.
Proof.
  unfold is_digit, digit_val. cbv zeta. intros H.
  apply andb_true_iff in H. destruct H as [H1 _]. apply Nat.leb_le in H1. lia.
Qed.

Lemma digits_val_nonneg (ds : list ascii) :
  forallb is_digit ds = true -> (0 <= digits_val ds)%Z.
Proof.
  unfold digits_val.
  assert (H : forall acc, (0 <= acc)%Z -> forallb is_digit ds = true ->
              (0 <= fold_left (fun a c => 10 * a + digit_val c) ds acc)%Z).
  { induction ds as [|d ds IH]; cbn [fold_left forallb]; intros acc Ha Hds; auto.
    apply andb_true_iff in Hds. destruct Hds as [Hd Hds].
    pose proof (digit_val_nonneg _ Hd). apply IH; [lia | exact Hds]. }
  apply H. lia.
Qed.

(** C10.  On a successful parse [read_int] consumes the whitespace it skips
    and the digits of the number, and nothing else: when the buffer holds
    whitespace [ws], digits [ds] of a value that fits an [int], and then a
    character [c] that is not a digit, [read_int] returns that value at once,
    its only call is the extraction, and the buffer left starts at [c].  So
    the line "5abc" gives 5 and leaves "abc" in the buffer, and the next read
    finds it there: it fails on "abc", discards the line and prompts. *)
Theorem successful_parse_leaves_rest_of_line
    (ws ds : list ascii) (c : ascii) (tail : list ascii)
    (fuel : nat) (a : bool) (h : list (call Z)) :
  all_space ws = true ->
  ds <> [] -> forallb is_digit ds = true -> is_digit c = false ->
  (digits_val ds <= INT_MAX)%Z ->
  read_int fuel (mkWorld (mkStream (ws ++ ds ++ c :: tail) false false a) h)
  = Done (digits_val ds)
      (mkWorld (mkStream (c :: tail) false false a)
         (h ++ [CExtract (Some (digits_val ds)) true]))
  /\ read_int 0 (session Z (lines [line "5abc"; line "7"]))
     = Done 5%Z (mkWorld (typed (lines [line "abc"; line "7"]))
                   [CExtract (Some 5%Z) true])
  /\ read_int 1 (mkWorld (typed (lines [line "abc"; line "7"]))
                   [CExtract (Some 5%Z) true])
     = Done 7%Z (mkWorld (typed [newline])
                   [CExtract (Some 5%Z) true; CExtract (Some 0%Z) false;
                    CClear; CIgnore 80 newline; COut int_type_message;
                    CExtract (Some 7%Z) true]).
Proof.
  intros Hws Hne Hds Hc Hmax. split; [|split; reflexivity].
  unfold read_int. rewrite read_is_attempt, attempt_unfold.
  assert (E : extract_int (mkStream (ws ++ ds ++ c :: tail) false false a)
              = (mkStream (c :: tail) false false a, Some (digits_val ds))).
  { unfold extract_int, formatted. cbn [good eofbit failbit negb andb buf boolalpha].
    rewrite skipws_all_space by exact Hws.
    destruct ds as [|d ds]; [congruence|].
    pose proof Hds as Hds'. simpl in Hds'. apply andb_true_iff in Hds'.
    destruct Hds' as [Hd _].
    cbn [app skipws]. rewrite (digit_not_space _ Hd).
    unfold scan_int, scan_integer, scan_sign.
    destruct (digit_not_sign _ Hd) as [-> ->].
    change (d :: ds ++ c :: tail) with ((d :: ds) ++ c :: tail).
    rewrite scan_digits_token by assumption.
    pose proof (digits_val_nonneg _ Hds) as Hpos.
    destruct (Z.ltb_spec (digits_val (d :: ds)) INT_MIN) as [Hlt|_];
      [unfold INT_MIN in Hlt; lia|].
    destruct (Z.ltb_spec INT_MAX (digits_val (d :: ds))) as [Hlt|_]; [lia|].
    reflexivity. }
  cbn [cin history]. rewrite E. cbn [fst snd assign].
  now rewrite read_loop_good.
Qed.

(** The line "5abc": 5 is returned and the buffer starts at "a". *)
Lemma successful_parse_leaves_rest_of_line_witness :
  read_int 0 (mkWorld (mkStream ([] ++ line "5" ++ "a"%char :: line "bc")
                         false false false) [])
  = Done (digits_val (line "5"))
      (mkWorld (mkStream ("a"%char :: line "bc") false false false)
         ([] ++ [CExtract (Some (digits_val (line "5"))) true])).
Proof.
  apply (@successful_parse_leaves_rest_of_line [] (line "5") "a"%char
           (line "bc") 0 false []).
  - reflexivity.
  - discriminate.
  - reflexivity.
  - reflexivity.
  - vm_compute. discriminate.
Defined.

(** ** The boolean element *)

(** C2 (as amended).  With [element] configured as [bool], [read_element]
    reads with the [boolalpha] manipulator: it accepts the names "true" and
    "false", and rejects the numerals "1" and "0" like any other text: the
    line is discarded and the retry prompt printed.  On the inputs "maybe"
    and "true", "maybe" is rejected and "true" is returned as [true]. *)
Theorem bool_element_reads_names (rest : list ascii) (fuel : nat) :
  read_element bool_block fuel (session bool (line "true" ++ newline :: rest))
  = Done true (mkWorld (mkStream (newline :: rest) false false true)
                 [CExtract (Some true) true]) /\
  read_element bool_block fuel (session bool (line "false" ++ newline :: rest))
  = Done false (mkWorld (mkStream (newline :: rest) false false true)
                  [CExtract (Some false) true]) /\
  read_element bool_block (S fuel) (session bool (line "1" ++ newline :: rest))
  = attempt (extract_alpha bool_block) (element_type_message bool_block) fuel
      (Some false)
      (mkWorld (mkStream rest false false true)
         [CExtract (Some false) false; CClear; CIgnore 80 newline;
          COut (element_type_message bool_block)]) /\
  read_element bool_block (S fuel) (session bool (line "0" ++ newline :: rest))
  = attempt (extract_alpha bool_block) (element_type_message bool_block) fuel
      (Some false)
      (mkWorld (mkStream rest false false true)
         [CExtract (Some false) false; CClear; CIgnore 80 newline;
          COut (element_type_message bool_block)]) /\
  malformed (extract_alpha bool_block) (line "1") = true /\
  malformed (extract_alpha bool_block) (line "0") = true /\
  read_element bool_block 1 (session bool (lines [line "maybe"; line "true"]))
  = Done true (mkWorld (mkStream [newline] false false true)
                 [CExtract (Some false) false; CClear; CIgnore 80 newline;
                  COut (element_type_message bool_block);
                  CExtract (Some true) true]).
Proof.
  unfold read_element.
  split; [|split; [|split; [|split; [|split; [|split]]]]]; try reflexivity.
  - rewrite read_is_attempt, attempt_unfold. simpl.
    now rewrite read_loop_good.
  - rewrite read_is_attempt, attempt_unfold. simpl.
    now rewrite read_loop_good.
  - assert (E : extract_alpha bool_block (typed (line "1" ++ newline :: rest))
                = (mkStream (line "1" ++ newline :: rest) false true true,
                   Some false))
      by (unfold extract_alpha, formatted; simpl; now rewrite Nat.leb_refl).
    rewrite read_is_attempt, attempt_unfold. unfold session. cbn [cin history].
    rewrite E. cbn [fst snd assign]. now rewrite read_loop_retry.
  - assert (E : extract_alpha bool_block (typed (line "0" ++ newline :: rest))
                = (mkStream (line "0" ++ newline :: rest) false true true,
                   Some false))
      by (unfold extract_alpha, formatted; simpl; now rewrite Nat.leb_refl).
    rewrite read_is_attempt, attempt_unfold. unfold session. cbn [cin history].
    rewrite E. cbn [fst snd assign]. now rewrite read_loop_retry.
Qed.

(** C2 as stated fails: with [boolalpha] set, "1" is not a boolean input. *)
Lemma numeric_bool_forms_are_rejected :
  ~ (forall t, In t [line "true"; line "false"; line "1"; line "0"] ->
               well_formed (extract_alpha bool_block) t = true).
Proof.
  intros H. specialize (H (line "1")).
  assert (E : well_formed (extract_alpha bool_block) (line "1") = false)
    by reflexivity.
  rewrite H in E; [discriminate|]. simpl. auto.
Qed.

(** ** Bounds *)

(** C8.  The bounds are inclusive at both ends.  On [int], for any bounds,
    the range test rejects exactly the values below [low] or above [high], so
    [low] and [high] themselves are accepted.  The demo on [int], with bounds
    6 and 37, on the inputs "3", "50", "6": 3 and 50 are tested and rejected
    with the range message, 6 is tested, accepted and displayed.  The
    range-checked reader on [float], with bounds 5.5 and 42.8: "5.5" and
    "42.8" are accepted at once, "42.81" is rejected with the range message
    (and the next input, "42.8", accepted). *)
Theorem bounds_are_inclusive :
  (forall low high v : Z,
      int_out_of_range low high v = false <-> (low <= v <= high)%Z) /\
  (forall low high : Z, (low <= high)%Z ->
      int_out_of_range low high low = false /\
      int_out_of_range low high high = false) /\
  demo_int_type_and_range_checking 2
    (session Z (lines [line "3"; line "50"; line "6"]))
  = Done tt
      (mkWorld (typed [newline])
         [COut [Text "Enter a whole number between 6 and 37: "];
          CExtract (Some 3%Z) true; CCompare 3%Z; COut int_range_message;
          CExtract (Some 50%Z) true; CCompare 50%Z; COut int_range_message;
          CExtract (Some 6%Z) true; CCompare 6%Z;
          COut [Text "You entered "; Val 6%Z; Endl; Endl]]) /\
  read_float_in_range 0 (session spec_float (lines [line "5.5"]))
  = Done (to_float false 55 (-1))
      (mkWorld (typed [newline])
         [CExtract (Some (to_float false 55 (-1))) true;
          CCompare (to_float false 55 (-1))]) /\
  read_float_in_range 0 (session spec_float (lines [line "42.8"]))
  = Done (to_float false 428 (-1))
      (mkWorld (typed [newline])
         [CExtract (Some (to_float false 428 (-1))) true;
          CCompare (to_float false 428 (-1))]) /\
  read_float_in_range 1 (session spec_float (lines [line "42.81"; line "42.8"]))
  = Done (to_float false 428 (-1))
      (mkWorld (typed [newline])
         [CExtract (Some (to_float false 4281 (-2))) true;
          CCompare (to_float false 4281 (-2)); COut float_range_message;
          CExtract (Some (to_float false 428 (-1))) true;
          CCompare (to_float false 428 (-1))]).
Proof.
  split; [exact int_in_range_iff|].
  split; [intros low high H; split; apply int_in_range_iff; lia|].
  repeat split; vm_compute; reflexivity.
Qed.

(** The bounds 6 and 37 are accepted. *)
Lemma bounds_are_inclusive_witness :
  int_out_of_range 6 37 6 = false /\ int_out_of_range 6 37 37 = false.
Proof.
  apply (proj1 (proj2 bounds_are_inclusive) 6%Z 37%Z). lia.
Defined.

(** ** The arithmetic of [float] and [double] values *)

Lemma shr_1_nonneg (mrs : shr_record) :
  (0 <= shr_m mrs)%Z -> (0 <= shr_m (shr_1 mrs))%Z.
Proof.
  destruct mrs as [m r s]. simpl. destruct m as [|p|p]; simpl; try lia.
  - destruct p; simpl; lia.
Qed.

Lemma iter_shr_1_nonneg (p : positive) :
  forall mrs, (0 <= shr_m mrs)%Z -> (0 <= shr_m (iter_pos shr_1 p mrs))%Z.
Proof.
  induction p as [p IH|p IH|]; intros mrs H; simpl.
  - apply IH, IH, shr_1_nonneg, H.
  - apply IH, IH, H.
  - apply shr_1_nonneg, H.
Qed.

Lemma shr_fexp_nonneg (prec emax m e : Z) (l : location) :
  (0 <= m)%Z -> (0 <= shr_m (fst (shr_fexp prec emax m e l)))%Z.
Proof.
  intros H. unfold shr_fexp, shr.
  assert (H0 : (0 <= shr_m (shr_record_of_loc m l))%Z)
    by (destruct l as [|[]]; exact H).
  destruct (fexp prec emax (Zdigits2 m + e) - e)%Z; simpl; auto.
  now apply iter_shr_1_nonneg.
Qed.

Lemma round_nearest_even_nonneg (m : Z) (l : location) :
  (0 <= m)%Z -> (0 <= round_nearest_even m l)%Z.
Proof.
  intros H. destruct l as [|[]]; simpl; try lia.
  destruct (Z.even m); lia.
Qed.

Lemma binary_round_aux_not_nan (prec emax : Z) (sx : bool) (mx ex : Z) (lx : location) :
  (0 <= mx)%Z -> binary_round_aux prec emax sx mx ex lx <> S754_nan.
Proof.
  intros H. unfold binary_round_aux.
  pose proof (@shr_fexp_nonneg prec emax mx ex lx H) as H1.
  destruct (shr_fexp prec emax mx ex lx) as [mrs' e']. simpl in H1.
  pose proof (@shr_fexp_nonneg prec emax _ e' loc_Exact
                (@round_nearest_even_nonneg _ (loc_of_shr_record mrs') H1)) as H2.
  destruct (shr_fexp prec emax (round_nearest_even (shr_m mrs') (loc_of_shr_record mrs')) e' loc_Exact) as [mrs'' e''].
  simpl in H2. destruct (shr_m mrs''); try discriminate; [|lia].
  destruct (e'' <=? emax - prec)%Z; discriminate.
Qed.

Lemma SFdiv_finite_not_nan (prec emax : Z) (sx sy : bool) (mx my : positive) (ex ey : Z) :
  SFdiv prec emax (S754_finite sx mx ex) (S754_finite sy my ey) <> S754_nan.
Proof.
  unfold SFdiv.
  destruct (SFdiv_core_binary prec emax (Z.pos mx) ex (Z.pos my) ey) as [[mz ez] lz] eqn:E.
  apply binary_round_aux_not_nan.
  unfold SFdiv_core_binary in E.
  match type of E with
  | (let '(q, r) := Z.div_eucl ?a ?b in _) = _ =>
      assert (Ha : (0 <= a)%Z);
      [| pose proof (Z_div_mod a b eq_refl) as Hd;
         destruct (Z.div_eucl a b) as [q r]; injection E as <- _ _ ]
  end.
  - destruct (ex - ey - _)%Z; try lia. apply Z.shiftl_nonneg. lia.
  - destruct Hd as [Hd1 Hd2]. nia.
Qed.

Lemma binary_normalize_not_nan (prec emax m e : Z) (sz : bool) :
  binary_normalize prec emax m e sz <> S754_nan.
Proof.
  unfold binary_normalize, binary_round.
  destruct m as [|p|p]; [discriminate| |];
    destruct (shl_align p e _) as [mz ez];
    apply binary_round_aux_not_nan; lia.
Qed.

Lemma SFcompare_antisym (a b : spec_float) (c : comparison) :
  SFcompare a b = Some c -> SFcompare b a = Some (CompOpp c).
Proof.
  destruct a as [sa|sa| |sa ma ea], b as [sb|sb| |sb mb eb]; simpl;
    try discriminate;
    try (destruct sa; intros H; injection H as <-; reflexivity);
    try (destruct sb; intros H; injection H as <-; reflexivity);
    try (destruct sa, sb; intros H; injection H as <-; reflexivity).
  intros H. injection H as <-. f_equal.
  rewrite (Z.compare_antisym ea eb).
  pose proof (Pos.compare_cont_antisym ma mb Eq) as P. simpl in P.
  destruct sa, sb; try reflexivity; destruct (ea ?= eb)%Z; simpl;
    try reflexivity; now rewrite P.
Qed.

Lemma SFcompare_some (a b : spec_float) :
  a <> S754_nan -> b <> S754_nan -> exists c, SFcompare a b = Some c.
Proof.
  destruct a, b; simpl; try congruence; eauto.
Qed.

Lemma SFltb_false_iff (a b : spec_float) :
  a <> S754_nan -> b <> S754_nan ->
  (SFltb a b = false <-> SFleb b a = true).
Proof.
  intros Ha Hb. destruct (@SFcompare_some a b Ha Hb) as [c Hc].
  unfold SFltb, SFleb. rewrite Hc, (@SFcompare_antisym a b c Hc).
  destruct c; simpl; split; congruence.
Qed.

Lemma decimal_to_binary_not_nan (prec emax : Z) (neg : bool) (n e10 : Z) :
  decimal_to_binary prec emax neg n e10 <> S754_nan.
Proof.
  unfold decimal_to_binary. destruct (n =? 0)%Z; [discriminate|].
  destruct (0 <=? e10)%Z; apply SFdiv_finite_not_nan.
Qed.

Lemma float_stored_not_nan (neg : bool) (v : spec_float) :
  v <> S754_nan -> snd (float_stored neg v) <> S754_nan.
Proof. destruct v; simpl; auto. discriminate. Qed.

Lemma scan_float_not_nan (a : bool) (b : list ascii) :
  snd (scan_float a b) <> S754_nan.
Proof.
  unfold scan_float.
  destruct (scan_sign b) as [neg b1]. destruct (scan_digits b1) as [ip b2].
  destruct (scan_fraction b2) as [fp b3]. cbv zeta.
  destruct (is_nil ip && is_nil fp); [discriminate|].
  destruct (scan_exponent b3) as [[rest [e|]]|]; [| discriminate |].
  - pose proof (@float_stored_not_nan neg _
                  (@decimal_to_binary_not_nan 24 128 neg
                     (digits_val (ip ++ fp))
                     (e - Z.of_nat (List.length fp)))) as H.
    unfold to_float. destruct (float_stored neg _). exact H.
  - pose proof (@float_stored_not_nan neg _
                  (@decimal_to_binary_not_nan 24 128 neg
                     (digits_val (ip ++ fp))
                     (0 - Z.of_nat (List.length fp)))) as H.
    unfold to_float. destruct (float_stored neg _). exact H.
Qed.

Lemma extract_float_not_nan (s : istream) (v : spec_float) :
  snd (extract_float s) = Some v -> v <> S754_nan.
Proof.
  unfold extract_float, formatted. destruct (good s); [|discriminate].
  destruct (skipws (buf s)) as [|c b]; [discriminate|].
  pose proof (scan_float_not_nan (boolalpha s) (c :: b)) as H.
  destruct (scan_float (boolalpha s) (c :: b)) as [[[rest eof] fail] z].
  simpl in *. congruence.
Qed.

Lemma promote_not_nan (v : spec_float) : v <> S754_nan -> promote v <> S754_nan.
Proof.
  destruct v; simpl; auto. intros _. apply binary_normalize_not_nan.
Qed.

(** On a value that was parsed, the test of the demo on [float] is the
    negation of [5.5 <= userval && userval <= 42.8]. *)
Lemma float_in_range_iff (v : spec_float) :
  v <> S754_nan ->
  float_out_of_range FLOAT_LOW FLOAT_HIGH v = false <->
  SFleb FLOAT_LOW (promote v) = true /\ SFleb (promote v) FLOAT_HIGH = true.
Proof.
  intros Hv. apply promote_not_nan in Hv.
  assert (Hl : FLOAT_LOW <> S754_nan) by apply decimal_to_binary_not_nan.
  assert (Hh : FLOAT_HIGH <> S754_nan) by apply decimal_to_binary_not_nan.
  unfold float_out_of_range. rewrite orb_false_iff.
  rewrite (@SFltb_false_iff (promote v) FLOAT_LOW Hv Hl).
  rewrite (@SFltb_false_iff FLOAT_HIGH (promote v) Hh Hv). tauto.
Qed.

(** ** The first value read by a range-checked reader *)

Section RangeReader.

Variable T : Type.
Variable get : istream -> istream * option T.
Variable type_message : list (item T).
Variable out_of_range : T -> bool.
Variable range_message : list (item T).
Hypothesis get_stores :
  forall s, good (fst (get s)) = true -> exists v, snd (get s) = Some v.

Lemma read_in_range_first (fuel : nat) (w : world T) (v : T) (w1 : world T) :
  read get type_message fuel w = Done v w1 ->
  (out_of_range v = false ->
   read_in_range get type_message out_of_range range_message fuel w
   = Done v (mkWorld (cin w1) (history w1 ++ [CCompare v]))) /\
  (out_of_range v = true ->
   (forall w', read_in_range get type_message out_of_range range_message fuel w
               <> Done v w') /\
   (forall fuel', fuel = S fuel' ->
      read_in_range get type_message out_of_range range_message fuel w
      = (v' <- read get type_message fuel ;;
         range_loop get type_message out_of_range range_message fuel fuel' v')
          (mkWorld (cin w1) (history w1 ++ [CCompare v; COut range_message])))).
Proof.
  intros E. split; intros O.
  - unfold read_in_range, bind. rewrite E. now apply range_loop_accept.
  - split.
    + intros w' E'.
      destruct (@read_in_range_validated T get type_message get_stores
                  out_of_range range_message fuel w) as [_ R].
      destruct (R v w' E') as (_ & O' & _). congruence.
    + intros fuel' ->. unfold read_in_range. unfold bind at 1. rewrite E.
      now apply range_loop_reject.
Qed.

End RangeReader.

(** C1.  Let the type-checked reader deliver the value [v] to the
    range-checked reader.  On [int], for any bounds [low] and [high]: the
    range-checked reader returns [v] if and only if [low <= v <= high]; in
    that case it returns it at once, unchanged, after the test alone; and
    when [v] is out of range it prints the range message and then reads
    again, and what it returns in the end is never [v].  The same on
    [float] with the bounds 5.5 and 42.8 of the demo. *)
Theorem range_reader_returns_iff_in_range :
  (forall (low high : Z) (msg : list (item Z)) (fuel : nat)
          (w : world Z) (v : Z) (w1 : world Z),
      read_int fuel w = Done v w1 ->
      ((exists w', read_int_in_range low high msg fuel w = Done v w')
       <-> (low <= v <= high)%Z) /\
      ((low <= v <= high)%Z ->
       read_int_in_range low high msg fuel w
       = Done v (mkWorld (cin w1) (history w1 ++ [CCompare v]))) /\
      (~ (low <= v <= high)%Z ->
       forall fuel', fuel = S fuel' ->
         read_int_in_range low high msg fuel w
         = (v' <- read_int fuel ;;
            range_loop extract_int int_type_message (int_out_of_range low high)
              msg fuel fuel' v')
             (mkWorld (cin w1) (history w1 ++ [CCompare v; COut msg])))) /\
  (forall (fuel : nat) (w : world spec_float) (v : spec_float)
          (w1 : world spec_float),
      read_float fuel w = Done v w1 ->
      ((exists w', read_float_in_range fuel w = Done v w')
       <-> (SFleb FLOAT_LOW (promote v) = true /\
            SFleb (promote v) FLOAT_HIGH = true)) /\
      ((SFleb FLOAT_LOW (promote v) = true /\
        SFleb (promote v) FLOAT_HIGH = true) ->
       read_float_in_range fuel w
       = Done v (mkWorld (cin w1) (history w1 ++ [CCompare v]))) /\
      (~ (SFleb FLOAT_LOW (promote v) = true /\
          SFleb (promote v) FLOAT_HIGH = true) ->
       forall fuel', fuel = S fuel' ->
         read_float_in_range fuel w
         = (v' <- read_float fuel ;;
            range_loop extract_float float_type_message
              (float_out_of_range FLOAT_LOW FLOAT_HIGH) float_range_message
              fuel fuel' v')
             (mkWorld (cin w1)
                (history w1 ++ [CCompare v; COut float_range_message])))).
Proof.
  split.
  - intros low high msg fuel w v w1 E.
    destruct (@read_in_range_first Z extract_int int_type_message
                (int_out_of_range low high) msg (@formatted_stores Z scan_int)
                fuel w v w1 E) as [A R].
    pose proof (int_in_range_iff low high v) as I.
    destruct (int_out_of_range low high v) eqn:O.
    + destruct (R eq_refl) as [R1 R2].
      assert (N : ~ (low <= v <= high)%Z) by (intros H; apply I in H; discriminate).
      split; [|split].
      * split; [intros [w' E']; now apply R1 in E' | tauto].
      * tauto.
      * intros _. exact R2.
    + assert (Y : (low <= v <= high)%Z) by now apply I.
      split; [|split].
      * split; [tauto | intros _; eexists; now apply A].
      * intros _. now apply A.
      * tauto.
  - intros fuel w v w1 E.
    destruct (@read_in_range_first _ extract_float float_type_message
                (float_out_of_range FLOAT_LOW FLOAT_HIGH) float_range_message
                (@formatted_stores _ scan_float) fuel w v w1 E) as [A R].
    assert (Hv : v <> S754_nan).
    { destruct (@read_done_shape _ extract_float float_type_message
                  (@formatted_stores _ scan_float) fuel w v w1 E)
        as (_ & _ & s & _ & Hs).
      now apply extract_float_not_nan in Hs. }
    pose proof (float_in_range_iff Hv) as I.
    destruct (float_out_of_range FLOAT_LOW FLOAT_HIGH v) eqn:O.
    + destruct (R eq_refl) as [R1 R2].
      assert (N : ~ (SFleb FLOAT_LOW (promote v) = true /\
                     SFleb (promote v) FLOAT_HIGH = true))
        by (intros H; apply I in H; discriminate).
      split; [|split].
      * split; [intros [w' E']; now apply R1 in E' | tauto].
      * tauto.
      * intros _. exact R2.
    + assert (Y : SFleb FLOAT_LOW (promote v) = true /\
                  SFleb (promote v) FLOAT_HIGH = true) by now apply I.
      split; [|split].
      * split; [tauto | intros _; eexists; now apply A].
      * intros _. now apply A.
      * tauto.
Qed.

(** With the bounds 6 and 37 and the input "10": 10 is returned at once. *)
Lemma range_reader_returns_iff_in_range_witness :
  read_int_in_range 6 37 int_range_message 0 (session Z (lines [line "10"]))
  = Done 10%Z
      (mkWorld (cin (mkWorld (typed [newline]) [CExtract (Some 10%Z) true]))
         (history (mkWorld (typed [newline]) [CExtract (Some 10%Z) true])
          ++ [CCompare 10%Z])).
Proof.
  refine (proj1 (proj2 (proj1 range_reader_returns_iff_in_range
                          6%Z 37%Z int_range_message 0%nat
                          (session Z (lines [line "10"])) 10%Z
                          (mkWorld (typed [newline]) [CExtract (Some 10%Z) true])
                          _)) _).
  - vm_compute. reflexivity.
  - lia.
Defined.

(** ** Recovery *)

Lemma rejected_rounds_app (T : Type) (tm rm : list (item T))
    (a b : list (list (option T) * T)) :
  rejected_rounds tm rm (a ++ b)
  = rejected_rounds tm rm a ++ rejected_rounds tm rm b.
Proof.
  induction a as [|[sts v] a IH]; [reflexivity|].
  cbn [app rejected_rounds]. rewrite IH, <- !app_assoc. reflexivity.
Qed.

Section Recovery.

Variable T : Type.
Variable get : istream -> istream * option T.
Variable type_message : list (item T).
Variable out_of_range : T -> bool.
Variable range_message : list (item T).

Hypothesis get_stores :
  forall s, good (fst (get s)) = true -> exists v, snd (get s) = Some v.

#[local] Abbreviation read' := (read get type_message).
#[local] Abbreviation range_loop' :=
  (range_loop get type_message out_of_range range_message).
#[local] Abbreviation read_in_range' :=
  (read_in_range get type_message out_of_range range_message).
#[local] Abbreviation rounds' := (rejected_rounds type_message range_message).
#[local] Abbreviation failed_run' := (failed_run type_message).

Lemma read_recovers (fuel : nat) (w : world T) :
  reader_recovers type_message (history w) (read' fuel w).
Proof.
  rewrite read_is_attempt.
  destruct (@attempt_outcome T get type_message get_stores fuel None w)
    as [(v & w' & sts & E & H & _) | (w' & sts & st & E & H & _)];
    rewrite E; exists sts; eauto.
Qed.

Lemma range_loop_recovers (rfuel fuel : nat) :
  forall (v : T) (w : world T) (h : list (call T))
         (rs0 : list (list (option T) * T)) (sts0 : list (option T)),
    Forall (fun round => out_of_range (snd round) = true) rs0 ->
    history w = h ++ rounds' rs0 ++ failed_run' sts0 ++ [CExtract (Some v) true] ->
    range_reader_recovers type_message out_of_range range_message h
      (range_loop' rfuel fuel v w).
Proof.
  induction fuel as [|fuel IH]; intros v w h rs0 sts0 Hrs Hh;
    destruct (out_of_range v) eqn:O.
  - rewrite range_loop_stop by exact O. exists rs0, sts0. split; [exact Hrs|].
    right. exists v. split; [exact O|]. cbn [history]. rewrite Hh.
    rewrite <- !app_assoc. reflexivity.
  - rewrite range_loop_accept by exact O. exists rs0, sts0.
    split; [exact Hrs|]. split; [exact O|]. cbn [history]. rewrite Hh.
    rewrite <- !app_assoc. reflexivity.
  - rewrite range_loop_reject by exact O.
    set (w1 := mkWorld (cin w) (history w ++ [CCompare v; COut range_message])).
    assert (Hrs1 : Forall (fun round => out_of_range (snd round) = true)
                     (rs0 ++ [(sts0, v)])).
    { apply Forall_app. split; [exact Hrs|]. constructor; [exact O|constructor]. }
    assert (Hh1 : history w1 = h ++ rounds' (rs0 ++ [(sts0, v)])).
    { unfold w1. cbn [history]. rewrite Hh, rejected_rounds_app.
      cbn [rejected_rounds]. rewrite <- !app_assoc. cbn [app].
      reflexivity. }
    unfold bind. rewrite read_is_attempt.
    destruct (@attempt_outcome T get type_message get_stores rfuel None w1)
      as [(v1 & w2 & sts1 & E & H & _) | (w2 & sts1 & st & E & H & _)];
      rewrite E.
    + apply (IH v1 w2 h (rs0 ++ [(sts0, v)]) sts1 Hrs1).
      rewrite H, Hh1, <- !app_assoc. reflexivity.
    + exists (rs0 ++ [(sts0, v)]), sts1. split; [exact Hrs1|].
      left. exists st. rewrite H, Hh1, <- !app_assoc. reflexivity.
  - rewrite range_loop_accept by exact O. exists rs0, sts0.
    split; [exact Hrs|]. split; [exact O|]. cbn [history]. rewrite Hh.
    rewrite <- !app_assoc. reflexivity.
Qed.

Lemma read_in_range_recovers (fuel : nat) (w : world T) :
  range_reader_recovers type_message out_of_range range_message (history w)
    (read_in_range' fuel w).
Proof.
  unfold read_in_range, bind. rewrite read_is_attempt.
  destruct (@attempt_outcome T get type_message get_stores fuel None w)
    as [(v & w' & sts & E & H & _) | (w' & sts & st & E & H & _)];
    rewrite E.
  - apply (@range_loop_recovers fuel fuel v w' (history w) [] sts);
      [constructor | exact H].
  - exists [], sts. split; [constructor|]. left. exists st. exact H.
Qed.

End Recovery.

(** C5.  The readers have no failing return path, and they recover from
    every error by asking again.
    - A run of [read_int], [read_float] or [read_element] never ends on an
      unassigned variable; its calls are failed extractions, each followed by
      reset, discard, the message of the reader and a new extraction, and a
      last extraction: the one that stored the value returned, or, when the
      iterations allowed are used up, a failed one.  When the run returns,
      the stream is good and the value is the one a successful extraction
      stored (for [read_int], a value that fits an [int]).
    - A run of a range-checked reader never ends on an unassigned variable
      either; its calls are rounds of the reader that ended on a value out of
      range, each followed by the message of the demo and a new round, and a
      last round.  When the run returns, the stream is good, the value is
      the one a successful extraction stored, and it is within the bounds:
      [low <= v <= high] on [int]; from 5.5 to 42.8, as [double]s, on
      [float]; neither less than [ELEMENT_LOW] nor greater than
      [ELEMENT_HIGH] on [element], which is [17 <= v <= 52] for the block of
      the program. *)
Theorem readers_return_validated_values (fuel : nat) :
  (forall (w : world Z),
      is_undefined (read_int fuel w) = false /\
      reader_recovers int_type_message (history w) (read_int fuel w) /\
      forall v w', read_int fuel w = Done v w' ->
        good (cin w') = true /\ (INT_MIN <= v <= INT_MAX)%Z /\
        exists s, fst (extract_int s) = cin w' /\ snd (extract_int s) = Some v) /\
  (forall (w : world spec_float),
      is_undefined (read_float fuel w) = false /\
      reader_recovers float_type_message (history w) (read_float fuel w) /\
      forall v w', read_float fuel w = Done v w' ->
        good (cin w') = true /\
        exists s, fst (extract_float s) = cin w' /\
                  snd (extract_float s) = Some v) /\
  (forall (blk : element_block) (w : world (element blk)),
      is_undefined (read_element blk fuel w) = false /\
      reader_recovers (element_type_message blk) (history w)
        (read_element blk fuel w) /\
      forall v w', read_element blk fuel w = Done v w' ->
        good (cin w') = true /\
        exists s, fst (extract_alpha blk s) = cin w' /\
                  snd (extract_alpha blk s) = Some v) /\
  (forall (low high : Z) (msg : list (item Z)) (w : world Z),
      is_undefined (read_int_in_range low high msg fuel w) = false /\
      range_reader_recovers int_type_message (int_out_of_range low high) msg
        (history w) (read_int_in_range low high msg fuel w) /\
      forall v w', read_int_in_range low high msg fuel w = Done v w' ->
        good (cin w') = true /\ (low <= v <= high)%Z /\
        (INT_MIN <= v <= INT_MAX)%Z /\
        exists s, fst (extract_int s) = cin w' /\ snd (extract_int s) = Some v) /\
  (forall (w : world spec_float),
      is_undefined (read_float_in_range fuel w) = false /\
      range_reader_recovers float_type_message
        (float_out_of_range FLOAT_LOW FLOAT_HIGH) float_range_message
        (history w) (read_float_in_range fuel w) /\
      forall v w', read_float_in_range fuel w = Done v w' ->
        good (cin w') = true /\
        SFleb FLOAT_LOW (promote v) = true /\
        SFleb (promote v) FLOAT_HIGH = true /\
        exists s, fst (extract_float s) = cin w' /\
                  snd (extract_float s) = Some v) /\
  (forall (blk : element_block) (w : world (element blk)),
      is_undefined (read_element_in_range blk fuel w) = false /\
      range_reader_recovers (element_type_message blk)
        (element_out_of_range blk) (element_range_message blk)
        (history w) (read_element_in_range blk fuel w) /\
      forall v w', read_element_in_range blk fuel w = Done v w' ->
        good (cin w') = true /\
        element_lt blk v (ELEMENT_LOW blk) = false /\
        element_lt blk (ELEMENT_HIGH blk) v = false /\
        exists s, fst (extract_alpha blk s) = cin w' /\
                  snd (extract_alpha blk s) = Some v) /\
  (forall (w : world Z) v w',
      read_element_in_range int_block fuel w = Done v w' ->
      (17 <= v <= 52)%Z).
Proof.
  split; [|split; [|split; [|split; [|split; [|split]]]]].
  - intros w.
    destruct (@read_validated Z extract_int int_type_message
                (@formatted_stores Z scan_int) fuel w) as [U R].
    split; [exact U|]. split.
    { exact (@read_recovers Z extract_int int_type_message
               (@formatted_stores Z scan_int) fuel w). }
    intros v w' E. destruct (R v w' E) as (G & s & Hs & Hv).
    split; [exact G|]. split; [|eauto]. now apply extract_int_bounds in Hv.
  - intros w.
    destruct (@read_validated _ extract_float float_type_message
                (@formatted_stores _ scan_float) fuel w) as [U R].
    split; [exact U|]. split; [|exact R].
    exact (@read_recovers _ extract_float float_type_message
             (@formatted_stores _ scan_float) fuel w).
  - intros blk w.
    destruct (@read_validated _ (extract_alpha blk) (element_type_message blk)
                (@extract_alpha_stores blk) fuel w) as [U R].
    split; [exact U|]. split; [|exact R].
    exact (@read_recovers _ (extract_alpha blk) (element_type_message blk)
             (@extract_alpha_stores blk) fuel w).
  - intros low high msg w.
    destruct (@read_in_range_validated Z extract_int int_type_message
                (@formatted_stores Z scan_int) (int_out_of_range low high) msg
                fuel w) as [U R].
    split; [exact U|]. split.
    { exact (@read_in_range_recovers Z extract_int int_type_message
               (int_out_of_range low high) msg
               (@formatted_stores Z scan_int) fuel w). }
    intros v w' E.
    destruct (R v w' E) as (G & O & s & Hs & Hv).
    split; [exact G|]. split; [now apply int_in_range_iff|].
    split; [|eauto]. now apply extract_int_bounds in Hv.
  - intros w.
    destruct (@read_in_range_validated _ extract_float float_type_message
                (@formatted_stores _ scan_float)
                (float_out_of_range FLOAT_LOW FLOAT_HIGH) float_range_message
                fuel w) as [U R].
    split; [exact U|]. split.
    { exact (@read_in_range_recovers _ extract_float float_type_message
               (float_out_of_range FLOAT_LOW FLOAT_HIGH) float_range_message
               (@formatted_stores _ scan_float) fuel w). }
    intros v w' E. destruct (R v w' E) as (G & O & s & Hs & Hv).
    apply (float_in_range_iff (extract_float_not_nan _ Hv)) in O.
    destruct O as [O1 O2]. repeat split; eauto.
  - intros blk w.
    destruct (@read_in_range_validated _ (extract_alpha blk)
                (element_type_message blk) (@extract_alpha_stores blk)
                (element_out_of_range blk) (element_range_message blk)
                fuel w) as [U R].
    split; [exact U|]. split.
    { exact (@read_in_range_recovers _ (extract_alpha blk)
               (element_type_message blk) (element_out_of_range blk)
               (element_range_message blk) (@extract_alpha_stores blk)
               fuel w). }
    intros v w' E. destruct (R v w' E) as (G & O & s & Hs & Hv).
    unfold element_out_of_range in O. apply orb_false_iff in O.
    destruct O as [O1 O2]. repeat split; eauto.
  - intros w v w' E.
    destruct (@read_in_range_validated _ (extract_alpha int_block)
                (element_type_message int_block)
                (@extract_alpha_stores int_block)
                (element_out_of_range int_block)
                (element_range_message int_block) fuel w) as [_ R].
    destruct (R v w' E) as (_ & O & _).
    unfold element_out_of_range in O. apply orb_false_iff in O.
    destruct O as [O1 O2]. cbn [element_lt int_block ELEMENT_LOW ELEMENT_HIGH]
      in O1, O2.
    apply Z.ltb_ge in O1. apply Z.ltb_ge in O2. lia.
Qed.

(** On the inputs "pizza", "50", "6" the range-checked reader for 6 to 37
    returns 6 with the stream good. *)
Lemma readers_return_validated_values_witness :
  exists v w',
    read_int_in_range 6 37 int_range_message 2
      (session Z (lines [line "pizza"; line "50"; line "6"])) = Done v w' /\
    good (cin w') = true /\ (6 <= v <= 37)%Z /\ (INT_MIN <= v <= INT_MAX)%Z /\
    exists s, fst (extract_int s) = cin w' /\ snd (extract_int s) = Some v.
Proof.
  eexists _, _. split; [vm_compute; reflexivity|].
  destruct (readers_return_validated_values 2) as (_ & _ & _ & R & _).
  apply (proj2 (proj2 (R 6%Z 37%Z int_range_message
                         (session Z (lines [line "pizza"; line "50"; line "6"]))))).
  vm_compute. reflexivity.
Defined.

(** * Sessions of the demos and of [main] *)

(** ** Measures of a history *)

Lemma compares_app (T : Type) (h l : list (call T)) :
  compares (h ++ l) = (compares h + compares l)%nat.
Proof. unfold compares. now rewrite filter_app, length_app. Qed.

Lemma entered_app (T : Type) (h l : list (call T)) :
  entered (h ++ l) = entered h ++ entered l.
Proof. unfold entered. apply flat_map_app. Qed.

Lemma prompts_map (T U : Type) (f : T -> U) (h : list (call T)) :
  prompts (map (map_call f) h) = prompts h.
Proof.
  unfold prompts. induction h as [|c h IH]; [reflexivity|].
  destruct c; simpl; auto.
Qed.

Lemma entered_map (T U : Type) (f : T -> U) (h : list (call T)) :
  entered (map (map_call f) h) = map f (entered h).
Proof.
  unfold entered. induction h as [|c h IH]; [reflexivity|].
  cbn [map flat_map]. rewrite IH, map_app. f_equal.
  destruct c as [st ok| | |items|v]; try reflexivity.
  destruct items as [|[s|v|] [|[s2|v2|] [|[s3|v3|] [|[s4|v4|] [|i5 items]]]]];
    reflexivity.
Qed.

Lemma outputs_app (T : Type) (h l : list (call T)) :
  outputs (h ++ l) = outputs h ++ outputs l.
Proof. unfold outputs. apply flat_map_app. Qed.


Lemma prompts_outputs (T : Type) (h : list (call T)) :
  prompts h = List.length (outputs h).
Proof.
  unfold prompts, outputs. induction h as [|c h IH]; [reflexivity|].
  destruct c; simpl; auto.
Qed.

Section Sessions.

Variable T : Type.
Variable scan : bool -> list ascii -> list ascii * bool * bool * T.
Variable pre : istream -> istream.
Variable type_message : list (item T).
Variable out_of_range : T -> bool.
Variable range_message : list (item T).

#[local] Abbreviation get := (fun s : istream => formatted scan (pre s)).

Hypothesis pre_buf : forall s, buf (pre s) = buf s.
Hypothesis pre_eof : forall s, eofbit (pre s) = eofbit s.
Hypothesis pre_fail : forall s, failbit (pre s) = failbit s.
Hypothesis pre_flag :
  forall s s' b, scan (boolalpha (pre s)) b = scan (boolalpha (pre s')) b.
Hypothesis scan_line :
  forall a u, no_newline u = true ->
    exists r fail v,
      (forall rest,
          scan a (u ++ newline :: rest) = (r ++ newline :: rest, false, fail, v))
      /\ (List.length r <= List.length u)%nat /\ no_newline r = true.

(* the messages of the readers are not display statements *)
Hypothesis type_message_shown : entered_by (COut type_message) = [].
Hypothesis range_message_shown : entered_by (COut range_message) = [].

#[local] Abbreviation attempt' := (attempt get type_message).
#[local] Abbreviation read' := (read get type_message).
#[local] Abbreviation range_loop' :=
  (range_loop get type_message out_of_range range_message).
#[local] Abbreviation read_in_range' :=
  (read_in_range get type_message out_of_range range_message).

Lemma get_stores' (s : istream) :
  good (fst (get s)) = true -> exists v, snd (get s) = Some v.
Proof. apply formatted_stores. Qed.

Lemma failed_run_measures (sts : list (option T)) :
  compares (failed_run type_message sts) = 0%nat /\
  entered (failed_run type_message sts) = [].
Proof.
  induction sts as [|st sts [IH1 IH2]]; [split; reflexivity|].
  split.
  - exact IH1.
  - cbn [failed_run]. unfold entered in *. cbn [flat_map].
    rewrite type_message_shown, IH2. reflexivity.
Qed.

Lemma failed_run_outputs (sts : list (option T)) :
  outputs (failed_run type_message sts)
  = repeat type_message (List.length sts).
Proof.
  induction sts as [|st sts IH]; [reflexivity|].
  cbn [failed_run List.length repeat]. unfold outputs in *.
  cbn [flat_map output_of app]. now rewrite IH.
Qed.

(** The output statements of a reader that returns are its retry prompts. *)
Lemma attempt_transcript (fuel : nat) (u : option T) (w : world T) (v : T)
    (w' : world T) (n : nat) :
  attempt' fuel u w = Done v w' ->
  prompts (history w') = (prompts (history w) + n)%nat ->
  outputs (history w') = outputs (history w) ++ repeat type_message n.
Proof.
  intros E P.
  destruct (@attempt_outcome T get type_message get_stores' fuel u w)
    as [(v1 & w1 & sts & E1 & H & _) | (w1 & sts & st' & E1 & _)];
    rewrite E1 in E; [|discriminate].
  injection E as <- <-.
  rewrite H, !prompts_outputs, !outputs_app, failed_run_outputs in P.
  rewrite !length_app, repeat_length in P. cbn in P.
  rewrite H, !outputs_app, failed_run_outputs. cbn. rewrite app_nil_r.
  replace n with (List.length sts) by lia. reflexivity.
Qed.

Lemma message_for_malformed (ts : list (list ascii)) :
  Forall (fun t => malformed get t = true /\ (List.length t <= 80)%nat) ts ->
  map (message_for get type_message range_message) ts
  = repeat type_message (List.length ts).
Proof.
  induction 1 as [|t ts [Hm _] _ IH]; [reflexivity|].
  cbn [map List.length repeat]. unfold message_for at 1. now rewrite Hm, IH.
Qed.

Lemma message_for_well_formed (t : list ascii) :
  well_formed get t = true ->
  message_for get type_message range_message t = range_message.
Proof.
  unfold message_for, malformed, well_formed. intros H.
  apply andb_true_iff in H. destruct H as [-> ->]. reflexivity.
Qed.

(** The calls of a reader are neither range tests nor display statements. *)
Lemma attempt_measures (fuel : nat) (u : option T) (w : world T) (v : T)
    (w' : world T) :
  attempt' fuel u w = Done v w' ->
  compares (history w') = compares (history w) /\
  entered (history w') = entered (history w).
Proof.
  intros E.
  destruct (@attempt_outcome T get type_message get_stores' fuel u w)
    as [(v1 & w1 & sts & E1 & H & _) | (w1 & sts & st' & E1 & _)];
    rewrite E1 in E; [|discriminate].
  injection E as <- <-. rewrite H.
  destruct (failed_run_measures sts) as [C S].
  rewrite !compares_app, !entered_app, C, S. simpl.
  rewrite app_nil_r. split; [unfold compares; simpl; lia | reflexivity].
Qed.

(** Malformed lines and a well-formed line, read from any point of a session
    at which only whitespace precedes them. *)
Lemma attempt_session (ts : list (list ascii)) (t rest ws : list ascii)
    (fuel : nat) (u : option T) (w : world T) :
  Forall (fun t => malformed get t = true /\ (List.length t <= 80)%nat) ts ->
  well_formed get t = true ->
  good (cin w) = true ->
  buf (cin w) = ws ++ lines ts ++ t ++ newline :: rest ->
  all_space ws = true ->
  (List.length ts <= fuel)%nat ->
  exists v w',
    attempt' fuel u w = Done v w' /\
    value_of get t = Some v /\
    good (cin w') = true /\
    buf (cin w') = left_of get t ++ rest /\
    prompts (history w') = (prompts (history w) + List.length ts)%nat /\
    compares (history w') = compares (history w) /\
    entered (history w') = entered (history w).
Proof.
  intros Hts Hwf G Hb Hws Hf.
  destruct (@attempt_skip T scan pre type_message pre_buf pre_eof pre_fail
              pre_flag scan_line ts Hts fuel u w ws (t ++ newline :: rest)
              G Hb Hws) as [H1 _].
  destruct (H1 Hf) as (u' & w1 & ws' & E & G1 & Hb1 & Hws1 & P).
  destruct (@attempt_well_formed T scan pre type_message pre_buf pre_eof
              pre_fail pre_flag scan_line (fuel - List.length ts) u' w1 ws' t
              rest G1 Hb1 Hws1 Hwf) as (v & w2 & E2 & Hv & Hh & Hb2 & G2).
  exists v, w2. rewrite E.
  destruct (@attempt_measures fuel u w v w2) as [C S]; [now rewrite E|].
  repeat split; auto.
  rewrite Hh, prompts_app, P. unfold prompts at 2. simpl. lia.
Qed.

(** The type-checking demo on an answer. *)
Lemma demo_type_session (prompt : list (item T))
    (ts : list (list ascii)) (t rest ws : list ascii)
    (fuel : nat) (w : world T) :
  entered_by (COut prompt) = [] ->
  Forall (fun t => malformed get t = true /\ (List.length t <= 80)%nat) ts ->
  well_formed get t = true ->
  good (cin w) = true ->
  buf (cin w) = ws ++ lines ts ++ t ++ newline :: rest ->
  all_space ws = true ->
  (List.length ts <= fuel)%nat ->
  exists v w',
    demo_type_checking get type_message prompt fuel w = Done tt w' /\
    value_of get t = Some v /\
    good (cin w') = true /\
    buf (cin w') = left_of get t ++ rest /\
    prompts (history w') = (prompts (history w) + List.length ts + 2)%nat /\
    compares (history w') = compares (history w) /\
    entered (history w') = entered (history w) ++ [v] /\
    outputs (history w')
    = outputs (history w)
      ++ prompt :: repeat type_message (List.length ts) ++ [display v].
Proof.
  intros Hp Hts Hwf G Hb Hws Hf.
  unfold demo_type_checking, bind. unfold cout_put at 1.
  set (w1 := mkWorld (cin w) (record_call (COut prompt) w)).
  destruct (@attempt_session ts t rest ws fuel None w1 Hts Hwf G Hb Hws Hf)
    as (v & w2 & E & Hv & G2 & Hb2 & P & C & S).
  pose proof (@attempt_transcript _ _ _ _ _ _ E P) as O.
  change (read get type_message fuel w1) with (attempt' fuel None w1).
  rewrite E. exists v. eexists. split; [reflexivity|].
  unfold cout_put, record_call. cbn [cin history].
  rewrite prompts_app, compares_app, entered_app, outputs_app, P, C, S, O.
  unfold w1, record_call. cbn [history].
  rewrite prompts_app, compares_app, entered_app, outputs_app.
  unfold entered at 2 3. cbn [flat_map]. rewrite Hp.
  repeat split; auto.
  - unfold prompts at 2 3. simpl. lia.
  - unfold compares at 2 3. simpl. lia.
  - cbn [entered_by app]. now rewrite !app_nil_r.
  - unfold outputs at 2 3. cbn [flat_map output_of app].
    rewrite <- !app_assoc. reflexivity.
Qed.

Lemma malformed_not_well_formed (t : list ascii) :
  malformed get t = true -> well_formed get t = false.
Proof.
  unfold malformed, well_formed. intros H.
  apply andb_true_iff in H. destruct H as [_ H]. apply negb_true_iff in H.
  rewrite H. apply andb_false_r.
Qed.

Lemma no_out_among_malformed (ts : list (list ascii)) :
  Forall (fun t => malformed get t = true /\ (List.length t <= 80)%nat) ts ->
  filter (out_of_range_line get out_of_range) ts = [].
Proof.
  induction 1 as [|t ts [Hm _] _ IH]; [reflexivity|].
  simpl. unfold out_of_range_line at 1.
  now rewrite (malformed_not_well_formed _ Hm).
Qed.

(** The lines that a range-checked reader rejects: all malformed, or
    malformed ones up to a first line out of range. *)
Lemma split_rejected (ls : list (list ascii)) :
  Forall (fun l => rejected_line get out_of_range l = true) ls ->
  Forall (fun t => malformed get t = true /\ (List.length t <= 80)%nat) ls \/
  exists ts o ls',
    ls = ts ++ o :: ls' /\
    Forall (fun t => malformed get t = true /\ (List.length t <= 80)%nat) ts /\
    out_of_range_line get out_of_range o = true /\
    Forall (fun l => rejected_line get out_of_range l = true) ls'.
Proof.
  induction 1 as [|l ls Hl Hls IH]; [left; constructor|].
  destruct (out_of_range_line get out_of_range l) eqn:O.
  - right. exists [], l, ls. auto.
  - unfold rejected_line in Hl. rewrite O, orb_false_r in Hl.
    apply andb_true_iff in Hl. destruct Hl as [Hm Hn].
    apply Nat.leb_le in Hn.
    destruct IH as [IH | (ts & o & ls' & -> & Hts & Ho & Hls')].
    + left. constructor; auto.
    + right. exists (l :: ts), o, ls'. repeat split; auto.
Qed.

Lemma lines_app (a b : list (list ascii)) : lines (a ++ b) = lines a ++ lines b.
Proof.
  induction a as [|t a IH]; [reflexivity|].
  simpl. rewrite IH, <- app_assoc. reflexivity.
Qed.

(** The range-checked reader on an answer: every rejected line costs one
    message, every well-formed line one range test, and the value of the
    first line in range is returned. *)
Lemma range_session (t rest : list ascii) :
  in_range_line get out_of_range t = true ->
  forall (n : nat) (ls : list (list ascii)),
    (List.length ls <= n)%nat ->
    Forall (fun l => rejected_line get out_of_range l = true) ls ->
    forall (rfuel fuel : nat) (w : world T) (ws : list ascii),
      (List.length ls <= rfuel)%nat ->
      (List.length ls <= fuel)%nat ->
      good (cin w) = true ->
      buf (cin w) = ws ++ lines ls ++ t ++ newline :: rest ->
      all_space ws = true ->
      exists v w',
        (v0 <- read' rfuel ;; range_loop' rfuel fuel v0) w = Done v w' /\
        value_of get t = Some v /\
        out_of_range v = false /\
        good (cin w') = true /\
        buf (cin w') = left_of get t ++ rest /\
        prompts (history w') = (prompts (history w) + List.length ls)%nat /\
        compares (history w')
        = (compares (history w)
           + S (List.length (filter (out_of_range_line get out_of_range) ls)))%nat
        /\ entered (history w') = entered (history w)
        /\ outputs (history w')
           = outputs (history w)
             ++ map (message_for get type_message range_message) ls.
Proof.
  intros Hin. unfold in_range_line in Hin.
  apply andb_true_iff in Hin. destruct Hin as [Hwf Hin].
  induction n as [|n IH]; intros ls Hn Hls rfuel fuel w ws Hr Hf G Hb Hws;
    (destruct (split_rejected Hls)
      as [Hts | (ts & o & ls' & -> & Hts & Ho & Hls')]).
  - destruct (@attempt_session ls t rest ws rfuel None w Hts Hwf G Hb Hws Hr)
      as (v & w1 & E & Hv & G1 & Hb1 & P & C & S).
    rewrite Hv in Hin. apply negb_true_iff in Hin.
    pose proof (@attempt_transcript _ _ _ _ _ _ E P) as O.
    exists v. eexists. unfold bind.
    change (read' rfuel w) with (attempt' rfuel None w). rewrite E.
    rewrite range_loop_accept by exact Hin. split; [reflexivity|].
    cbn [cin history].
    rewrite prompts_app, compares_app, entered_app, outputs_app, P, C, S, O.
    rewrite (no_out_among_malformed Hts), (message_for_malformed Hts).
    change (prompts [CCompare v]) with 0%nat.
    change (compares [CCompare v]) with 1%nat.
    change (entered [CCompare v]) with (@nil T).
    change (outputs [CCompare v]) with (@nil (list (item T))).
    rewrite !app_nil_r. cbn [List.length]. repeat split; auto; lia.
  - rewrite length_app in Hn. simpl in Hn. lia.
  - destruct (@attempt_session ls t rest ws rfuel None w Hts Hwf G Hb Hws Hr)
      as (v & w1 & E & Hv & G1 & Hb1 & P & C & S).
    rewrite Hv in Hin. apply negb_true_iff in Hin.
    pose proof (@attempt_transcript _ _ _ _ _ _ E P) as O.
    exists v. eexists. unfold bind.
    change (read' rfuel w) with (attempt' rfuel None w). rewrite E.
    rewrite range_loop_accept by exact Hin. split; [reflexivity|].
    cbn [cin history].
    rewrite prompts_app, compares_app, entered_app, outputs_app, P, C, S, O.
    rewrite (no_out_among_malformed Hts), (message_for_malformed Hts).
    change (prompts [CCompare v]) with 0%nat.
    change (compares [CCompare v]) with 1%nat.
    change (entered [CCompare v]) with (@nil T).
    change (outputs [CCompare v]) with (@nil (list (item T))).
    rewrite !app_nil_r. cbn [List.length]. repeat split; auto; lia.
  - rewrite length_app in Hn, Hr, Hf. cbn [List.length] in Hn, Hr, Hf.
    unfold out_of_range_line in Ho.
    apply andb_true_iff in Ho. destruct Ho as [Ho Hov].
    apply andb_true_iff in Ho. destruct Ho as [Howf Hol].
    rewrite lines_app, <- app_assoc, lines_cons in Hb.
    assert (Hrt : (List.length ts <= rfuel)%nat) by lia.
    destruct (@attempt_session ts o (lines ls' ++ t ++ newline :: rest) ws
                rfuel None w Hts Howf G Hb Hws Hrt)
      as (vo & w1 & E & Hvo & G1 & Hb1 & P & C & S).
    rewrite Hvo in Hov.
    destruct fuel as [|fuel]; [lia|].
    set (w2 := mkWorld (cin w1)
                 (history w1 ++ [CCompare vo; COut range_message])).
    destruct (IH ls' ltac:(lia) Hls' rfuel fuel w2 (left_of get o)
                ltac:(lia) ltac:(lia) G1 Hb1 Hol)
      as (v & w3 & E3 & Hv & Hoor & G3 & Hb3 & P3 & C3 & S3 & O3).
    pose proof (@attempt_transcript _ _ _ _ _ _ E P) as O.
    exists v, w3. unfold bind at 1.
    change (read' rfuel w) with (attempt' rfuel None w). rewrite E.
    rewrite range_loop_reject by exact Hov. fold w2. rewrite E3.
    repeat split; auto.
    + rewrite P3. unfold w2. cbn [history]. rewrite prompts_app, P, length_app.
      unfold prompts at 2. simpl. lia.
    + rewrite C3. unfold w2. cbn [history]. rewrite compares_app, C.
      rewrite filter_app, length_app, (no_out_among_malformed Hts).
      cbn [filter]. unfold out_of_range_line at 2.
      rewrite Howf, Hol, Hvo, Hov. unfold compares at 2. simpl. lia.
    + rewrite S3. unfold w2. cbn [history]. rewrite entered_app, S.
      unfold entered at 2. cbn [flat_map]. rewrite range_message_shown.
      now rewrite !app_nil_r.
    + rewrite O3. unfold w2. cbn [history]. rewrite outputs_app, O.
      unfold outputs at 2. cbn [flat_map output_of app].
      rewrite map_app, (message_for_malformed Hts). cbn [map].
      rewrite (message_for_well_formed _ Howf), <- !app_assoc. reflexivity.
Qed.

(** The type-and-range-checking demo on an answer. *)
Lemma demo_range_session (prompt : list (item T))
    (ls : list (list ascii)) (t rest ws : list ascii)
    (fuel : nat) (w : world T) :
  entered_by (COut prompt) = [] ->
  Forall (fun l => rejected_line get out_of_range l = true) ls ->
  in_range_line get out_of_range t = true ->
  good (cin w) = true ->
  buf (cin w) = ws ++ lines ls ++ t ++ newline :: rest ->
  all_space ws = true ->
  (List.length ls <= fuel)%nat ->
  exists v w',
    demo_type_and_range_checking get type_message out_of_range range_message
      prompt fuel w = Done tt w' /\
    value_of get t = Some v /\
    out_of_range v = false /\
    good (cin w') = true /\
    buf (cin w') = left_of get t ++ rest /\
    prompts (history w') = (prompts (history w) + List.length ls + 2)%nat /\
    compares (history w')
    = (compares (history w)
       + S (List.length (filter (out_of_range_line get out_of_range) ls)))%nat
    /\ entered (history w') = entered (history w) ++ [v]
    /\ outputs (history w')
       = outputs (history w)
         ++ prompt :: map (message_for get type_message range_message) ls
         ++ [display v].
Proof.
  intros Hp Hls Hin G Hb Hws Hf.
  unfold demo_type_and_range_checking, read_in_range.
  unfold bind at 1. unfold cout_put at 1.
  set (w1 := mkWorld (cin w) (record_call (COut prompt) w)).
  destruct (@range_session t rest Hin (List.length ls) ls (Nat.le_refl _) Hls
              fuel fuel w1 ws Hf Hf G Hb Hws)
    as (v & w2 & E & Hv & Hoor & G2 & Hb2 & P & C & S & O).
  unfold bind at 1. rewrite E. exists v. eexists. split; [reflexivity|].
  unfold cout_put, record_call. cbn [cin history].
  rewrite prompts_app, compares_app, entered_app, outputs_app, P, C, S, O.
  unfold w1, record_call. cbn [history].
  rewrite prompts_app, compares_app, entered_app, outputs_app.
  unfold entered at 2 3. cbn [flat_map]. rewrite Hp.
  repeat split; auto.
  - unfold prompts at 2 3. simpl. lia.
  - unfold compares at 2 3. simpl. lia.
  - cbn [entered_by app]. now rewrite !app_nil_r.
  - unfold outputs at 2 3. cbn [flat_map output_of app].
    rewrite <- !app_assoc. reflexivity.
Qed.

(** The demos called from a function whose history holds values of another
    type, as [main] calls them. *)
Variable U : Type.
Variable inj : T -> U.



(** The same without a condition on what the line accepted leaves. *)
Lemma call_on_type_session (prompt : list (item T))
    (ts : list (list ascii)) (t rest ws : list ascii)
    (fuel : nat) (w : world U) :
  entered_by (COut prompt) = [] ->
  Forall (fun t => malformed get t = true /\ (List.length t <= 80)%nat) ts ->
  well_formed get t = true ->
  good (cin w) = true ->
  buf (cin w) = ws ++ lines ts ++ t ++ newline :: rest ->
  all_space ws = true ->
  (List.length ts <= fuel)%nat ->
  exists v w',
    call_on inj (demo_type_checking get type_message prompt fuel) w
    = Done tt w' /\
    value_of get t = Some v /\
    good (cin w') = true /\
    buf (cin w') = left_of get t ++ rest /\
    prompts (history w') = (prompts (history w) + List.length ts + 2)%nat /\
    entered (history w') = entered (history w) ++ [inj v].
Proof.
  intros Hp Hts Hwf G Hb Hws Hf.
  destruct (@demo_type_session prompt ts t rest ws fuel (mkWorld (cin w) [])
              Hp Hts Hwf G Hb Hws Hf)
    as (v & w1 & E & Hv & G1 & Hb1 & P & C & S & O).
  exists v. eexists. unfold call_on. rewrite E. split; [reflexivity|].
  cbn [cin history]. rewrite prompts_app, entered_app, prompts_map, entered_map.
  rewrite P, S. cbn. repeat split; auto. lia.
Qed.

End Sessions.

(** ** The demos *)

Lemma type_demo_unfold (k : target) :
  type_demo k
  = demo_type_checking (extraction k) (type_message_of k) (type_prompt_of k).
Proof. destruct k; reflexivity. Qed.

Lemma range_demo_unfold (k : target) :
  range_demo k
  = demo_type_and_range_checking (extraction k) (type_message_of k)
      (range_test k) (range_message_of k) (range_prompt_of k).
Proof. destruct k; reflexivity. Qed.

(** The demos of every target on an answer, from any point of a session at
    which the stream is good and only whitespace precedes the answer. *)
Lemma type_demo_at (k : target)
    (ts : list (list ascii)) (t rest ws : list ascii)
    (fuel : nat) (w : world (target_type k)) :
  Forall (fun t => malformed (extraction k) t = true
                   /\ (List.length t <= 80)%nat) ts ->
  well_formed (extraction k) t = true ->
  good (cin w) = true ->
  buf (cin w) = ws ++ lines ts ++ t ++ newline :: rest ->
  all_space ws = true ->
  (List.length ts <= fuel)%nat ->
  exists v w',
    type_demo k fuel w = Done tt w' /\
    value_of (extraction k) t = Some v /\
    good (cin w') = true /\
    buf (cin w') = left_of (extraction k) t ++ rest /\
    prompts (history w') = (prompts (history w) + List.length ts + 2)%nat /\
    compares (history w') = compares (history w) /\
    entered (history w') = entered (history w) ++ [v] /\
    outputs (history w') = outputs (history w) ++ type_demo_transcript k ts v.
Proof.
  rewrite type_demo_unfold. destruct k.
  - exact (@demo_type_session Z scan_int (fun s => s) int_type_message
             (fun _ => eq_refl) (fun _ => eq_refl) (fun _ => eq_refl)
             (fun _ _ _ => eq_refl) scan_int_line eq_refl
             (type_prompt_of OnInt) ts t rest ws fuel w eq_refl).
  - exact (@demo_type_session _ scan_float (fun s => s) float_type_message
             (fun _ => eq_refl) (fun _ => eq_refl) (fun _ => eq_refl)
             (fun _ _ _ => eq_refl) scan_float_line eq_refl
             (type_prompt_of OnFloat) ts t rest ws fuel w eq_refl).
  - exact (@demo_type_session Z scan_int set_boolalpha
             (element_type_message int_block)
             (fun _ => eq_refl) (fun _ => eq_refl) (fun _ => eq_refl)
             (fun _ _ _ => eq_refl) scan_int_line eq_refl
             (type_prompt_of OnIntElement) ts t rest ws fuel w eq_refl).
  - exact (@demo_type_session bool scan_bool set_boolalpha
             (element_type_message bool_block)
             (fun _ => eq_refl) (fun _ => eq_refl) (fun _ => eq_refl)
             (fun _ _ _ => eq_refl) scan_bool_line eq_refl
             (type_prompt_of OnBoolElement) ts t rest ws fuel w eq_refl).
Qed.

Lemma range_demo_at (k : target)
    (ls : list (list ascii)) (t rest ws : list ascii)
    (fuel : nat) (w : world (target_type k)) :
  Forall (fun l => rejected_line (extraction k) (range_test k) l = true) ls ->
  in_range_line (extraction k) (range_test k) t = true ->
  good (cin w) = true ->
  buf (cin w) = ws ++ lines ls ++ t ++ newline :: rest ->
  all_space ws = true ->
  (List.length ls <= fuel)%nat ->
  exists v w',
    range_demo k fuel w = Done tt w' /\
    value_of (extraction k) t = Some v /\
    range_test k v = false /\
    good (cin w') = true /\
    buf (cin w') = left_of (extraction k) t ++ rest /\
    prompts (history w') = (prompts (history w) + List.length ls + 2)%nat /\
    compares (history w')
    = (compares (history w)
       + S (List.length
              (filter (out_of_range_line (extraction k) (range_test k)) ls)))%nat
    /\ entered (history w') = entered (history w) ++ [v]
    /\ outputs (history w') = outputs (history w) ++ range_demo_transcript k ls v.
Proof.
  rewrite range_demo_unfold. destruct k.
  - exact (@demo_range_session Z scan_int (fun s => s) int_type_message
             (int_out_of_range 6 37) int_range_message
             (fun _ => eq_refl) (fun _ => eq_refl) (fun _ => eq_refl)
             (fun _ _ _ => eq_refl) scan_int_line eq_refl eq_refl
             (range_prompt_of OnInt) ls t rest ws fuel w eq_refl).
  - exact (@demo_range_session _ scan_float (fun s => s) float_type_message
             (float_out_of_range FLOAT_LOW FLOAT_HIGH) float_range_message
             (fun _ => eq_refl) (fun _ => eq_refl) (fun _ => eq_refl)
             (fun _ _ _ => eq_refl) scan_float_line eq_refl eq_refl
             (range_prompt_of OnFloat) ls t rest ws fuel w eq_refl).
  - exact (@demo_range_session Z scan_int set_boolalpha
             (element_type_message int_block)
             (element_out_of_range int_block)
             (element_range_message int_block)
             (fun _ => eq_refl) (fun _ => eq_refl) (fun _ => eq_refl)
             (fun _ _ _ => eq_refl) scan_int_line eq_refl eq_refl
             (range_prompt_of OnIntElement) ls t rest ws fuel w eq_refl).
  - exact (@demo_range_session bool scan_bool set_boolalpha
             (element_type_message bool_block)
             (element_out_of_range bool_block)
             (element_range_message bool_block)
             (fun _ => eq_refl) (fun _ => eq_refl) (fun _ => eq_refl)
             (fun _ _ _ => eq_refl) scan_bool_line eq_refl eq_refl
             (range_prompt_of OnBoolElement) ls t rest ws fuel w eq_refl).
Qed.

(** X1.  A type-checking demo, at any target, on a session of malformed lines
    of at most 80 characters followed by a well-formed line: allowed one
    iteration for each malformed line, the demo returns; what it has printed
    is, in this order, its prompt, the message of its reader once for each
    malformed line, and the display of the value of the well-formed line; it
    has made no range test; the stream is good, and what the well-formed
    line leaves unread is at the head of the buffer. *)
Theorem type_demo_displays_first_valid_line
    (k : target) (ts : list (list ascii)) (t rest : list ascii) (fuel : nat) :
  Forall (fun t => malformed (extraction k) t = true
                   /\ (List.length t <= 80)%nat) ts ->
  well_formed (extraction k) t = true ->
  (List.length ts <= fuel)%nat ->
  exists v w',
    type_demo k fuel
      (session (target_type k) (lines ts ++ t ++ newline :: rest))
    = Done tt w' /\
    value_of (extraction k) t = Some v /\
    outputs (history w') = type_demo_transcript k ts v /\
    entered (history w') = [v] /\
    compares (history w') = 0%nat /\
    good (cin w') = true /\
    buf (cin w') = left_of (extraction k) t ++ rest.
Proof.
  intros Hts Hwf Hf.
  destruct (@type_demo_at k ts t rest [] fuel
              (session (target_type k) (lines ts ++ t ++ newline :: rest))
              Hts Hwf eq_refl eq_refl eq_refl Hf)
    as (v & w' & E & Hv & G & Hb & P & C & S & O).
  exists v, w'. repeat split; auto.
Qed.

(** [demo_int_type_checking] on the inputs "pizza" and "7". *)
Lemma type_demo_displays_first_valid_line_witness :
  exists v w',
    demo_int_type_checking 1
      (session Z (lines [line "pizza"] ++ line "7" ++ newline :: []))
    = Done tt w' /\
    value_of extract_int (line "7") = Some v /\
    outputs (history w')
    = [[Text "Enter a whole number: "]; int_type_message; display v] /\
    entered (history w') = [v] /\
    compares (history w') = 0%nat /\
    good (cin w') = true /\
    buf (cin w') = left_of extract_int (line "7") ++ [].
Proof.
  apply (@type_demo_displays_first_valid_line OnInt [line "pizza"] (line "7")
           [] 1).
  - repeat constructor.
  - reflexivity.
  - simpl. lia.
Defined.

(** X2.  A type-and-range-checking demo, at any target, on a session of lines
    that are each malformed (and of at most 80 characters) or well formed,
    taken whole by their value and out of range, followed by a line that is
    well formed and in range: allowed one iteration for each line before it,
    the demo returns; what it has printed is, in this order, its prompt, one
    message for each line before the last (the message of the reader if the
    line is malformed, the message of the range test if it is out of range),
    and the display of the value of the last line, which is in range; it has
    made one range test for each well-formed line. *)
Theorem range_demo_displays_first_line_in_range
    (k : target) (ls : list (list ascii)) (t rest : list ascii) (fuel : nat) :
  Forall (fun l => rejected_line (extraction k) (range_test k) l = true) ls ->
  in_range_line (extraction k) (range_test k) t = true ->
  (List.length ls <= fuel)%nat ->
  exists v w',
    range_demo k fuel
      (session (target_type k) (lines ls ++ t ++ newline :: rest))
    = Done tt w' /\
    value_of (extraction k) t = Some v /\
    range_test k v = false /\
    outputs (history w') = range_demo_transcript k ls v /\
    entered (history w') = [v] /\
    compares (history w')
    = S (List.length
           (filter (out_of_range_line (extraction k) (range_test k)) ls)) /\
    good (cin w') = true /\
    buf (cin w') = left_of (extraction k) t ++ rest.
Proof.
  intros Hls Hin Hf.
  destruct (@range_demo_at k ls t rest [] fuel
              (session (target_type k) (lines ls ++ t ++ newline :: rest))
              Hls Hin eq_refl eq_refl eq_refl Hf)
    as (v & w' & E & Hv & Ho & G & Hb & P & C & S & O).
  exists v, w'. repeat split; auto.
Qed.

(** [demo_int_type_and_range_checking] on the inputs "pizza", "50", "6". *)
Lemma range_demo_displays_first_line_in_range_witness :
  exists v w',
    demo_int_type_and_range_checking 2
      (session Z (lines [line "pizza"; line "50"] ++ line "6" ++ newline :: []))
    = Done tt w' /\
    value_of extract_int (line "6") = Some v /\
    int_out_of_range 6 37 v = false /\
    outputs (history w')
    = [[Text "Enter a whole number between 6 and 37: "];
       int_type_message; int_range_message; display v] /\
    entered (history w') = [v] /\
    compares (history w') = 2%nat /\
    good (cin w') = true /\
    buf (cin w') = left_of extract_int (line "6") ++ [].
Proof.
  apply (@range_demo_displays_first_line_in_range OnInt
           [line "pizza"; line "50"] (line "6") [] 2).
  - repeat constructor.
  - reflexivity.
  - simpl. lia.
Defined.

(** ** [main] *)



(** * The end of the input *)

Lemma is_nil_true (A : Type) (l : list A) : is_nil l = true -> l = [].
Proof. destruct l; [reflexivity | discriminate]. Qed.

(** The parsers report the end of the input only when they have read all of
    it. *)
Lemma scan_integer_eof (lo hi : Z) (b rest : list ascii) (fail : bool) (v : Z) :
  scan_integer lo hi b = (rest, true, fail, v) -> rest = [].
Proof.
  unfold scan_integer.
  destruct (scan_sign b) as [neg b1]. destruct (scan_digits b1) as [ds r].
  destruct ds as [|d ds].
  - intros E. injection E as <- E _ _. now apply is_nil_true.
  - destruct (_ <? lo)%Z; [|destruct (hi <? _)%Z];
      intros E; injection E as <- E _ _; now apply is_nil_true.
Qed.

Lemma scan_int_eof (a : bool) (b rest : list ascii) (fail : bool) (v : Z) :
  scan_int a b = (rest, true, fail, v) -> rest = [].
Proof. apply scan_integer_eof. Qed.

Lemma scan_float_eof (a : bool) (b rest : list ascii) (fail : bool)
    (v : spec_float) :
  scan_float a b = (rest, true, fail, v) -> rest = [].
Proof.
  unfold scan_float.
  destruct (scan_sign b) as [neg b1]. destruct (scan_digits b1) as [ip b2].
  destruct (scan_fraction b2) as [fp b3]. cbv zeta.
  destruct (is_nil ip && is_nil fp).
  - intros E. injection E as <- E _ _. now apply is_nil_true.
  - destruct (scan_exponent b3) as [[r [e|]]|].
    + destruct (float_stored neg _) as [f x].
      intros E. injection E as <- E _ _. now apply is_nil_true.
    + intros E. injection E as <- E _ _. now apply is_nil_true.
    + destruct (float_stored neg _) as [f x].
      intros E. injection E as <- E _ _. now apply is_nil_true.
Qed.

Lemma match_name_eof (name : list ascii) :
  forall b r ok, match_name name b = (r, ok, true) -> r = [].
Proof.
  induction name as [|n name IH]; intros b r ok; simpl.
  - discriminate.
  - destruct b as [|c b].
    + intros E. now injection E as <- _.
    + destruct (Ascii.eqb c n); [apply IH | discriminate].
Qed.

Lemma scan_bool_eof (a : bool) (b rest : list ascii) (fail v : bool) :
  scan_bool a b = (rest, true, fail, v) -> rest = [].
Proof.
  unfold scan_bool. destruct a.
  - destruct (match_name truename b) as [[rt okt] eoft] eqn:Et.
    destruct (match_name falsename b) as [[rf okf] eoff] eqn:Ef.
    destruct okt; [discriminate|]. destruct okf; [discriminate|].
    intros E. injection E as <- E _.
    destruct eoft.
    + apply match_name_eof in Et. subst rt. reflexivity.
    + simpl in E. subst eoff. apply match_name_eof in Ef. subst rf.
      destruct rt; reflexivity.
  - destruct (scan_integer LONG_MIN LONG_MAX b) as [[[r e] f] z] eqn:Ez.
    destruct (z =? 0)%Z; [|destruct (z =? 1)%Z];
      intros E; injection E as <- -> _ _; exact (scan_integer_eof _ _ _ Ez).
Qed.

Section EndOfInput.

Variable T : Type.
Variable scan : bool -> list ascii -> list ascii * bool * bool * T.
Variable pre : istream -> istream.
Variable type_message : list (item T).
Variable out_of_range : T -> bool.
Variable range_message : list (item T).

#[local] Abbreviation get := (fun s : istream => formatted scan (pre s)).

Hypothesis pre_buf : forall s, buf (pre s) = buf s.
Hypothesis pre_eof : forall s, eofbit (pre s) = eofbit s.
Hypothesis pre_fail : forall s, failbit (pre s) = failbit s.
Hypothesis scan_eof :
  forall a b rest fail v, scan a b = (rest, true, fail, v) -> rest = [].

(** An extraction that meets the end of the input has emptied the buffer, and
    the stream is not good after it. *)
Lemma get_eof (s : istream) :
  good s = true -> eofbit (fst (get s)) = true ->
  buf (fst (get s)) = [] /\ good (fst (get s)) = false.
Proof.
  intros G. unfold formatted.
  rewrite (@pre_good pre pre_eof pre_fail s), G, pre_buf.
  destruct (skipws (buf s)) as [|c b]; [now split|].
  destruct (scan (boolalpha (pre s)) (c :: b)) as [[[rest eof] fail] v] eqn:E.
  cbn [fst buf eofbit]. intros ->. apply scan_eof in E. subst rest.
  split; reflexivity.
Qed.

Lemma attempt_cut_short (fuel : nat) (u : option T) (w : world T) :
  good (cin w) = true -> eofbit (fst (get (cin w))) = true ->
  exists w', attempt get type_message fuel u w = Timeout T w' /\
             prompts (history w') = (prompts (history w) + fuel)%nat.
Proof.
  intros G E. destruct (get_eof _ G E) as [Hb Hg].
  rewrite attempt_unfold. destruct fuel as [|fuel].
  - rewrite read_loop_stop by exact Hg. eexists. split; [reflexivity|].
    cbn [history]. rewrite prompts_app. unfold prompts at 2. simpl. lia.
  - rewrite read_loop_retry by exact Hg.
    match goal with
    | |- exists w', attempt _ _ _ ?u3 ?w3 = _ /\ _ =>
        destruct (@attempt_exhausted T scan pre type_message pre_buf pre_eof
                    pre_fail fuel u3 w3) as (w' & E' & P)
    end.
    + cbn [cin]. unfold ignore. rewrite good_clear. cbn [buf clear].
      rewrite Hb. reflexivity.
    + exists w'. split; [exact E'|]. rewrite P. cbn [history].
      rewrite !prompts_app. unfold prompts at 2 3. simpl. lia.
Qed.

Lemma read_cut_short (fuel : nat) (w : world T) :
  good (cin w) = true -> eofbit (fst (get (cin w))) = true ->
  exists w',
    read get type_message fuel w = Timeout T w' /\
    read_in_range get type_message out_of_range range_message fuel w
    = Timeout T w' /\
    prompts (history w') = (prompts (history w) + fuel)%nat.
Proof.
  intros G E. destruct (attempt_cut_short fuel None w G E) as (w' & E' & P).
  exists w'. unfold read_in_range, bind. rewrite read_is_attempt, E'. auto.
Qed.

End EndOfInput.

(** X4.  When the extraction by which a reader starts meets the end of the
    input (the input holds only whitespace, or ends inside or right after
    the characters of a value, with no newline after them), the reader never
    returns, even if the characters read were a value of the target type:
    however many iterations it is allowed, it is still in its loop, having
    printed its message once for each iteration; and so is the range-checked
    reader of the demos. *)
Theorem input_cut_short_is_never_accepted
    (k : target) (w : world (target_type k)) (fuel : nat) :
  good (cin w) = true ->
  eofbit (fst (extraction k (cin w))) = true ->
  exists w',
    reader k fuel w = Timeout (target_type k) w' /\
    range_reader k fuel w = Timeout (target_type k) w' /\
    prompts (history w') = (prompts (history w) + fuel)%nat.
Proof.
  destruct k.
  - exact (@read_cut_short Z scan_int (fun s => s) int_type_message
             (int_out_of_range 6 37) int_range_message
             (fun _ => eq_refl) (fun _ => eq_refl) (fun _ => eq_refl)
             scan_int_eof fuel w).
  - exact (@read_cut_short _ scan_float (fun s => s) float_type_message
             (float_out_of_range FLOAT_LOW FLOAT_HIGH) float_range_message
             (fun _ => eq_refl) (fun _ => eq_refl) (fun _ => eq_refl)
             scan_float_eof fuel w).
  - exact (@read_cut_short Z scan_int set_boolalpha
             (element_type_message int_block)
             (element_out_of_range int_block) (element_range_message int_block)
             (fun _ => eq_refl) (fun _ => eq_refl) (fun _ => eq_refl)
             scan_int_eof fuel w).
  - exact (@read_cut_short bool scan_bool set_boolalpha
             (element_type_message bool_block)
             (element_out_of_range bool_block)
             (element_range_message bool_block)
             (fun _ => eq_refl) (fun _ => eq_refl) (fun _ => eq_refl)
             scan_bool_eof fuel w).
Qed.

Lemma input_cut_short_is_never_accepted_witness :
  exists w',
    read_int 3 (session Z (line "42")) = Timeout Z w' /\
    read_int_in_range 6 37 int_range_message 3 (session Z (line "42"))
    = Timeout Z w' /\
    prompts (history w') = (0 + 3)%nat.
Proof.
  apply (@input_cut_short_is_never_accepted OnInt (session Z (line "42")) 3).
  - reflexivity.
  - reflexivity.
Defined.

(** * What a line leaves for the next demo *)

Lemma call_on_type_demo_at (k : target) (U : Type) (inj : target_type k -> U)
    (ts : list (list ascii)) (t rest ws : list ascii)
    (fuel : nat) (w : world U) :
  Forall (fun t => malformed (extraction k) t = true
                   /\ (List.length t <= 80)%nat) ts ->
  well_formed (extraction k) t = true ->
  good (cin w) = true ->
  buf (cin w) = ws ++ lines ts ++ t ++ newline :: rest ->
  all_space ws = true ->
  (List.length ts <= fuel)%nat ->
  exists v w',
    call_on inj (type_demo k fuel) w = Done tt w' /\
    value_of (extraction k) t = Some v /\
    good (cin w') = true /\
    buf (cin w') = left_of (extraction k) t ++ rest /\
    prompts (history w') = (prompts (history w) + List.length ts + 2)%nat /\
    entered (history w') = entered (history w) ++ [inj v].
Proof.
  rewrite type_demo_unfold. destruct k.
  - exact (@call_on_type_session Z scan_int (fun s => s) int_type_message
             (fun _ => eq_refl) (fun _ => eq_refl) (fun _ => eq_refl)
             (fun _ _ _ => eq_refl) scan_int_line eq_refl U inj
             (type_prompt_of OnInt) ts t rest ws fuel w eq_refl).
  - exact (@call_on_type_session _ scan_float (fun s => s) float_type_message
             (fun _ => eq_refl) (fun _ => eq_refl) (fun _ => eq_refl)
             (fun _ _ _ => eq_refl) scan_float_line eq_refl U inj
             (type_prompt_of OnFloat) ts t rest ws fuel w eq_refl).
  - exact (@call_on_type_session Z scan_int set_boolalpha
             (element_type_message int_block)
             (fun _ => eq_refl) (fun _ => eq_refl) (fun _ => eq_refl)
             (fun _ _ _ => eq_refl) scan_int_line eq_refl U inj
             (type_prompt_of OnIntElement) ts t rest ws fuel w eq_refl).
  - exact (@call_on_type_session bool scan_bool set_boolalpha
             (element_type_message bool_block)
             (fun _ => eq_refl) (fun _ => eq_refl) (fun _ => eq_refl)
             (fun _ _ _ => eq_refl) scan_bool_line eq_refl U inj
             (type_prompt_of OnBoolElement) ts t rest ws fuel w eq_refl).
Qed.

(** X5.  Two type-checking demos called one after the other on the one
    [cin], as [main] calls them.  When the line typed to the first is well
    formed for it, and what its value leaves of the line is well formed for
    the second, the second demo takes its value from that rest of the line:
    both demos return, the two values are displayed, no message is printed
    (the four output statements are the two prompts and the two displays),
    and nothing typed after the line has been read. *)
Theorem next_demo_reads_what_the_line_leaves
    (k1 k2 : target) (U : Type)
    (inj1 : target_type k1 -> U) (inj2 : target_type k2 -> U)
    (t r rest : list ascii) (fuel : nat) (w : world U) :
  good (cin w) = true ->
  buf (cin w) = t ++ newline :: rest ->
  well_formed (extraction k1) t = true ->
  left_of (extraction k1) t = r ++ [newline] ->
  well_formed (extraction k2) r = true ->
  exists v1 v2 w',
    (call_on inj1 (type_demo k1 fuel) ;; call_on inj2 (type_demo k2 fuel)) w
    = Done tt w' /\
    value_of (extraction k1) t = Some v1 /\
    value_of (extraction k2) r = Some v2 /\
    entered (history w') = entered (history w) ++ [inj1 v1; inj2 v2] /\
    prompts (history w') = (prompts (history w) + 4)%nat /\
    good (cin w') = true /\
    buf (cin w') = left_of (extraction k2) r ++ rest.
Proof.
  intros G Hb Hwf1 Hleft Hwf2.
  destruct (@call_on_type_demo_at k1 U inj1 [] t rest [] fuel w
              (Forall_nil _) Hwf1 G Hb eq_refl (Nat.le_0_l _))
    as (v1 & w1 & E1 & V1 & G1 & B1 & P1 & S1).
  assert (B1' : buf (cin w1) = [] ++ lines [] ++ r ++ newline :: rest).
  { rewrite B1, Hleft, <- app_assoc. reflexivity. }
  destruct (@call_on_type_demo_at k2 U inj2 [] r rest [] fuel w1
              (Forall_nil _) Hwf2 G1 B1' eq_refl (Nat.le_0_l _))
    as (v2 & w2 & E2 & V2 & G2 & B2 & P2 & S2).
  exists v1, v2, w2. unfold bind. rewrite E1, E2.
  repeat split; auto.
  - rewrite S2, S1, <- app_assoc. reflexivity.
  - rewrite P2, P1. simpl. lia.
Qed.

Lemma next_demo_reads_what_the_line_leaves_witness :
  exists v1 v2 w',
    (call_on (@VInt int_block) (demo_int_type_checking 0) ;;
     call_on (@VFloat int_block) (demo_float_type_checking 0))
      (session (value int_block) (line "3.7" ++ newline :: line "8"))
    = Done tt w' /\
    value_of extract_int (line "3.7") = Some v1 /\
    value_of extract_float (line ".7") = Some v2 /\
    entered (history w') = [] ++ [@VInt int_block v1; @VFloat int_block v2] /\
    prompts (history w') = (0 + 4)%nat /\
    good (cin w') = true /\
    buf (cin w') = left_of extract_float (line ".7") ++ line "8".
Proof.
  apply (@next_demo_reads_what_the_line_leaves OnInt OnFloat (value int_block)
           (@VInt int_block) (@VFloat int_block)
           (line "3.7") (line ".7") (line "8") 0
           (session (value int_block) (line "3.7" ++ newline :: line "8"))).
  - reflexivity.
  - reflexivity.
  - reflexivity.
  - reflexivity.
  - reflexivity.
Defined.

(** * The lines that [read_int] accepts *)

Lemma digits_no_newline (ds : list ascii) :
  forallb is_digit ds = true -> no_newline ds = true.
Proof.
  induction ds as [|d ds IH]; [reflexivity|]. cbn [forallb no_newline].
  intros H. apply andb_true_iff in H. destruct H as [Hd Hds].
  unfold no_newline in IH. rewrite (IH Hds), andb_true_r.
  destruct (Ascii.eqb_spec d newline) as [->|]; [discriminate | reflexivity].
Qed.

Lemma skipws_numeral (sg : sign) (d : ascii) (ds tail : list ascii) :
  is_digit d = true ->
  skipws (numeral sg (d :: ds) ++ tail) = numeral sg (d :: ds) ++ tail.
Proof.
  intros Hd. destruct sg; [|reflexivity|reflexivity].
  cbn [numeral app skipws]. now rewrite (digit_not_space _ Hd).
Qed.

Lemma scan_sign_numeral (sg : sign) (d : ascii) (ds tail : list ascii) :
  is_digit d = true ->
  scan_sign (numeral sg (d :: ds) ++ tail)
  = (match sg with Minus => true | _ => false end, (d :: ds) ++ tail).
Proof.
  intros Hd. destruct sg; [|reflexivity|reflexivity].
  cbn [numeral app scan_sign].
  destruct (digit_not_sign _ Hd) as [-> ->]. reflexivity.
Qed.

(** The extraction of an [int] from a line that is a numeral: the digits are
    taken whole, and the value is stored if it fits an [int]; if not, the
    nearest limit is stored and the extraction fails. *)
Lemma extract_int_numeral (sg : sign) (ds : list ascii) :
  ds <> [] -> forallb is_digit ds = true ->
  extract_int (typed (numeral sg ds ++ [newline]))
  = (mkStream [newline] false (negb (fits_int (numeral_value sg ds))) false,
     Some (Z.max INT_MIN (Z.min INT_MAX (numeral_value sg ds)))).
Proof.
  intros Hne Hds. destruct ds as [|d ds]; [congruence|].
  assert (Hd : is_digit d = true).
  { cbn [forallb] in Hds. now apply andb_true_iff in Hds. }
  unfold extract_int, formatted. cbn [typed good buf eofbit failbit negb andb].
  rewrite (@skipws_numeral sg d ds [newline] Hd).
  destruct (numeral sg (d :: ds) ++ [newline]) as [|c l] eqn:En.
  { destruct sg; discriminate. }
  rewrite <- En. clear En c l.
  unfold scan_int, scan_integer.
  rewrite (@scan_sign_numeral sg d ds [newline] Hd).
  rewrite (@scan_digits_token (d :: ds) newline [] Hds eq_refl).
  cbn [is_nil boolalpha].
  replace (if match sg with Minus => true | _ => false end
           then (- digits_val (d :: ds))%Z else digits_val (d :: ds))
    with (numeral_value sg (d :: ds)) by now destruct sg.
  unfold fits_int.
  assert (Hlim : (INT_MIN < INT_MAX)%Z) by (unfold INT_MIN, INT_MAX; lia).
  destruct (Z.ltb_spec (numeral_value sg (d :: ds)) INT_MIN) as [L|L].
  - rewrite (proj2 (Z.leb_gt _ _) L). cbn [andb negb].
    f_equal. f_equal. lia.
  - rewrite (proj2 (Z.leb_le _ _) L). cbn [andb].
    destruct (Z.ltb_spec INT_MAX (numeral_value sg (d :: ds))) as [H|H].
    + rewrite (proj2 (Z.leb_gt _ _) H). cbn [negb]. f_equal. f_equal. lia.
    + rewrite (proj2 (Z.leb_le _ _) H). cbn [negb]. f_equal. f_equal. lia.
Qed.

(** X6.  A line that is a decimal numeral (an optional sign, and digits) is
    well formed for [read_int] exactly when the number fits an [int]; a
    numeral that does not fit is malformed, as a line that is not a number
    is, and the extraction stores the nearest limit; in both cases the
    extraction takes the whole numeral and leaves the newline. *)
Theorem int_line_is_accepted_iff_it_fits (sg : sign) (ds : list ascii) :
  ds <> [] -> forallb is_digit ds = true ->
  well_formed extract_int (numeral sg ds)
  = fits_int (numeral_value sg ds) /\
  malformed extract_int (numeral sg ds)
  = negb (fits_int (numeral_value sg ds)) /\
  value_of extract_int (numeral sg ds)
  = Some (Z.max INT_MIN (Z.min INT_MAX (numeral_value sg ds))) /\
  left_of extract_int (numeral sg ds) = [newline].
Proof.
  intros Hne Hds.
  unfold well_formed, malformed, value_of, left_of.
  rewrite (@extract_int_numeral sg ds Hne Hds). cbn [fst snd buf].
  assert (Hnb : nonblank (numeral sg ds) = true).
  { destruct ds as [|d ds]; [congruence|].
    assert (Hd : is_digit d = true).
    { cbn [forallb] in Hds. now apply andb_true_iff in Hds. }
    unfold nonblank.
    pose proof (@skipws_numeral sg d ds [] Hd) as E. rewrite !app_nil_r in E.
    rewrite E. now destruct sg. }
  assert (Hnn : no_newline (numeral sg ds) = true).
  { pose proof (digits_no_newline _ Hds) as H. destruct sg; auto. }
  rewrite Hnb, Hnn. unfold good. cbn [eofbit failbit negb andb].
  rewrite negb_involutive. auto.
Qed.

Lemma int_line_is_accepted_iff_it_fits_witness :
  well_formed extract_int (numeral Minus (line "2147483649"))
  = fits_int (numeral_value Minus (line "2147483649")) /\
  malformed extract_int (numeral Minus (line "2147483649"))
  = negb (fits_int (numeral_value Minus (line "2147483649"))) /\
  value_of extract_int (numeral Minus (line "2147483649"))
  = Some (Z.max INT_MIN
            (Z.min INT_MAX (numeral_value Minus (line "2147483649")))) /\
  left_of extract_int (numeral Minus (line "2147483649")) = [newline].
Proof.
  apply (@int_line_is_accepted_iff_it_fits Minus (line "2147483649")).
  - discriminate.
  - reflexivity.
Defined.

(** * No variable is used before it is assigned *)

Section Defined.

Variable T : Type.
Variable get : istream -> istream * option T.
Variable type_message : list (item T).
Variable out_of_range : T -> bool.
Variable range_message : list (item T).

Hypothesis get_stores :
  forall s, good (fst (get s)) = true -> exists v, snd (get s) = Some v.

Lemma demo_type_checking_defined (prompt : list (item T)) (fuel : nat)
    (w : world T) :
  is_undefined (demo_type_checking get type_message prompt fuel w) = false.
Proof.
  unfold demo_type_checking, bind. unfold cout_put at 1.
  match goal with
  | |- context [read get type_message fuel ?w1] =>
      pose proof (@attempt_defined T get type_message get_stores fuel None w1)
        as Hd;
      rewrite <- read_is_attempt in Hd;
      destruct (read get type_message fuel w1) as [v1 w2 | w2 | w2]
  end; auto.
Qed.

Lemma demo_type_and_range_checking_defined (prompt : list (item T))
    (fuel : nat) (w : world T) :
  is_undefined
    (demo_type_and_range_checking get type_message out_of_range range_message
       prompt fuel w) = false.
Proof.
  unfold demo_type_and_range_checking, bind. unfold cout_put at 1.
  match goal with
  | |- context [read_in_range get type_message out_of_range range_message
                  fuel ?w1] =>
      pose proof (@read_in_range_defined T get type_message get_stores
                    out_of_range range_message fuel w1) as Hd;
      destruct (read_in_range get type_message out_of_range range_message
                  fuel w1) as [v1 w2 | w2 | w2]
  end; auto.
Qed.

End Defined.

Lemma call_on_defined (T U A : Type) (f : T -> U) (m : M T A) (w : world U) :
  is_undefined (m (mkWorld (cin w) [])) = false ->
  is_undefined (call_on f m w) = false.
Proof.
  unfold call_on. destruct (m (mkWorld (cin w) [])); auto.
Qed.

Lemma bind_defined (T A B : Type) (m : M T A) (k : A -> M T B) (w : world T) :
  is_undefined (m w) = false ->
  (forall a w', is_undefined (k a w') = false) ->
  is_undefined (bind m k w) = false.
Proof.
  unfold bind. intros Hm Hk. destruct (m w); auto.
Qed.

(** X7.  [main] never uses a variable that was not assigned, whatever the
    block of [element], the input and the state of the stream: every value
    that a demo compares with its bounds or displays was stored by an
    extraction.  At any point the program has returned or is inside a
    loop. *)
Theorem main_never_uses_an_unassigned_variable
    (blk : element_block) (fuel : nat) (w : world (value blk)) :
  is_undefined (@main blk fuel w) = false.
Proof.
  unfold main.
  repeat (apply bind_defined; [|intros ? ?]);
    try reflexivity; apply call_on_defined;
    first [ apply demo_type_checking_defined
          | apply demo_type_and_range_checking_defined ];
    first [ apply (@formatted_stores _ scan_int)
          | apply (@formatted_stores _ scan_float)
          | apply extract_alpha_stores ].
Qed.

(** * Blank lines *)

Lemma extraction_skips_space (k : target) (ws b : list ascii) (a : bool) :
  all_space ws = true ->
  extraction k (mkStream (ws ++ b) false false a)
  = extraction k (mkStream b false false a).
Proof.
  intros Hws.
  destruct k; unfold extraction, extract_int, extract_float, extract_alpha,
    formatted; cbn [good set_boolalpha buf eofbit failbit boolalpha negb andb];
    now rewrite (skipws_all_space ws b Hws).
Qed.

(** X8.  Whitespace typed before an answer, blank lines included, is not an
    answer: from a stream whose state flags are clear, a reader (and a
    range-checked reader) of any target does exactly what it does when that
    whitespace was not typed: the same outcome, the same value, the same
    calls and the same stream after them.  No message is printed for a blank
    line. *)
Theorem blank_lines_are_not_answers
    (k : target) (ws b : list ascii) (a : bool)
    (h : list (call (target_type k))) (fuel : nat) :
  all_space ws = true ->
  reader k fuel (mkWorld (mkStream (ws ++ b) false false a) h)
  = reader k fuel (mkWorld (mkStream b false false a) h) /\
  range_reader k fuel (mkWorld (mkStream (ws ++ b) false false a) h)
  = range_reader k fuel (mkWorld (mkStream b false false a) h).
Proof.
  intros Hws.
  assert (R : reader k fuel (mkWorld (mkStream (ws ++ b) false false a) h)
              = reader k fuel (mkWorld (mkStream b false false a) h)).
  { unfold reader, read, bind, cin_extract, record_call. cbn [cin history].
    now rewrite (extraction_skips_space k ws b a Hws). }
  split; [exact R|].
  unfold range_reader, read_in_range, bind.
  unfold reader in R. now rewrite R.
Qed.

Lemma blank_lines_are_not_answers_witness :
  read_int 1
    (mkWorld (mkStream ([newline; " "%char; newline] ++ line "7" ++ [newline])
                false false false) [])
  = read_int 1 (mkWorld (mkStream (line "7" ++ [newline]) false false false) [])
  /\
  read_in_range extract_int int_type_message (int_out_of_range 6 37)
    int_range_message 1
    (mkWorld (mkStream ([newline; " "%char; newline] ++ line "7" ++ [newline])
                false false false) [])
  = read_in_range extract_int int_type_message (int_out_of_range 6 37)
      int_range_message 1
      (mkWorld (mkStream (line "7" ++ [newline]) false false false) []).
Proof.
  apply (@blank_lines_are_not_answers OnInt [newline; " "%char; newline]
           (line "7" ++ [newline]) false [] 1).
  reflexivity.
Defined.

(** * The format flag of [cin] *)

Lemma boolalpha_formatted (T : Type)
    (scan : bool -> list ascii -> list ascii * bool * bool * T) (s : istream) :
  boolalpha (fst (formatted scan s)) = boolalpha s.
Proof.
  unfold formatted. destruct (good s); [|reflexivity].
  destruct (skipws (buf s)) as [|c b]; [reflexivity|].
  destruct (scan (boolalpha s) (c :: b)) as [[[rest eof] fail] v]. reflexivity.
Qed.

Lemma boolalpha_ignore (n : nat) (delim : ascii) (s : istream) :
  boolalpha (ignore n delim s) = boolalpha s.
Proof.
  unfold ignore. destruct (good s); [|reflexivity].
  destruct (ignore_buf n delim (buf s)). reflexivity.
Qed.

Section FormatFlag.

Variable T : Type.
Variable get : istream -> istream * option T.
Variable type_message : list (item T).
Variable flag : bool.

(** The extraction leaves the flag at [flag] when it finds it there. *)
Hypothesis get_flag :
  forall s, boolalpha s = flag -> boolalpha (fst (get s)) = flag.

Lemma read_loop_flag (fuel : nat) :
  forall (u : option T) (w : world T),
    boolalpha (cin w) = flag ->
    boolalpha (cin (world_of (read_loop get type_message fuel u w))) = flag.
Proof.
  induction fuel as [|fuel IH]; intros u w Hw;
    destruct (good (cin w)) eqn:G.
  - simpl. unfold bind, cin_good. rewrite G. destruct u; exact Hw.
  - rewrite read_loop_stop by exact G. exact Hw.
  - simpl. unfold bind at 1. unfold cin_good. rewrite G. destruct u; exact Hw.
  - rewrite read_loop_retry by exact G. rewrite attempt_unfold.
    apply IH. cbn [cin]. apply get_flag.
    rewrite boolalpha_ignore. exact Hw.
Qed.

Lemma read_flag (fuel : nat) (w : world T) :
  boolalpha (fst (get (cin w))) = flag ->
  boolalpha (cin (world_of (read get type_message fuel w))) = flag.
Proof.
  intros Hw. rewrite read_is_attempt, attempt_unfold.
  apply read_loop_flag. exact Hw.
Qed.

End FormatFlag.

(** X9.  What the readers do to the format flag of [cin], whatever the input
    and the outcome: [read_int] and [read_float] leave it as they find it,
    and [read_element] leaves it set, also after it has returned. *)
Theorem readers_and_the_format_flag
    (k : target) (fuel : nat) (w : world (target_type k)) :
  boolalpha (cin (world_of (reader k fuel w)))
  = match k with
    | OnInt | OnFloat => boolalpha (cin w)
    | OnIntElement | OnBoolElement => true
    end.
Proof.
  destruct k; unfold reader; apply read_flag;
    try (intros s Hs; unfold extraction, extract_int, extract_float,
                        extract_alpha; rewrite boolalpha_formatted; auto);
    unfold extraction, extract_int, extract_float, extract_alpha;
    rewrite boolalpha_formatted; reflexivity.
Qed.

(** * [read_element] when [element] is [int] *)

Lemma same_input_refl (s : istream) : same_input s s.
Proof. repeat split. Qed.

Lemma same_input_good (s s' : istream) :
  same_input s s' -> good s = good s'.
Proof. intros (_ & E & F). unfold good. now rewrite E, F. Qed.

Lemma same_input_clear_ignore (s s' : istream) :
  same_input s s' ->
  same_input (ignore 80 newline (clear s)) (ignore 80 newline (clear s')).
Proof.
  intros (B & _ & _). unfold ignore. rewrite !good_clear. cbn [buf clear].
  rewrite B. destruct (ignore_buf 80 newline (buf s')). repeat split.
Qed.

(** On streams that hold the same input, the extraction of an [element] that
    is an [int] and the extraction of an [int] store the same and leave the
    same input: the boolalpha flag has no part in the reading of a number. *)
Lemma extract_alpha_int (s s' : istream) :
  same_input s s' ->
  same_input (fst (extract_alpha int_block s)) (fst (extract_int s')) /\
  snd (extract_alpha int_block s) = snd (extract_int s').
Proof.
  intros (B & E & F).
  unfold extract_alpha, extract_int, formatted, good.
  cbn [set_boolalpha buf eofbit failbit boolalpha scan_element int_block].
  rewrite B, E, F.
  destruct (negb (eofbit s') && negb (failbit s')).
  - destruct (skipws (buf s')) as [|c b]; [repeat split|].
    unfold scan_int.
    destruct (scan_integer INT_MIN INT_MAX (c :: b)) as [[[rest eof] fail] v].
    repeat split.
  - unfold setfail. cbn [buf eofbit failbit]. repeat split; auto.
Qed.

Lemma attempt_alpha_int (fuel : nat) :
  forall (u : option (element int_block)) (w : world (element int_block))
         (w' : world Z),
    same_input (cin w) (cin w') ->
    prompts (history w) = prompts (history w') ->
    same_run
      (attempt (extract_alpha int_block) (element_type_message int_block)
         fuel u w)
      (attempt extract_int int_type_message fuel u w').
Proof.
  induction fuel as [|fuel IH]; intros u w w' Hs Hp;
    rewrite !attempt_unfold;
    destruct (extract_alpha_int Hs) as [Hs1 Hv]; rewrite Hv;
    pose proof (same_input_good Hs1) as Hg; rewrite Hg;
    destruct (good (fst (extract_int (cin w')))) eqn:G.
  - destruct (@formatted_stores Z scan_int _ G) as [v Ev].
    fold extract_int in Ev. rewrite Ev. cbn [assign].
    rewrite !read_loop_good by (cbn [cin]; congruence).
    cbn [same_run cin history]. rewrite !prompts_app, Hp. auto.
  - rewrite !read_loop_stop by (cbn [cin]; congruence).
    cbn [same_run cin history]. rewrite !prompts_app, Hp. auto.
  - destruct (@formatted_stores Z scan_int _ G) as [v Ev].
    fold extract_int in Ev. rewrite Ev. cbn [assign].
    rewrite !read_loop_good by (cbn [cin]; congruence).
    cbn [same_run cin history]. rewrite !prompts_app, Hp. auto.
  - rewrite !read_loop_retry by (cbn [cin]; congruence).
    apply IH; cbn [cin history].
    + now apply same_input_clear_ignore.
    + rewrite !prompts_app, Hp. reflexivity.
Qed.

(** X10.  With [typedef int element], [read_element] is [read_int] but for
    the text of its message and the format flag it sets: on streams that hold
    the same input the two readers end in the same way, return the same
    value, leave the same input and the same state flags, and have printed
    as many messages. *)
Theorem read_element_on_int_is_read_int (fuel : nat) (w w' : world Z) :
  same_input (cin w) (cin w') ->
  prompts (history w) = prompts (history w') ->
  same_run (read_element int_block fuel w) (read_int fuel w').
Proof.
  intros Hs Hp. unfold read_element, read_int. rewrite !read_is_attempt.
  now apply attempt_alpha_int.
Qed.

Lemma read_element_on_int_is_read_int_witness :
  same_run
    (read_element int_block 1 (session Z (lines [line "abc"; line "5"])))
    (read_int 1 (session Z (lines [line "abc"; line "5"]))).
Proof.
  apply (@read_element_on_int_is_read_int 1
           (session Z (lines [line "abc"; line "5"]))
           (session Z (lines [line "abc"; line "5"]))).
  - repeat split.
  - reflexivity.
Defined.

(** * The values of [read_float] *)

Lemma float_stored_finite (neg : bool) (v : spec_float) :
  v <> S754_nan -> is_finite (snd (float_stored neg v)) = true.
Proof. destruct v; simpl; auto; congruence. Qed.

Lemma scan_float_finite (a : bool) (b : list ascii) :
  is_finite (snd (scan_float a b)) = true.
Proof.
  unfold scan_float.
  destruct (scan_sign b) as [neg b1]. destruct (scan_digits b1) as [ip b2].
  destruct (scan_fraction b2) as [fp b3]. cbv zeta.
  destruct (is_nil ip && is_nil fp); [reflexivity|].
  destruct (scan_exponent b3) as [[rest [e|]]|]; [| reflexivity |].
  - pose proof (@float_stored_finite neg _
                  (@decimal_to_binary_not_nan 24 128 neg
                     (digits_val (ip ++ fp))
                     (e - Z.of_nat (List.length fp)))) as H.
    unfold to_float. destruct (float_stored neg _). exact H.
  - pose proof (@float_stored_finite neg _
                  (@decimal_to_binary_not_nan 24 128 neg
                     (digits_val (ip ++ fp))
                     (0 - Z.of_nat (List.length fp)))) as H.
    unfold to_float. destruct (float_stored neg _). exact H.
Qed.

Lemma extract_float_finite (s : istream) (v : spec_float) :
  snd (extract_float s) = Some v -> is_finite v = true.
Proof.
  unfold extract_float, formatted. destruct (good s); [|discriminate].
  destruct (skipws (buf s)) as [|c b]; [discriminate|].
  pose proof (scan_float_finite (boolalpha s) (c :: b)) as H.
  destruct (scan_float (boolalpha s) (c :: b)) as [[[rest eof] fail] z].
  simpl in *. congruence.
Qed.

(** X11.  [read_float] returns numbers only: the value it returns, and the
    value the range-checked reader of the [float] demo returns, is a zero or
    a finite [float], never an infinity or a NaN, so that both comparisons
    of the range test are comparisons of numbers. *)
Theorem read_float_returns_a_number
    (fuel : nat) (w : world spec_float) (v : spec_float)
    (w' : world spec_float) :
  read_float fuel w = Done v w' \/ read_float_in_range fuel w = Done v w' ->
  is_finite v = true.
Proof.
  intros [E | E].
  - destruct (@read_validated _ extract_float float_type_message
                (@formatted_stores _ scan_float) fuel w) as [_ R].
    destruct (R v w' E) as (_ & s & _ & Hv).
    exact (extract_float_finite _ Hv).
  - destruct (@read_in_range_validated _ extract_float float_type_message
                (@formatted_stores _ scan_float)
                (float_out_of_range FLOAT_LOW FLOAT_HIGH) float_range_message
                fuel w) as [_ R].
    destruct (R v w' E) as (_ & _ & s & _ & Hv).
    exact (extract_float_finite _ Hv).
Qed.

Lemma read_float_returns_a_number_witness :
  is_finite (to_float false 25 (-1)) = true.
Proof.
  apply (@read_float_returns_a_number 0 (session spec_float (lines [line "2.5"]))
           (to_float false 25 (-1))
           (world_of (read_float 0 (session spec_float (lines [line "2.5"]))))).
  left. vm_compute. reflexivity.
Defined.

(** * A rejected line of more than 80 characters *)

Section LongLines.

Variable T : Type.
Variable scan : bool -> list ascii -> list ascii * bool * bool * T.
Variable pre : istream -> istream.
Variable type_message : list (item T).

#[local] Abbreviation get := (fun s : istream => formatted scan (pre s)).

Hypothesis pre_buf : forall s, buf (pre s) = buf s.
Hypothesis pre_eof : forall s, eofbit (pre s) = eofbit s.
Hypothesis pre_fail : forall s, failbit (pre s) = failbit s.
Hypothesis pre_flag :
  forall s s' b, scan (boolalpha (pre s)) b = scan (boolalpha (pre s')) b.
Hypothesis scan_line :
  forall a u, no_newline u = true ->
    exists r fail v,
      (forall rest,
          scan a (u ++ newline :: rest) = (r ++ newline :: rest, false, fail, v))
      /\ (List.length r <= List.length u)%nat /\ no_newline r = true.

(** When the failed extraction leaves more than 80 characters of the line,
    the characters after the 80th are what the next extraction reads. *)
Lemma read_long_line (fuel : nat) (w : world T) (ws t r rest : list ascii) :
  good (cin w) = true ->
  buf (cin w) = ws ++ t ++ newline :: rest ->
  all_space ws = true ->
  malformed get t = true ->
  left_of get t = r ++ [newline] ->
  (80 < List.length r)%nat ->
  well_formed get (skipn 80 r) = true ->
  exists v w',
    read get type_message (S fuel) w = Done v w' /\
    value_of get (skipn 80 r) = Some v /\
    prompts (history w') = S (prompts (history w)) /\
    good (cin w') = true /\
    buf (cin w') = left_of get (skipn 80 r) ++ rest.
Proof.
  intros G Hb Hws Hmf Hl Hlen Hwf. unfold malformed in Hmf.
  apply andb_true_iff in Hmf. destruct Hmf as [Hmf Hg].
  apply andb_true_iff in Hmf. destruct Hmf as [Hnb Hnn].
  apply negb_true_iff in Hg.
  destruct (@get_line T scan pre pre_buf pre_eof pre_fail pre_flag scan_line
              (cin w) ws t rest G Hb Hws Hnb Hnn)
    as (r0 & Hl0 & Hbuf & Hlr & Hnr & Hgood & Hval).
  rewrite Hl in Hl0. apply app_inj_tail in Hl0. destruct Hl0 as [<- _].
  rewrite Hg in Hgood.
  rewrite read_is_attempt, attempt_unfold.
  rewrite read_loop_retry by exact Hgood.
  match goal with
  | |- exists v w', attempt _ _ _ ?u3 ?w3 = _ /\ _ =>
      destruct (@attempt_well_formed T scan pre type_message pre_buf pre_eof
                  pre_fail pre_flag scan_line fuel u3 w3 [] (skipn 80 r) rest)
        as (v & w2 & E2 & Hv & Hh & Hb2 & G2)
  end.
  - cbn [cin]. unfold ignore. rewrite good_clear. cbn [buf clear].
    rewrite Hbuf, ignore_buf_long by assumption. reflexivity.
  - cbn [cin]. unfold ignore. rewrite good_clear. cbn [buf clear].
    rewrite Hbuf, ignore_buf_long by assumption. reflexivity.
  - reflexivity.
  - exact Hwf.
  - exists v, w2. split; [exact E2|]. repeat split; auto.
    rewrite Hh. cbn [cin history]. rewrite !prompts_app.
    unfold prompts at 2 3 4. simpl. lia.
Qed.

End LongLines.

(** X12.  [cin.ignore(80, '\n')] discards 80 characters of a rejected line and
    no more.  When the failed extraction leaves more than 80 characters of
    the line, the reader prints its message once and then reads the
    characters after the 80th as if they were the next answer: if they are
    well formed, it returns their value, and the lines typed after that line
    are not read. *)
Theorem long_rejected_line_is_read_in_pieces
    (k : target) (fuel : nat) (w : world (target_type k))
    (t r rest : list ascii) :
  good (cin w) = true ->
  buf (cin w) = t ++ newline :: rest ->
  malformed (extraction k) t = true ->
  left_of (extraction k) t = r ++ [newline] ->
  (80 < List.length r)%nat ->
  well_formed (extraction k) (skipn 80 r) = true ->
  exists v w',
    reader k (S fuel) w = Done v w' /\
    value_of (extraction k) (skipn 80 r) = Some v /\
    prompts (history w') = S (prompts (history w)) /\
    good (cin w') = true /\
    buf (cin w') = left_of (extraction k) (skipn 80 r) ++ rest.
Proof.
  intros G Hb. destruct k.
  - exact (@read_long_line Z scan_int (fun s => s) int_type_message
             (fun _ => eq_refl) (fun _ => eq_refl) (fun _ => eq_refl)
             (fun _ _ _ => eq_refl) scan_int_line fuel w [] t r rest
             G Hb eq_refl).
  - exact (@read_long_line _ scan_float (fun s => s) float_type_message
             (fun _ => eq_refl) (fun _ => eq_refl) (fun _ => eq_refl)
             (fun _ _ _ => eq_refl) scan_float_line fuel w [] t r rest
             G Hb eq_refl).
  - exact (@read_long_line Z scan_int set_boolalpha
             (element_type_message int_block)
             (fun _ => eq_refl) (fun _ => eq_refl) (fun _ => eq_refl)
             (fun _ _ _ => eq_refl) scan_int_line fuel w [] t r rest
             G Hb eq_refl).
  - exact (@read_long_line bool scan_bool set_boolalpha
             (element_type_message bool_block)
             (fun _ => eq_refl) (fun _ => eq_refl) (fun _ => eq_refl)
             (fun _ _ _ => eq_refl) scan_bool_line fuel w [] t r rest
             G Hb eq_refl).
Qed.

(** [read_int] on a line of 80 letters and the digit 7, followed by the
    line "5": it returns 7. *)
Lemma long_rejected_line_is_read_in_pieces_witness :
  exists v w',
    read_int 1
      (session Z ((repeat "a"%char 80 ++ line "7") ++ newline
                  :: line "5" ++ [newline]))
    = Done v w' /\
    value_of extract_int (skipn 80 (repeat "a"%char 80 ++ line "7")) = Some v /\
    prompts (history w') = 1%nat /\
    good (cin w') = true /\
    buf (cin w')
    = left_of extract_int (skipn 80 (repeat "a"%char 80 ++ line "7"))
      ++ line "5" ++ [newline].
Proof.
  apply (@long_rejected_line_is_read_in_pieces OnInt 0
           (session Z ((repeat "a"%char 80 ++ line "7") ++ newline
                       :: line "5" ++ [newline]))
           (repeat "a"%char 80 ++ line "7")
           (repeat "a"%char 80 ++ line "7")
           (line "5" ++ [newline])).
  - reflexivity.
  - reflexivity.
  - reflexivity.
  - reflexivity.
  - vm_compute. lia.
  - reflexivity.
Defined.
